(** * Gitlab2Graph: the graph-upsert engine and the pipeline orchestration

    A shallow embedding of [g2g/models.py], [g2g/pipelines.py],
    [g2g/helpers.py] and [gitlab2graph.py].

    Python objects are embedded as follows.
    - A Python value is a [value]; a [dict] with string keys is an
      association list that keeps insertion order and holds each key once.
    - A function that may raise, and that mutates the graph or the pipeline
      instance, is a state transformer [M S A := S -> result A * S]: the
      state reached when the exception is raised is kept, as in Python.
    - The graph database reached through py2neo is a list of nodes, each
      with an identity, a label and a property bag. *)

From Stdlib Require Import List String Ascii Bool Arith ZArith Lia.
Import ListNotations.
Local Open Scope string_scope.
Local Open Scope list_scope.

Set Implicit Arguments.

(* ===================================================================== *)
(** ** Python values, dictionaries and exceptions *)
(* ===================================================================== *)

Module Py.

(** JSON-like values as the GitLab client hands them over. *)
#[local] Unset Elimination Schemes.
Inductive value : Type :=
| VNone
| VBool (b : bool)
| VInt (z : Z)
| VStr (s : string)
| VList (l : list value)
| VDict (d : list (string * value)).
#[local] Set Elimination Schemes.

Definition dict := list (string * value).

Fixpoint value_eqb (a b : value) {struct a} : bool :=
  match a, b with
  | VNone, VNone => true
  | VBool x, VBool y => Bool.eqb x y
  | VInt x, VInt y => Z.eqb x y
  | VStr x, VStr y => String.eqb x y
  | VList xs, VList ys =>
      (fix list_eqb (xs ys : list value) {struct xs} : bool :=
         match xs, ys with
         | [], [] => true
         | x :: xs', y :: ys' => value_eqb x y && list_eqb xs' ys'
         | _, _ => false
         end) xs ys
  | VDict xs, VDict ys =>
      (fix dict_eqb (xs ys : list (string * value)) {struct xs} : bool :=
         match xs, ys with
         | [], [] => true
         | (k, x) :: xs', (k', y) :: ys' =>
             String.eqb k k' && value_eqb x y && dict_eqb xs' ys'
         | _, _ => false
         end) xs ys
  | _, _ => false
  end.

(** [bool(v)]: the truth value Python gives [v]. *)
Definition truthy (v : value) : bool :=
  match v with
  | VNone => false
  | VBool b => b
  | VInt z => negb (Z.eqb z 0)
  | VStr s => negb (String.eqb s "")
  | VList l => match l with [] => false | _ => true end
  | VDict d => match d with [] => false | _ => true end
  end.

(** [k in d] *)
Fixpoint dict_contains (k : string) (d : dict) : bool :=
  match d with
  | [] => false
  | (k', _) :: d' => String.eqb k k' || dict_contains k d'
  end.

(** [d[k]], [None] standing for KeyError *)
Fixpoint dict_lookup (k : string) (d : dict) : option value :=
  match d with
  | [] => None
  | (k', v) :: d' => if String.eqb k k' then Some v else dict_lookup k d'
  end.

(** [d.get(k)] *)
Definition dict_get (k : string) (d : dict) : value :=
  match dict_lookup k d with Some v => v | None => VNone end.

(** [d[k] = v]: an existing key keeps its place, a new one goes last. *)
Fixpoint dict_set (k : string) (v : value) (d : dict) : dict :=
  match d with
  | [] => [(k, v)]
  | (k', v') :: d' =>
      if String.eqb k k' then (k', v) :: d' else (k', v') :: dict_set k v d'
  end.

(** [del d[k]], doing nothing when [k] is absent *)
Fixpoint dict_del (k : string) (d : dict) : dict :=
  match d with
  | [] => []
  | (k', v') :: d' =>
      if String.eqb k k' then dict_del k d' else (k', v') :: dict_del k d'
  end.

(** [{**a, **b}] *)
Definition dict_merge (a b : dict) : dict :=
  fold_left (fun acc kv => dict_set (fst kv) (snd kv) acc) b a.

Definition keys (d : dict) : list string := map fst d.

(** A well-formed dictionary holds every key once. *)
Definition wf_dict (d : dict) : Prop := NoDup (keys d).

Inductive exn : Type :=
| NeoGraphObjectException (msg : string)
| ConfigurationException (msg : string)
| NotImplementedError
| TypeError (msg : string)
| AttributeError (msg : string)
| KeyError (key : string)
| IndexError (msg : string).

Inductive result (A : Type) : Type :=
| Ok (a : A)
| Raise (e : exn).
Arguments Ok {A} a.
Arguments Raise {A} e.

(** Computations over a mutable state [S] that may raise. *)
Definition M (S A : Type) : Type := S -> result A * S.

Definition ret {S A} (a : A) : M S A := fun s => (Ok a, s).

Definition raise {S A} (e : exn) : M S A := fun s => (Raise e, s).

Definition bind {S A B} (m : M S A) (k : A -> M S B) : M S B :=
  fun s =>
    match m s with
    | (Ok a, s') => k a s'
    | (Raise e, s') => (Raise e, s')
    end.

(** [for x in xs: body(x)] *)
Fixpoint for_each {S A} (xs : list A) (body : A -> M S unit) : M S unit :=
  match xs with
  | [] => ret tt
  | x :: xs' => bind (body x) (fun _ => for_each xs' body)
  end.

(** A loop that threads a local variable through its iterations. *)
Fixpoint fold_each {S A B} (xs : list A) (body : B -> A -> M S B) (b : B)
  : M S B :=
  match xs with
  | [] => ret b
  | x :: xs' => bind (body b x) (fun b' => fold_each xs' body b')
  end.

(** Run a computation on a part of the state. *)
Definition zoom {S T A} (get : T -> S) (set : S -> T -> T) (m : M S A)
  : M T A :=
  fun t => let (r, s') := m (get t) in (r, set s' t).

End Py.

Import Py.

Declare Scope py_scope.
Delimit Scope py_scope with py.
Notation "x <- c1 ;; c2" := (bind c1 (fun x => c2))
  (at level 61, c1 at next level, right associativity) : py_scope.
Notation "c1 ;;; c2" := (bind c1 (fun _ => c2))
  (at level 61, right associativity) : py_scope.
Local Open Scope py_scope.

(* ===================================================================== *)
(** ** The graph sink: py2neo's [Graph], [NodeMatcher] and [PropertyDict] *)
(* ===================================================================== *)

Module Neo.

(** Modelled from the spec: the graph database is an external collaborator
    ("graph sink contract": node creation with a label and a property bag,
    property matching with first-match retrieval, upsert).  A node is kept
    with the identity the database gave it; nodes are listed in creation
    order and [first()] takes the earliest match.  Connection failures and
    constraint violations of the database are outside the model, and so
    are relationships and py2neo's check that an integer fits into 64
    bits: the journal notes the matches and merges of nodes, not the
    reading of the relationships of a node. *)
Record Node : Type := mkNode {
  identity : nat;
  label : string;
  properties : dict
}.

(** The conditions the repository puts into a match: [key=value] and
    [key__contains=value]. *)
Inductive condition : Type :=
| PropEq (key : string) (v : value)
| PropContains (key : string) (v : value).

(** What was asked of the database, oldest first. *)
Inductive operation : Type :=
| OpMatch (labels : option string) (conds : list condition)
| OpMerge (primary_label primary_key : string) (props : dict).

Record Graph : Type := mkGraph {
  nodes : list Node;
  next_identity : nat;
  journal : list operation
}.

(** [node[key] = v] on a py2neo [PropertyDict]: a [None] value removes the
    key, a property that is absent reads as [None]. *)
Definition property_set (key : string) (v : value) (props : dict) : dict :=
  match v with
  | VNone => dict_del key props
  | _ => dict_set key v props
  end.

Definition property_get (key : string) (props : dict) : value :=
  dict_get key props.

(** Cypher's [=]: never true on [null]. *)
Definition cypher_eq (a b : value) : bool :=
  match a, b with
  | VNone, _ => false
  | _, VNone => false
  | _, _ => value_eqb a b
  end.

(** [sub in s] on strings *)
Fixpoint contains (sub s : string) : bool :=
  String.prefix sub s ||
  match s with
  | EmptyString => false
  | String _ s' => contains sub s'
  end.

(** Cypher's [CONTAINS]: both sides have to be strings. *)
Definition cypher_contains (a b : value) : bool :=
  match a, b with
  | VStr s, VStr sub => contains sub s
  | _, _ => false
  end.

Definition holds (c : condition) (n : Node) : bool :=
  match c with
  | PropEq key v => cypher_eq (property_get key (properties n)) v
  | PropContains key v => cypher_contains (property_get key (properties n)) v
  end.

(** A match without labels ranges over the nodes of every label. *)
Definition node_matches (labels : option string) (conds : list condition)
  (n : Node) : bool :=
  match labels with
  | Some l => String.eqb (label n) l
  | None => true
  end && forallb (fun c => holds c n) conds.

(** Modelled from the spec: "pattern/property-based node matching and
    first-match retrieval", py2neo's [match(...).where(...).first()]; the
    database is not changed, the question is noted in the journal. *)
Definition match_first (labels : option string) (conds : list condition)
  : M Graph (option Node) :=
  fun g =>
    (Ok (find (node_matches labels conds) (nodes g)),
     mkGraph (nodes g) (next_identity g)
       (journal g ++ [OpMatch labels conds])).

(** [SET _ = props] on the first node a [MERGE] pattern matches: the
    identity of that node and the nodes after the update, if any matches. *)
Fixpoint set_first (p : Node -> bool) (props : dict) (ns : list Node)
  : option (nat * list Node) :=
  match ns with
  | [] => None
  | n :: ns' =>
      if p n
      then Some (identity n, mkNode (identity n) (label n) props :: ns')
      else
        match set_first p props ns' with
        | Some (i, l) => Some (i, n :: l)
        | None => None
        end
  end.

(** Modelled from the spec: "node/relationship upsert", the statement
    py2neo sends when an object with a primary key is created,
    [MERGE (_:label {key: props[key]}) SET _ = props], returning the
    identity of the node.  A node that matches is updated in place;
    without one, a node is created under a fresh identity. *)
Definition merge (primary_label primary_key : string) (props : dict)
  : M Graph nat :=
  fun g =>
    let conds := [PropEq primary_key (property_get primary_key props)] in
    let log := journal g ++ [OpMerge primary_label primary_key props] in
    match set_first (node_matches (Some primary_label) conds) props (nodes g)
    with
    | Some (i, ns) => (Ok i, mkGraph ns (next_identity g) log)
    | None =>
        (Ok (next_identity g),
         mkGraph (nodes g ++ [mkNode (next_identity g) primary_label props])
           (S (next_identity g)) log)
    end.

End Neo.

Import Neo.

(* ===================================================================== *)
(** ** [g2g/models.py]: the entity schema and the graph repository *)
(* ===================================================================== *)

Module Models.

(** The classes derived from [NeoGraphObject]. *)
Inductive model : Type :=
| Project | User | Label | Milestone | Note
| Issue | MergeRequest | Commit | AwardEmoji | Change.

(** The descriptors a class body declares.  [Property key] reads and writes
    the node property [key]; a relationship without an explicit type takes
    the upper-cased attribute name. *)
Inductive descriptor : Type :=
| Property (key : string)
| RelatedTo (related_class : string) (relationship_type : option string)
| RelatedFrom (related_class : string) (relationship_type : option string).

Definition __primarylabel__ (c : model) : string :=
  match c with
  | Project => "Project" | User => "User" | Label => "Label"
  | Milestone => "Milestone" | Note => "Note" | Issue => "Issue"
  | MergeRequest => "MergeRequest" | Commit => "Commit"
  | AwardEmoji => "AwardEmoji" | Change => "Change"
  end.

Definition __primarykey__ (c : model) : string := "id".

Definition __unique_constraints__ (c : model) : list string :=
  match c with
  | Project | Label | Note | AwardEmoji | Change => ["id"]
  | User => ["id"; "username"]
  | Milestone | Issue | MergeRequest => ["id"; "iid"]
  | Commit => ["id"; "short_id"]
  end.

Definition prop (name : string) : string * descriptor := (name, Property name).
Definition rel_to (name cls : string) : string * descriptor :=
  (name, RelatedTo cls None).
Definition rel_from (name cls ty : string) : string * descriptor :=
  (name, RelatedFrom cls (Some ty)).

(** The class bodies, attribute by attribute, in source order. *)
Definition declared (c : model) : list (string * descriptor) :=
  match c with
  | Project =>
      [prop "id"; prop "name"; prop "description"; prop "default_branch";
       prop "created_at"; prop "last_activity_at"; prop "namespace_name";
       rel_from "has_milestone" "Milestone" "BELONGS_TO";
       rel_from "has_issue" "Issue" "BELONGS_TO";
       rel_from "has_member" "User" "BELONGS_TO";
       rel_from "has_merge" "MergeRequest" "BELONGS_TO";
       rel_from "has_note" "Note" "BELONGS_TO"]
  | User =>
      [prop "id"; prop "name"; prop "username"; prop "state";
       rel_to "belongs_to" "Project";
       rel_from "is_author" "Issue" "CREATED_BY";
       rel_from "is_merge_author" "MergeRequest" "CREATED_BY";
       rel_from "was_issue_assigned" "Issue" "WAS_ASSIGNED_TO";
       rel_from "was_merge_assigned" "MergeRequest" "WAS_ASSIGNED_TO";
       rel_from "is_issue_assigned" "Issue" "IS_ASSIGNED";
       rel_from "is_merge_assigned" "MergeRequest" "IS_ASSIGNED";
       rel_from "closed_issue" "Issue" "CLOSED_BY";
       rel_from "closed_merge" "MergeRequest" "CLOSED_BY";
       rel_from "merged_by" "MergeRequest" "MERGED_BY";
       rel_from "commit_author" "ProjectCommit" "IS_AUTHOR";
       rel_from "committer" "ProjectCommit" "IS_COMMITTER";
       rel_from "note_author" "Note" "HAS_AUTHOR";
       rel_from "awarded_emoji" "AwardEmoji" "WAS_AWARDED_BY";
       rel_from "approved_merge" "MergeRequest" "APPROVED_BY"]
  | Label =>
      [prop "id"; prop "name"; prop "color"; prop "description";
       prop "open_merge_requests_count"; prop "open_issues_requests_count";
       prop "closed_issues_requests_count"; prop "is_project_label";
       rel_to "belongs_to" "Project";
       rel_from "is_annotated" "Issue" "HAS_LABEL";
       rel_from "is_merge_annotated" "MergeRequest" "HAS_LABEL"]
  | Milestone =>
      [prop "id"; prop "iid"; prop "title"; prop "description"; prop "state";
       prop "created_at"; prop "updated_at"; prop "due_date";
       prop "start_date"; rel_to "belongs_to" "Project";
       rel_from "is_annotated" "Issue" "HAS_MILESTONE";
       rel_from "is_merge_annotated" "MergeRequest" "HAS_MILESTONE"]
  | Note =>
      [prop "id"; prop "type"; prop "body"; prop "attachment"; prop "system";
       prop "resolvable"; prop "created_at"; prop "updated_at";
       rel_to "has_author" "User"; rel_from "at_issue" "Issue" "HAS_NOTE";
       rel_from "at_merge" "MergeRequest" "HAS_NOTE";
       rel_to "belongs_to" "Project"; rel_to "was_awarded_with" "AwardEmoji"]
  | Issue =>
      [prop "id"; prop "iid"; prop "title"; prop "description"; prop "state";
       prop "weight"; prop "merge_requests_count"; prop "created_at";
       prop "updated_at"; ("closed_at", Property "updated_at");
       prop "confidential"; prop "due_date"; prop "upvotes"; prop "downvotes";
       prop "has_tasks"; prop "task_status"; prop "task_count";
       prop "task_completed"; rel_to "has_label" "Label";
       rel_to "has_milestone" "Milestone"; rel_to "belongs_to" "Project";
       rel_to "created_by" "User"; rel_to "was_assigned" "User";
       rel_to "is_assigned" "User"; rel_to "closed_by" "User";
       rel_from "is_merge_annotated" "MergeRequest" "IS_RELATED";
       rel_to "has_note" "Note"; rel_to "was_awarded_with" "AwardEmoji"]
  | MergeRequest =>
      [prop "id"; prop "iid"; prop "title"; prop "state"; prop "description";
       prop "work_in_progress"; prop "merge_when_pipeline_succeeds";
       prop "force_remove_source_branch"; prop "should_remove_source_branch";
       prop "merge_status"; prop "sha"; prop "merge_commit_sha";
       prop "reference"; prop "squash"; prop "approvals_before_merge";
       prop "approvals_required"; prop "approvals_left"; prop "approved";
       prop "created_at"; prop "updated_at"; prop "merged_at";
       ("closed_at", Property "updated_at"); prop "target_branch";
       prop "source_branch"; prop "user_notes_count"; prop "upvotes";
       prop "downvotes"; prop "task_count"; prop "task_completed";
       prop "changes_count"; prop "merge_error";
       rel_to "belongs_to" "Project"; rel_to "has_label" "Label";
       rel_to "has_milestone" "Milestone"; rel_to "created_by" "User";
       rel_to "is_assigned" "User"; rel_to "was_assigned" "User";
       rel_to "closed_by" "User"; rel_to "merged_by" "User";
       rel_to "is_related" "Issue"; rel_to "has_merge_commit" "Commit";
       rel_to "is_latest_commit" "Commit"; rel_to "has_note" "Note";
       rel_to "was_awarded_with" "AwardEmoji"; rel_to "approved_by" "User";
       rel_to "has_change" "Change"]
  | Commit =>
      [prop "id"; prop "short_id"; prop "title"; prop "message";
       prop "created_at"; prop "author_name"; prop "author_email";
       prop "authored_date"; prop "committer_name"; prop "committer_email";
       prop "committed_date"; rel_to "belongs_to" "Project";
       rel_to "is_author" "User"; rel_to "is_committer" "User";
       rel_to "has_parent" "Commit";
       rel_from "is_parent" "Commit" "HAS_PARENT";
       rel_from "is_merge_commit" "MergeRequest" "HAS_MERGE_COMMIT";
       rel_from "is_latest_commit" "MergeRequest" "IS_LATEST_COMMIT"]
  | AwardEmoji =>
      [prop "id"; prop "name"; prop "title"; prop "message";
       prop "created_at"; ("updated_at", Property "created_at");
       rel_to "was_awarded_by" "User";
       rel_from "was_awarded_to_note" "Note" "WAS_AWARDED_WITH";
       rel_from "was_awarded_to_issue" "Issue" "WAS_AWARDED_WITH";
       rel_from "was_awarded_to_merge" "MergeRequest" "WAS_AWARDED_WITH"]
  | Change =>
      [prop "id"; prop "old_path"; prop "new_path"; prop "a_mode";
       prop "b_mode"; prop "new_file"; prop "renamed_file";
       prop "deleted_file"; prop "diff";
       rel_from "changed_in_merge" "MergeRequest" "HAS_CHANGE"]
  end.

Fixpoint descriptor_of (attr : string) (ds : list (string * descriptor))
  : option descriptor :=
  match ds with
  | [] => None
  | (a, d) :: ds' => if String.eqb attr a then Some d else descriptor_of attr ds'
  end.

(** An instance: its class, the node it wraps (the identity once the node
    is bound to the database, and the property bag), and the related
    objects attached to it in memory since it was built, per relationship
    attribute (the edges the database already holds are not loaded).  A
    related object is recorded by the identity of its node; [None] is
    Python's [None]. *)
Record GraphObject : Type := mkObject {
  class_of : model;
  node_identity : option nat;
  node_properties : dict;
  related : list (string * list (option nat))
}.

(** [cls()] *)
Definition new (c : model) : GraphObject := mkObject c None [] [].

(** [cls.wrap(node)] *)
Definition wrap (c : model) (n : Node) : GraphObject :=
  mkObject c (Some (identity n)) (properties n) [].

(** [hasattr(obj, attr)], over the attribute names of GitLab records: the
    names the class body declares.  (The names every Python object
    carries, methods and double-underscore attributes, are no field names
    of a GitLab record and are left out.) *)
Definition hasattr (o : GraphObject) (attr : string) : bool :=
  match descriptor_of attr (declared (class_of o)) with
  | Some _ => true
  | None => false
  end.

(** [isinstance(getattr(obj, attr), RelatedObjects)] *)
Definition is_related_objects (o : GraphObject) (attr : string) : bool :=
  match descriptor_of attr (declared (class_of o)) with
  | Some (RelatedTo _ _) | Some (RelatedFrom _ _) => true
  | _ => false
  end.

(** [getattr(obj, attr)] for a property attribute *)
Definition getattr (o : GraphObject) (attr : string) : value :=
  match descriptor_of attr (declared (class_of o)) with
  | Some (Property key) => property_get key (node_properties o)
  | _ => VNone
  end.

(** [setattr(obj, attr, v)] for a property attribute *)
Definition setattr (o : GraphObject) (attr : string) (v : value)
  : GraphObject :=
  match descriptor_of attr (declared (class_of o)) with
  | Some (Property key) =>
      mkObject (class_of o) (node_identity o)
        (property_set key v (node_properties o)) (related o)
  | _ => o
  end.

(** The loop of [create] over [attributes.items()]. *)
Fixpoint copy_attributes (o : GraphObject) (attributes : dict)
  : GraphObject :=
  match attributes with
  | [] => o
  | (attr, attr_value) :: rest =>
      if hasattr o attr && negb (is_related_objects o attr)
      then copy_attributes (setattr o attr attr_value) rest
      else copy_attributes o rest
  end.

(** [graph.create(obj)]: an object that is not bound yet is merged on its
    primary label and key and becomes bound to the node. *)
Definition graph_create (o : GraphObject) : M Graph GraphObject :=
  match node_identity o with
  | Some _ => ret o
  | None =>
      i <- merge (__primarylabel__ (class_of o)) (__primarykey__ (class_of o))
             (node_properties o) ;;
      ret (mkObject (class_of o) (Some i) (node_properties o) (related o))
  end.

(** [NeoGraphObject.find] ([cls] is not used: the matcher is a
    [NodeMatcher] on the whole graph and no label is passed to it). *)
Definition find (cls : model) (conds : list condition)
  : M Graph (option Node) :=
  match_first None conds.

(** [NeoGraphObject.create] *)
Definition create (cls : model) (attributes : dict) : M Graph GraphObject :=
  let obj := new cls in
  if negb (dict_contains (__primarykey__ cls) attributes)
  then raise (NeoGraphObjectException
                ("Primary '" ++ __primarykey__ cls ++ "' not in attributes"))
  else graph_create (copy_attributes obj attributes).

(** [NeoGraphObject.get] *)
Definition get (cls : model) (filters : dict)
  : M Graph (option GraphObject) :=
  n <- match_first (Some (__primarylabel__ cls))
         (map (fun kv => PropEq (fst kv) (snd kv)) filters) ;;
  ret (option_map (wrap cls) n).

(** [NeoGraphObject.get_or_create] *)
Definition get_or_create (cls : model) (pk : value)
  (attributes : option dict) : M Graph GraphObject :=
  match pk with
  | VNone => raise (NeoGraphObjectException "Primary key missing")
  | _ =>
      obj <- get cls [(__primarykey__ cls, pk)] ;;
      match obj with
      | Some o => ret o
      | None =>
          let attributes :=
            match attributes with
            | Some a => dict_merge [(__primarykey__ cls, pk)] a
            | None => [(__primarykey__ cls, pk)]
            end in
          create cls attributes
      end
  end.

(** py2neo's [relationship_case] on an attribute name in snake case. *)
Definition upper (c : ascii) : ascii :=
  let n := nat_of_ascii c in
  if (97 <=? n)%nat && (n <=? 122)%nat then ascii_of_nat (n - 32) else c.

Fixpoint relationship_case (attr : string) : string :=
  match attr with
  | EmptyString => EmptyString
  | String c rest => String (upper c) (relationship_case rest)
  end.

(** The label of the edges a relationship attribute stands for. *)
Definition relationship_type (c : model) (attr : string) : option string :=
  match descriptor_of attr (declared c) with
  | Some (RelatedTo _ (Some ty)) | Some (RelatedFrom _ (Some ty)) => Some ty
  | Some (RelatedTo _ None) | Some (RelatedFrom _ None) =>
      Some (relationship_case attr)
  | _ => None
  end.

(** The node property [key] is written by the attribute [key] only. *)
Definition unaliased (c : model) (key : string) : bool :=
  forallb
    (fun ad =>
       match snd ad with
       | Property k => negb (String.eqb k key) || String.eqb (fst ad) key
       | _ => true
       end)
    (declared c).

(** A class is plain when each of its properties is stored under the
    name of the attribute. *)
Definition plain (c : model) : bool :=
  forallb
    (fun ad =>
       match snd ad with
       | Property key => String.eqb key (fst ad)
       | _ => true
       end)
    (declared c).

Definition is_property (c : model) (attr : string) : bool :=
  match descriptor_of attr (declared c) with
  | Some (Property _) => true
  | _ => false
  end.

End Models.

Import Models.

(* ===================================================================== *)
(** ** [g2g/pipelines.py]: the transform steps that resolve references *)
(* ===================================================================== *)

Module Pipelines.

Definition PIPELINES : list string :=
  ["UserPipeline"; "LabelPipeline"; "MilestonePipeline"; "IssuePipeline";
   "MergeRequestPipeline"; "CommitPipeline"].

(** A record of the GitLab client: [record.attributes]. *)
Record RESTObject : Type := mkREST { attributes : dict }.

Fixpoint assoc {A} (k : string) (l : list (string * A)) : option A :=
  match l with
  | [] => None
  | (k', a) :: l' => if String.eqb k k' then Some a else assoc k l'
  end.

Fixpoint assoc_set {A} (k : string) (a : A) (l : list (string * A))
  : list (string * A) :=
  match l with
  | [] => [(k, a)]
  | (k', a') :: l' =>
      if String.eqb k k' then (k', a) :: l' else (k', a') :: assoc_set k a l'
  end.

(** [obj.attr] for a relationship attribute: the related objects attached
    in memory. *)
Definition related_objects (o : GraphObject) (attr : string)
  : list (option nat) :=
  match assoc attr (related o) with
  | Some l => l
  | None => []
  end.

Definition same_object (a b : option nat) : bool :=
  match a, b with
  | Some i, Some j => Nat.eqb i j
  | None, None => true
  | _, _ => false
  end.

(** [obj.attr.update(target)]: the target is added unless an equal object
    is attached already.  [related] lists what the steps attached to the
    object, in order.  py2neo keeps with them the relationships the node
    already has in the database, which it reads when the attribute is
    first touched.  The database of this model holds nodes only
    (relationships are written by [commit_data], through [graph.push]),
    so there are none to read: the related set of py2neo is this list on
    a first import, and this list together with the old relationships of
    the node on a later one.  What is said of a run on any database is
    therefore said by membership, not of the whole list. *)
Definition update (o : GraphObject) (attr : string) (target : option nat)
  : GraphObject :=
  let l := related_objects o attr in
  let l' := if existsb (same_object target) l then l else l ++ [target] in
  mkObject (class_of o) (node_identity o) (node_properties o)
    (assoc_set attr l' (related o)).

(** [str.isspace] on one character (code points below 256). *)
Definition isspace (c : ascii) : bool :=
  let n := nat_of_ascii c in
  ((9 <=? n)%nat && (n <=? 13)%nat) || ((28 <=? n)%nat && (n <=? 32)%nat)
  || (n =? 133)%nat || (n =? 160)%nat.

(** [s.split()]: the maximal runs of characters that are not whitespace. *)
Fixpoint split_from (cur : string) (s : string) : list string :=
  match s with
  | EmptyString =>
      if String.eqb cur "" then [] else [cur]
  | String c s' =>
      if isspace c
      then (if String.eqb cur "" then split_from "" s'
            else cur :: split_from "" s')
      else split_from (cur ++ String c "") s'
  end.

Definition split (s : string) : list string := split_from "" s.

(** [l[-1]] *)
Definition last_item {S A} (l : list A) : M S A :=
  match rev l with
  | a :: _ => ret a
  | [] => raise (IndexError "list index out of range")
  end.

(** [for x in v]: the items Python iterates over. *)
Definition iterate {S} (v : value) : M S (list value) :=
  match v with
  | VList l => ret l
  | VStr s => ret (map (fun c => VStr (String c "")) (list_ascii_of_string s))
  | VDict d => ret (map (fun kv => VStr (fst kv)) d)
  | VNone => raise (TypeError "'NoneType' object is not iterable")
  | VBool _ => raise (TypeError "'bool' object is not iterable")
  | VInt _ => raise (TypeError "'int' object is not iterable")
  end.

(** [v[key]] on a value *)
Definition subscript {S} (v : value) (key : string) : M S value :=
  match v with
  | VDict d =>
      match dict_lookup key d with
      | Some x => ret x
      | None => raise (KeyError key)
      end
  | VNone => raise (TypeError "'NoneType' object is not subscriptable")
  | VBool _ => raise (TypeError "'bool' object is not subscriptable")
  | VInt _ => raise (TypeError "'int' object is not subscriptable")
  | VStr _ => raise (TypeError "string indices must be integers")
  | VList _ => raise (TypeError "list indices must be integers or slices, not str")
  end.

(** [cls.match(graph, primary_value).first()]: the first node of the
    class with this primary key; [None] when there is none. *)
Definition match_first_by_key (cls : model) (primary_value : value)
  : M Graph (option GraphObject) :=
  n <- match_first (Some (__primarylabel__ cls))
         match primary_value with
         | VNone => []
         | _ => [PropEq (__primarykey__ cls) primary_value]
         end ;;
  ret (option_map (wrap cls) n).

(** What [update] is given when it is passed the result of [first()]:
    the node of the object, or Python's [None]. *)
Definition target_of (o : option GraphObject) : option nat :=
  match o with
  | Some obj => node_identity obj
  | None => None
  end.

Module IssuePipeline.

(** The part of the loop of [transform_data] that resolves the users of
    an issue: author, assignees, assignee, closer. *)
Definition resolve_users (issue : RESTObject) (issue_model : GraphObject)
  : M Graph GraphObject :=
  let author_id := dict_get "author" (attributes issue) in
  issue_model <-
    (if truthy author_id
     then
       author_id <- subscript author_id "id" ;;
       author_dict <- match_first_by_key User author_id ;;
       ret (update issue_model "created_by" (target_of author_dict))
     else ret issue_model) ;;
  assignees <- iterate (dict_get "assignees" (attributes issue)) ;;
  issue_model <-
    fold_each assignees
      (fun issue_model assignee =>
         assignee_id <- subscript assignee "id" ;;
         author_dict <- match_first_by_key User assignee_id ;;
         ret (update issue_model "was_assigned" (target_of author_dict)))
      issue_model ;;
  let assignee := dict_get "assignee" (attributes issue) in
  issue_model <-
    (if truthy assignee
     then
       assignee_id <- subscript assignee "id" ;;
       author_dict <- match_first_by_key User assignee_id ;;
       ret (update issue_model "is_assigned" (target_of author_dict))
     else ret issue_model) ;;
  let closer_id := dict_get "closed_by" (attributes issue) in
  if truthy closer_id
  then
    closer_id <- subscript closer_id "id" ;;
    author_dict <- match_first_by_key User closer_id ;;
    ret (update issue_model "closed_by" (target_of author_dict))
  else ret issue_model.

End IssuePipeline.

Module CommitPipeline.

(** The fields of the instance that the transform step uses. *)
Record self : Type := mkSelf {
  graph : Graph;
  commits : option (list RESTObject);
  commit_model_list : list GraphObject
}.

Definition on_graph {A} (m : M Graph A) : M self A :=
  zoom graph (fun g s => mkSelf g (commits s) (commit_model_list s)) m.

(** [name.split()[-1]] *)
Definition surname_of (name : value) : M Graph value :=
  match name with
  | VStr s => t <- last_item (split s) ;; ret (VStr t)
  | _ => raise (AttributeError "object has no attribute 'split'")
  end.

(** [CommitPipeline._find_user]; [self.matcher] is
    [NodeMatcher(self.graph)]. *)
Definition _find_user (name : value) : M Graph (option GraphObject) :=
  match name with
  | VNone => ret None
  | _ =>
      node <- find User [PropContains "name" name] ;;
      node <- match node with
              | Some n => ret (Some n)
              | None =>
                  surname <- surname_of name ;;
                  find User [PropContains "name" surname]
              end ;;
      match node with
      | Some n => ret (Some (wrap User n))
      | None => ret None
      end
  end.

(** The body of the loop of [transform_data], for one commit. *)
Definition transform_commit (commit : RESTObject) : M self unit :=
  commit_model <- on_graph (create Commit (attributes commit)) ;;
  author <- on_graph (_find_user (dict_get "author_name" (attributes commit))) ;;
  let commit_model :=
    match author with
    | Some a => update commit_model "is_author" (node_identity a)
    | None => commit_model
    end in
  committer <-
    on_graph (_find_user (dict_get "committer_name" (attributes commit))) ;;
  let commit_model :=
    match committer with
    | Some a => update commit_model "is_committer" (node_identity a)
    | None => commit_model
    end in
  parent_ids <- iterate (dict_get "parent_ids" (attributes commit)) ;;
  commit_model <-
    fold_each parent_ids
      (fun commit_model parent_commit_id =>
         parent_commit <-
           on_graph (get_or_create Commit parent_commit_id None) ;;
         ret (update commit_model "has_parent" (node_identity parent_commit)))
      commit_model ;;
  fun s =>
    (Ok tt, mkSelf (graph s) (commits s) (commit_model_list s ++ [commit_model])).

(** [CommitPipeline.transform_data] *)
Definition transform_data : M self unit :=
  fun s =>
    match commits s with
    | Some cs => for_each cs transform_commit s
    | None => (Raise (TypeError "'NoneType' object is not iterable"), s)
    end.

End CommitPipeline.

Module MergeRequestPipeline.

(** The text of a [str], character by character: its code points. *)
Definition code_points (s : string) : list N :=
  map N_of_ascii (list_ascii_of_string s).

Definition dash : N := 45%N.
Definition newline : N := 10%N.

Definition is_newline (c : N) : bool := (c =? newline)%N.

Section Digits.

(** The decimal digits of Unicode (category Nd) come in runs of ten, zero
    to nine.  [zeros] holds the code points of the zeros; which runs there
    are depends on the Unicode version the interpreter was built with. *)
Variable zeros : list N.

(** The value of a decimal digit, as [\d] and [int] know it. *)
Definition digit_value (c : N) : option Z :=
  match List.find (fun z => (z <=? c)%N && (c <=? z + 9)%N) zeros with
  | Some z => Some (Z.of_N (c - z))
  | None => None
  end.

(** [\d] in a pattern for [str] *)
Definition is_digit (c : N) : bool :=
  match digit_value c with
  | Some _ => true
  | None => false
  end.

(** [\d+], greedy: the longest prefix of digits and what follows it. *)
Fixpoint span_digits (s : list N) : list N * list N :=
  match s with
  | [] => ([], [])
  | c :: s' =>
      if is_digit c
      then let (d, r) := span_digits s' in (c :: d, r)
      else ([], s)
  end.

(** [.*$]: characters other than a newline up to the end of the string,
    or up to a newline that ends the string. *)
Fixpoint dot_star_end (s : list N) : bool :=
  match s with
  | [] => true
  | c :: s' =>
      if is_newline c
      then match s' with [] => true | _ :: _ => false end
      else dot_star_end s'
  end.

(** [.+$] *)
Definition dot_plus_end (s : list N) : bool :=
  match s with
  | [] => false
  | c :: s' => negb (is_newline c) && dot_star_end s'
  end.

(** [re.match(r"^(\d+)-.+$", s)]: [group(1)] of the match, if any. *)
Definition re_match (s : list N) : option (list N) :=
  let (d, r) := span_digits s in
  match d, r with
  | _ :: _, c :: r' =>
      if (c =? dash)%N then (if dot_plus_end r' then Some d else None)
      else None
  | _, _ => None
  end.

Definition digit (c : N) : Z :=
  match digit_value c with
  | Some v => v
  | None => 0%Z
  end.

(** [int(s)] on a string of decimal digits, read from left to right *)
Definition int (s : list N) : Z :=
  fold_left (fun acc c => (acc * 10 + digit c)%Z) s 0%Z.

(** The step "Get issue from branch" of [transform_data], given the text
    of [merge_request_model.source_branch]. *)
Definition issue_from_branch_of (source_branch : list N)
  (merge_request_model : GraphObject) : M Graph GraphObject :=
  match re_match source_branch with
  | Some issue_iid =>
      match issue_iid with
      | _ :: _ =>
          issue <- get Issue [("iid", VInt (int issue_iid))] ;;
          match issue with
          | Some i =>
              ret (update merge_request_model "is_related" (node_identity i))
          | None => ret merge_request_model
          end
      | [] => ret merge_request_model
      end
  | None => ret merge_request_model
  end.

(** The step on the model of the merge request being transformed. *)
Definition issue_from_branch (merge_request_model : GraphObject)
  : M Graph GraphObject :=
  match getattr merge_request_model "source_branch" with
  | VStr source_branch =>
      issue_from_branch_of (code_points source_branch) merge_request_model
  | _ => raise (TypeError "expected string or bytes-like object")
  end.

(** The pattern in words: a character is a decimal digit when it lies in
    one of the runs; a branch name has the numeric prefix [d] when it is
    [d], then a dash, then characters other than newlines, and possibly
    one newline that ends the string. *)
Definition decimal (c : N) : Prop :=
  exists z, In z zeros /\ (z <= c)%N /\ (c <= z + 9)%N.

Definition branch_pattern (s d : list N) : Prop :=
  exists r t,
    s = d ++ dash :: r ++ t
    /\ d <> [] /\ Forall decimal d
    /\ r <> [] /\ ~ In newline r
    /\ (t = [] \/ t = [newline]).

(** The number a numeral stands for: each digit weighs ten times the
    digit to its right. *)
Fixpoint numeral (d : list N) : Z :=
  match d with
  | [] => 0%Z
  | c :: d' => (digit c * 10 ^ Z.of_nat (List.length d') + numeral d')%Z
  end.

(** The digits the branch name starts with are few enough for a number
    the interpreter converts and the database stores: interpreters since
    3.11 refuse numerals of more than 4300 digits, and the database holds
    64-bit integers. *)
Definition prefix_fits (s : list N) : Prop :=
  List.length (fst (span_digits s)) <= 18.

End Digits.

(** The zeros of the decimal digits of Unicode 14, the version of
    Python 3.11: ASCII, Arabic-Indic, Devanagari and so on. *)
Definition unicode_14 : list N :=
  [48; 1632; 1776; 1984; 2406; 2534; 2662; 2790; 2918; 3046; 3174; 3302;
   3430; 3558; 3664; 3792; 3872; 4160; 4240; 6112; 6160; 6470; 6608; 6784;
   6800; 6992; 7088; 7232; 7248; 42528; 43216; 43264; 43472; 43504; 43600;
   44016; 65296; 66720; 68912; 69734; 69872; 69942; 70096; 70384; 70736;
   70864; 71248; 71360; 71472; 71904; 72016; 72784; 73040; 73120; 92768;
   92864; 93008; 120782; 120792; 120802; 120812; 120822; 123200; 123632;
   125264; 130032]%N.

End MergeRequestPipeline.

End Pipelines.

(* ===================================================================== *)
(** ** [g2g/helpers.py] and [gitlab2graph.py]: configuration and
       orchestration *)
(* ===================================================================== *)

Module Helpers.

Definition VALID_CONFIG : list (string * list string) :=
  [("GITLAB", ["token"]);
   ("NEO4J", ["hostname"; "protocol"; "port"; "db"; "user"; "password"]);
   ("PROJECT", ["project_id"])].

(** Modelled from the spec: parsing the INI file is left to [configparser]
    ("a validated key-value config object"): a parsed file is its sections
    with their options, and the options of the default section, which every
    section inherits.  Option names are in lower case, as the parser
    stores them. *)
Record ConfigParser : Type := mkConfig {
  defaults : list (string * string);
  config_sections : list (string * list (string * string))
}.

(** [config.sections()] *)
Definition sections (config : ConfigParser) : list string :=
  map fst (config_sections config).

Definition mem (x : string) (l : list string) : bool :=
  existsb (String.eqb x) l.

(** [param in config[section]] *)
Definition has_option (config : ConfigParser) (section param : string)
  : bool :=
  match Pipelines.assoc section (config_sections config) with
  | Some options => mem param (map fst options) || mem param (map fst (defaults config))
  | None => false
  end.

Fixpoint ends_with_slash (s : string) : bool :=
  match s with
  | EmptyString => false
  | String c EmptyString => Ascii.eqb c "/"
  | String _ s' => ends_with_slash s'
  end.

(** [os.path.join(a, b)] on POSIX paths *)
Definition path_join (a b : string) : string :=
  if String.prefix "/" b then b
  else if String.eqb a "" || ends_with_slash a then a ++ b
  else a ++ "/" ++ b.

(** The methods of a pipeline the orchestrator calls, [Init] being the
    constructor. *)
Inductive method : Type := Init | RequestData | TransformData | CommitData.

(** What a run leaves behind: the log records and the calls made on the
    pipelines, oldest first. *)
Inductive event : Type :=
| LogInfo (msg : string)
| Call (pipe : string) (m : method).

Section Orchestration.

(** The GitLab server and the graph database, and what a call of a
    pipeline method does to them. *)
Variable World : Type.
Variable perform : ConfigParser -> string -> method -> M World unit.

(** The configuration directory, [<package>/../configurations], and the
    parsed content of the files that exist. *)
Variable config_path : string.
Variable files : string -> option ConfigParser.

Record state : Type := mkState {
  world : World;
  trace : list event
}.

Definition log_info (msg : string) : M state unit :=
  fun s => (Ok tt, mkState (world s) (trace s ++ [LogInfo msg])).

(** A call [pipe.m()]: it is recorded, then it acts on the world. *)
Definition call (cfg : ConfigParser) (pipe : string) (m : method)
  : M state unit :=
  fun s =>
    let (r, w) := perform cfg pipe m (world s) in
    (r, mkState w (trace s ++ [Call pipe m])).

(** The check of one section in the loop of [get_config]. *)
Definition check_section (config : ConfigParser)
  (entry : string * list string) : M state unit :=
  let (section, params) := entry in
  if negb (mem section (sections config))
  then raise (ConfigurationException ("Section " ++ section ++ " is missing"))
  else
    for_each params (fun param =>
      if negb (has_option config section param)
      then raise (ConfigurationException
                    ("Parameter " ++ param ++ " in section " ++ section
                     ++ " is missing"))
      else ret tt).

(** [get_config] *)
Definition get_config (configfile : string) : M state ConfigParser :=
  let configfile := path_join config_path configfile in
  match files configfile with
  | None =>
      raise (ConfigurationException
               ("Configuration " ++ configfile ++ " not found."))
  | Some config =>
      log_info "Parse configuration." ;;;
      for_each VALID_CONFIG (check_section config) ;;;
      log_info "Configuration is valid." ;;;
      ret config
  end.

(** [get_pipelines]: one instance per name in [PIPELINES], in that order;
    an instance is known by the name of its class ([full_name]). *)
Definition get_pipelines (config : ConfigParser) : M state (list string) :=
  for_each Pipelines.PIPELINES (fun pipe => call config pipe Init) ;;;
  ret Pipelines.PIPELINES.

(** [process_pipelines] *)
Definition process_pipelines (cfg : ConfigParser) : M state unit :=
  pipes <- get_pipelines cfg ;;
  for_each pipes (fun pipe =>
    log_info ("Request data: " ++ pipe) ;;;
    call cfg pipe RequestData) ;;;
  for_each pipes (fun pipe =>
    log_info ("Transform data: " ++ pipe) ;;;
    call cfg pipe TransformData ;;;
    log_info ("Commit data: " ++ pipe) ;;;
    call cfg pipe CommitData).

(** The loop of [gitlab2graph.py] over the configuration files given on
    the command line. *)
Definition main (configuration : list string) : M state unit :=
  for_each configuration (fun config_filename =>
    log_info ("Processing pipeline defined in " ++ config_filename) ;;;
    cfg <- get_config config_filename ;;
    process_pipelines cfg).

(** The calls on the pipelines in a trace, in order. *)
Definition calls (tr : list event) : list (string * method) :=
  flat_map (fun e => match e with
                     | Call pipe m => [(pipe, m)]
                     | LogInfo _ => []
                     end) tr.

(** A computation emits the calls [l]: whatever the state, the calls it
    adds to the trace are the first ones of [l], and all of [l] when it
    returns. *)
Definition emits {A} (m : M state A) (l : list (string * method)) : Prop :=
  forall s,
    exists done rest,
      calls (trace (snd (m s))) = calls (trace s) ++ done
      /\ l = done ++ rest
      /\ (forall a, fst (m s) = Ok a -> rest = []).

(** What [get_config] requires of a parsed file. *)
Definition valid_section (config : ConfigParser)
  (entry : string * list string) : bool :=
  mem (fst entry) (sections config)
  && forallb (has_option config (fst entry)) (snd entry).

Definition valid_config (config : ConfigParser) : bool :=
  forallb (valid_section config) VALID_CONFIG.

(** The file is missing, or a required section or key is missing in it. *)
Definition missing (configfile : string) : Prop :=
  match files (path_join config_path configfile) with
  | None => True
  | Some config => valid_config config = false
  end.

End Orchestration.

(** The calls of one run of [process_pipelines] that returns. *)
Definition expected_calls : list (string * method) :=
  let six := ["UserPipeline"; "LabelPipeline"; "MilestonePipeline";
              "IssuePipeline"; "MergeRequestPipeline"; "CommitPipeline"] in
  map (fun pipe => (pipe, Init)) six
  ++ map (fun pipe => (pipe, RequestData)) six
  ++ flat_map (fun pipe => [(pipe, TransformData); (pipe, CommitData)]) six.

End Helpers.

Import Pipelines.

(* ===================================================================== *)
(** ** Sample graphs, records and configurations *)
(* ===================================================================== *)

Module Fixtures.

Import Pipelines.CommitPipeline Helpers.

Definition empty_graph : Graph := mkGraph [] 0 [].

(** A graph after the first pipelines ran: the project and one user. *)
Definition small_graph : Graph :=
  mkGraph
    [mkNode 0 "Project" [("id", VInt 1); ("name", VStr "Gitlab2Graph")];
     mkNode 1 "User"
       [("id", VInt 5); ("name", VStr "Martin"); ("username", VStr "mst")]]
    2 [].

(** A graph in which the project is called after a surname. *)
Definition doe_tools_graph : Graph :=
  mkGraph
    [mkNode 0 "Project" [("id", VInt 1); ("name", VStr "Doe Tools")];
     mkNode 1 "User"
       [("id", VInt 5); ("name", VStr "Jane Roe"); ("username", VStr "jroe")]]
    2 [].

Definition some_doe_commit : RESTObject :=
  mkREST [("id", VStr "6104942438c1"); ("author_name", VStr "Some Doe");
          ("committer_name", VStr "Jane Roe"); ("parent_ids", VList [])].

(** A graph with the issue 42 of the project, and two merge requests as
    [create] returns them. *)
Definition issue_graph : Graph :=
  mkGraph
    [mkNode 0 "Issue"
       [("id", VInt 301); ("iid", VInt 42); ("title", VStr "Fix bug")]]
    1 [].

Definition merge_request_on (branch : string) : GraphObject :=
  mkObject MergeRequest (Some 1)
    [("id", VInt 900); ("source_branch", VStr branch)] [].

(** The configuration of the tests, the same without its section
    [PROJECT], and a directory that holds the two. *)
Definition project_name_ini : ConfigParser :=
  mkConfig []
    [("GITLAB", [("token", "f00b4r")]);
     ("NEO4J", [("hostname", "localhost"); ("protocol", "bolt");
                ("port", "7687"); ("db", "data"); ("user", "neo4j");
                ("password", "secret")]);
     ("PROJECT", [("project_id", "42")]);
     ("ProjectPipeline", [("test_attr", "42")])].

Definition no_project_ini : ConfigParser :=
  mkConfig []
    [("GITLAB", [("token", "f00b4r")]);
     ("NEO4J", [("hostname", "localhost"); ("protocol", "bolt");
                ("port", "7687"); ("db", "data"); ("user", "neo4j");
                ("password", "secret")])].

Definition configurations : string := "/opt/g2g/configurations".

Definition sample_files (path : string) : option ConfigParser :=
  if String.eqb path "/opt/g2g/configurations/project_name.ini"
  then Some project_name_ini
  else if String.eqb path "/opt/g2g/configurations/no_project.ini"
       then Some no_project_ini
       else None.

(** Pipelines whose calls all return. *)
Definition quiet (cfg : ConfigParser) (pipe : string) (m : method)
  : M unit unit := ret tt.

(** Pipelines of which one call raises. *)
Definition failing_at (pipe0 : string) (m0 : method) (cfg : ConfigParser)
  (pipe : string) (m : method) : M unit unit :=
  if String.eqb pipe pipe0
     && match m, m0 with
        | Init, Init | RequestData, RequestData
        | TransformData, TransformData | CommitData, CommitData => true
        | _, _ => false
        end
  then raise (TypeError "'NoneType' object is not iterable")
  else ret tt.

Definition start : state unit := mkState tt [].

(** An issue written by a user who is no member of the project. *)
Definition foreign_issue : RESTObject :=
  mkREST [("id", VInt 301); ("iid", VInt 42);
          ("author", VDict [("id", VInt 77); ("name", VStr "Guest")]);
          ("assignees", VList []); ("assignee", VNone);
          ("closed_by", VNone)].

(** An issue of a member of the project, assigned to that member and to
    a user who is none. *)
Definition assigned_issue : RESTObject :=
  mkREST [("id", VInt 302); ("iid", VInt 43);
          ("author", VDict [("id", VInt 5); ("name", VStr "Martin")]);
          ("assignees",
           VList [VDict [("id", VInt 5)]; VDict [("id", VInt 77)]]);
          ("assignee", VDict [("id", VInt 5)]);
          ("closed_by", VNone)].

(** A commit without an author name, committed under a blank name. *)
Definition blank_commit : RESTObject :=
  mkREST [("id", VStr "6104942438c1"); ("title", VStr "Fix typo");
          ("committer_name", VStr "  "); ("parent_ids", VList [])].

(** A pipeline of commits before its transformation: two commits were
    requested, of which the second is committed under a blank name. *)
Definition two_commits : CommitPipeline.self :=
  mkSelf doe_tools_graph (Some [some_doe_commit; blank_commit]) [].

End Fixtures.

Import Fixtures.

(* ===================================================================== *)
(** ** [g2g/models.py], [g2g/pipelines.py]: constraints, the constructor of
       a pipeline, and the pipelines of users, labels and milestones *)
(* ===================================================================== *)

Module Constraints.

(** Modelled from the spec: "uniqueness-constraint registration per (type,
    property)", py2neo's [graph.schema.create_uniqueness_constraint]: the
    registrations asked of the database, oldest first. *)
Definition Schema : Type := list (string * string).

Definition create_uniqueness_constraint (label key : string)
  : M Schema unit :=
  fun schema => (Ok tt, schema ++ [(label, key)]).

(** [cls.__name__] *)
Definition __name__ (c : model) : string :=
  match c with
  | Project => "Project" | User => "User" | Label => "Label"
  | Milestone => "Milestone" | Note => "Note" | Issue => "Issue"
  | MergeRequest => "MergeRequest" | Commit => "Commit"
  | AwardEmoji => "AwardEmoji" | Change => "Change"
  end.

(** [NeoGraphObject.set_constraints] *)
Definition set_constraints (cls : model) : M Schema unit :=
  for_each (__unique_constraints__ cls)
    (fun key => create_uniqueness_constraint (__name__ cls) key).

End Constraints.

Module Pipeline.

Import Helpers Constraints.

(** [s.split(sep)] for a separator that is not empty: [skip] counts the
    characters of a separator that was found and is being stepped over. *)
Fixpoint split_at (sep : string) (skip : nat) (cur s : string)
  : list string :=
  match s with
  | EmptyString => [cur]
  | String c s' =>
      match skip with
      | S k => split_at sep k cur s'
      | O =>
          if String.prefix sep s
          then cur :: split_at sep (String.length sep - 1) "" s'
          else split_at sep 0 (cur ++ String c "") s'
      end
  end.

Definition split_on (sep s : string) : list string := split_at sep 0 "" s.

(** The property [name]: [name, _ = self._name.split("Pipeline")];
    [None] stands for the [ValueError] of the unpacking. *)
Definition name (_name : string) : option string :=
  match split_on "Pipeline" _name with
  | [name; _] => Some name
  | _ => None
  end.

(** The property [full_name] *)
Definition full_name (_name : string) : string := _name.

(** [getattr(models, name)], for the names of the classes of the schema;
    [None] stands for the [AttributeError] on any other name. *)
Definition models_getattr (name : string) : option model :=
  List.find (fun c => String.eqb (__name__ c) name)
    [Project; User; Label; Milestone; Note; Issue; MergeRequest; Commit;
     AwardEmoji; Change].

(** [Pipeline._add_constraints], given the value of [self.name] *)
Definition _add_constraints (name : string) : M Schema unit :=
  match models_getattr name with
  | Some cls => set_constraints cls
  | None =>
      raise (AttributeError
               ("module 'g2g.models' has no attribute '" ++ name ++ "'"))
  end.

(** [configparser]'s [optionxform]: option names are looked up in lower
    case ([str.lower], on code points below 256). *)
Definition lower (c : ascii) : ascii :=
  let n := nat_of_ascii c in
  if ((65 <=? n)%nat && (n <=? 90)%nat)
     || ((192 <=? n)%nat && (n <=? 222)%nat && negb (n =? 215)%nat)
  then ascii_of_nat (n + 32)
  else c.

Fixpoint optionxform (option : string) : string :=
  match option with
  | EmptyString => EmptyString
  | String c rest => String (lower c) (optionxform rest)
  end.

(** [config[section][key]]: the option of the section, or else of the
    default section; [KeyError] on a section or an option that is not
    there.  (Values are taken as the parser stores them.) *)
Definition config_item {S} (config : ConfigParser) (section key : string)
  : M S string :=
  let options :=
    if String.eqb section "DEFAULT" then Some (defaults config)
    else match assoc section (config_sections config) with
         | Some own => Some (own ++ defaults config)
         | None => None
         end in
  match options with
  | None => raise (KeyError section)
  | Some options =>
      match assoc (optionxform key) options with
      | Some v => ret v
      | None => raise (KeyError key)
      end
  end.

(** [Pipeline.get_config_attribute]; the result [None] is Python's
    [None], which the method returns after a [KeyError]. *)
Definition get_config_attribute {S} (config : ConfigParser)
  (full_name attr : string) (section : option string)
  : M S (option string) :=
  let section :=
    match section with
    | None => full_name
    | Some section => section
    end in
  fun s =>
    match
      (pipe_section_attr <- config_item config section attr ;;
       ret (Some pipe_section_attr)) s
    with
    | (Raise (KeyError _), s') => (Ok None, s')
    | outcome => outcome
    end.

(** [Pipeline._ini_gitlab_api]: the arguments the GitLab client is built
    with, [url] and [private_token]. *)
Definition _ini_gitlab_api {S} (config : ConfigParser)
  : M S (string * string) :=
  token <- config_item config "GITLAB" "token" ;;
  ret ("https://gitlab-ee.sc.dlr.de", token).

(** [Pipeline._init_neo4j]: the arguments the graph is opened with, the
    address, [user] and [password]. *)
Definition _init_neo4j {S} (config : ConfigParser)
  : M S (string * string * string) :=
  hostname <- config_item config "NEO4J" "hostname" ;;
  protocol <- config_item config "NEO4J" "protocol" ;;
  port <- config_item config "NEO4J" "port" ;;
  db <- config_item config "NEO4J" "db" ;;
  user <- config_item config "NEO4J" "user" ;;
  password <- config_item config "NEO4J" "password" ;;
  ret ((protocol ++ "://" ++ hostname ++ ":" ++ port ++ "/" ++ db)%string,
       user, password).

(** [v.get(key)] on a value that has to be a dictionary *)
Definition value_get {S} (v : value) (key : string) : M S value :=
  match v with
  | VDict d => ret (dict_get key d)
  | _ => raise (AttributeError "object has no attribute 'get'")
  end.

(** [Pipeline._init_project], from the attributes of the project the
    GitLab client returned: the namespace is replaced by its name, then
    the project is created. *)
Definition _init_project (project_attributes : dict) : M Graph GraphObject :=
  project_attributes <-
    (if dict_contains "namespace" project_attributes
     then
       namespace <- value_get (dict_get "namespace" project_attributes)
                      "name" ;;
       ret (dict_set "namespace" namespace project_attributes)
     else ret project_attributes) ;;
  create Project project_attributes.

End Pipeline.

(** The pipelines that copy records without resolving references. *)
Module UserPipeline.

Record self : Type := mkSelf {
  graph : Graph;
  project_model : GraphObject;
  users : option (list RESTObject);
  user_model_list : list GraphObject
}.

Definition on_graph {A} (m : M Graph A) : M self A :=
  zoom graph
    (fun g s => mkSelf g (project_model s) (users s) (user_model_list s)) m.

(** The body of the loop of [transform_data], for one user. *)
Definition transform_user (user : RESTObject) : M self unit :=
  user_model <- on_graph (create User (attributes user)) ;;
  fun s =>
    let user_model :=
      update user_model "belongs_to" (node_identity (project_model s)) in
    (Ok tt,
     mkSelf (graph s) (project_model s) (users s)
       (user_model_list s ++ [user_model])).

(** [UserPipeline.transform_data] *)
Definition transform_data : M self unit :=
  fun s =>
    match users s with
    | Some us => for_each us transform_user s
    | None => (Raise (TypeError "'NoneType' object is not iterable"), s)
    end.

End UserPipeline.

Module MilestonePipeline.

Record self : Type := mkSelf {
  graph : Graph;
  milestones : option (list RESTObject);
  milestone_model_list : list GraphObject
}.

Definition on_graph {A} (m : M Graph A) : M self A :=
  zoom graph (fun g s => mkSelf g (milestones s) (milestone_model_list s)) m.

Definition transform_milestone (milestone : RESTObject) : M self unit :=
  milestone_model <- on_graph (create Milestone (attributes milestone)) ;;
  fun s =>
    (Ok tt,
     mkSelf (graph s) (milestones s)
       (milestone_model_list s ++ [milestone_model])).

(** [MilestonePipeline.transform_data] *)
Definition transform_data : M self unit :=
  fun s =>
    match milestones s with
    | Some ms => for_each ms transform_milestone s
    | None => (Raise (TypeError "'NoneType' object is not iterable"), s)
    end.

End MilestonePipeline.

Module LabelPipeline.

Record self : Type := mkSelf {
  graph : Graph;
  labels : option (list RESTObject);
  label_model_list : list GraphObject
}.

Definition on_graph {A} (m : M Graph A) : M self A :=
  zoom graph (fun g s => mkSelf g (labels s) (label_model_list s)) m.

Definition transform_label (label : RESTObject) : M self unit :=
  label_model <- on_graph (create Label (attributes label)) ;;
  fun s =>
    (Ok tt,
     mkSelf (graph s) (labels s) (label_model_list s ++ [label_model])).

(** [LabelPipeline.transform_data] *)
Definition transform_data : M self unit :=
  fun s =>
    match labels s with
    | Some ls => for_each ls transform_label s
    | None => (Raise (TypeError "'NoneType' object is not iterable"), s)
    end.

End LabelPipeline.

(* ===================================================================== *)
(** ** Predicates the properties are stated with *)
(* ===================================================================== *)

Module Properties.

(** The node carries the label and, as its [id], the value [v]. *)
Definition keyed (lbl : string) (v : value) (n : Node) : bool :=
  node_matches (Some lbl) [PropEq "id" v] n.

(** No two nodes of a label share a primary-key value. *)
Definition unique_keys (g : Graph) : Prop :=
  forall lbl v, List.length (filter (keyed lbl v) (nodes g)) <= 1.

(** The attributes of a class that write a property of another name,
    with that name. *)
Definition aliases (c : model) : list (string * string) :=
  flat_map
    (fun ad =>
       match snd ad with
       | Property k => if String.eqb k (fst ad) then [] else [(fst ad, k)]
       | _ => []
       end)
    (declared c).

(** The nodes of the other labels are the same in [g'] as in [g]. *)
Definition untouched_except (lbl : string) (g g' : Graph) : Prop :=
  forall n, label n <> lbl -> (In n (nodes g') <-> In n (nodes g)).

(** A model of the class that is bound to a node. *)
Definition bound_to (cls : model) (o : GraphObject) : Prop :=
  class_of o = cls /\ node_identity o <> None.

(** No value of the configuration holds a [%]: the parser then returns
    the values as they are stored, which is how [config_item] reads
    them. *)
Definition plain_options (options : list (string * string)) : bool :=
  forallb (fun kv => negb (contains "%" (snd kv))) options.

Definition plain_values (config : Helpers.ConfigParser) : Prop :=
  plain_options (Helpers.defaults config) = true
  /\ forallb (fun sec => plain_options (snd sec))
       (Helpers.config_sections config) = true.

(** A key the driver sends as it is: a string, or an integer of the
    signed 64-bit range. *)
Definition storable_key (k : value) : Prop :=
  match k with
  | VStr _ => True
  | VInt z => (- 2 ^ 63 <= z < 2 ^ 63)%Z
  | _ => False
  end.

(** The primary-key value of a record, and the properties [create] stores
    for it. *)
Definition key_of (r : RESTObject) : value := dict_get "id" (attributes r).

Definition stored (cls : model) (r : RESTObject) : dict :=
  node_properties (copy_attributes (new cls) (attributes r)).

(** A record with a well-formed dictionary whose [id] is set. *)
Definition well_keyed (r : RESTObject) : Prop :=
  wf_dict (attributes r) /\ key_of r <> VNone.

(** The identity of the first node with the label and the key. *)
Definition first_identity (lbl : string) (v : value) (g : Graph)
  : option nat :=
  option_map identity (List.find (keyed lbl v) (nodes g)).

(** [SET _ = props] on the first node with the label and the key, if there
    is one. *)
Fixpoint write (lbl : string) (v : value) (props : dict) (ns : list Node)
  : list Node :=
  match ns with
  | [] => []
  | n :: ns' =>
      if keyed lbl v n
      then mkNode (identity n) (label n) props :: ns'
      else n :: write lbl v props ns'
  end.

(** The writes of the records of a class, one after the other. *)
Definition write_all (cls : model) (rs : list RESTObject) (ns : list Node)
  : list Node :=
  fold_left
    (fun ns r => write (__primarylabel__ cls) (key_of r) (stored cls r) ns)
    rs ns.

End Properties.

Module CommitProperties.

Import Properties CommitPipeline.

(** A step of the loop of [CommitPipeline.transform_data] that leaves the
    records and the list of models alone, touches Commit nodes only, and
    returns values with [P]. *)
Definition keeps {A} (m : M self A) (P : A -> Prop) : Prop :=
  forall s,
    commits (snd (m s)) = commits s
    /\ commit_model_list (snd (m s)) = commit_model_list s
    /\ untouched_except "Commit" (graph s) (graph (snd (m s)))
    /\ forall a, fst (m s) = Ok a -> P a.

(** A run that adds [n] models of commits to the list when it returns,
    and fewer when it raises. *)
Definition appends (n : nat) (m : M self unit) : Prop :=
  forall s,
    commits (snd (m s)) = commits s
    /\ untouched_except "Commit" (graph s) (graph (snd (m s)))
    /\ exists ms,
         commit_model_list (snd (m s)) = commit_model_list s ++ ms
         /\ Forall (bound_to Commit) ms
         /\ match fst (m s) with
            | Ok _ => List.length ms = n
            | Raise _ => List.length ms < n
            end.

(** The model a commit is given: a [Commit] bound to a node, with the
    properties [create] stores for the record. *)
Definition model_of (commit : RESTObject) (m : GraphObject) : Prop :=
  class_of m = Commit
  /\ node_identity m <> None
  /\ node_properties m = stored Commit commit.

(** A step that adds one model with [R] when it returns, and none when
    it raises. *)
Definition adds (R : GraphObject -> Prop) (m : M self unit) : Prop :=
  forall s,
    commits (snd (m s)) = commits s
    /\ match fst (m s) with
       | Ok _ =>
           exists x,
             commit_model_list (snd (m s)) = commit_model_list s ++ [x]
             /\ R x
       | Raise _ => commit_model_list (snd (m s)) = commit_model_list s
       end.

(** Nodes are not removed, and keep their identity and their label. *)
Definition grows (g g' : Graph) : Prop :=
  forall n, In n (nodes g) ->
    exists n', In n' (nodes g')
               /\ identity n' = identity n /\ label n' = label n.

(** The object is bound to a node of the graph. *)
Definition in_graph (g : Graph) (t : option nat) : Prop :=
  exists n, In n (nodes g) /\ t = Some (identity n).

(** The model and every object attached to it are bound to nodes of the
    graph, and its parents to nodes of commits. *)
Definition linked (g : Graph) (o : GraphObject) : Prop :=
  in_graph g (node_identity o)
  /\ forall attr t,
       In t (related_objects o attr) ->
       exists n, In n (nodes g) /\ t = Some (identity n)
                 /\ (attr = "has_parent" -> label n = "Commit").

Definition all_linked (s : self) : Prop :=
  Forall (linked (graph s)) (commit_model_list s).

(** A step that keeps the models linked and the nodes in place; started
    on a graph with [Pre], its result has [Post] in the graph it
    leaves. *)
Definition triple {A} (Pre : Graph -> Prop) (m : M self A)
  (Post : Graph -> A -> Prop) : Prop :=
  forall s,
    all_linked s -> Pre (graph s) ->
    all_linked (snd (m s))
    /\ grows (graph s) (graph (snd (m s)))
    /\ forall a, fst (m s) = Ok a -> Post (graph (snd (m s))) a.

End CommitProperties.

Module IssueProperties.

(** Two models of one node. *)
Definition same_node (a b : GraphObject) : Prop :=
  class_of a = class_of b
  /\ node_identity a = node_identity b
  /\ node_properties a = node_properties b.

(** What is attached to [a] is attached to [b]. *)
Definition extends (a b : GraphObject) : Prop :=
  forall attr t,
    In t (related_objects a attr) -> In t (related_objects b attr).

(** What looking up the user with the key [id] gives: the node of a user
    with that key, or nothing when the graph holds no such user. *)
Definition resolves (g : Graph) (id : value) (t : option nat) : Prop :=
  match t with
  | Some i =>
      exists n, In n (nodes g) /\ identity n = i /\ label n = "User"
                /\ (id <> VNone -> property_get "id" (properties n) = id)
  | None =>
      forall n, In n (nodes g) -> label n = "User" ->
        id <> VNone /\ property_get "id" (properties n) <> id
  end.

(** The entry of the record names a user by its [id], and what the lookup
    of that user gives is attached to the model under [attr]. *)
Definition attached (g : Graph) (entry : value) (m : GraphObject)
  (attr : string) : Prop :=
  exists d id t,
    entry = VDict d /\ dict_lookup "id" d = Some id
    /\ resolves g id t /\ In t (related_objects m attr).

(** The entry names a user: a dict with an [id]. *)
Definition names_user (entry : value) : Prop :=
  exists d id, entry = VDict d /\ dict_lookup "id" d = Some id.

(** A record in which every user is named: the author, the assignee and
    the closer, where there is one, and a list of assignees. *)
Definition users_named (issue : RESTObject) : Prop :=
  (forall key,
     In key ["author"; "assignee"; "closed_by"] ->
     truthy (dict_get key (attributes issue)) = true ->
     names_user (dict_get key (attributes issue)))
  /\ exists l,
       dict_get "assignees" (attributes issue) = VList l
       /\ Forall names_user l.

(** A computation that returns on every graph. *)
Definition returns {A} (m : M Graph A) : Prop :=
  forall g, exists a, fst (m g) = Ok a.

(** A computation that, on a graph with the nodes of [g0], writes no
    node, and returns values with [P]. *)
Definition reads {A} (g0 : Graph) (m : M Graph A) (P : A -> Prop) : Prop :=
  forall g,
    nodes g = nodes g0 ->
    nodes (snd (m g)) = nodes g0
    /\ next_identity (snd (m g)) = next_identity g
    /\ forall a, fst (m g) = Ok a -> P a.

End IssueProperties.

Module OrchestrationProperties.

Import Helpers.

Section Raised.

Variable World : Type.
Variable perform : ConfigParser -> string -> method -> M World unit.

(** The exception [e] came out of a method of a pipeline built from
    [cfg]: the call of the method is the last event of the trace, and the
    world is as the method left it. *)
Definition raised_by (cfg : ConfigParser) (e : exn) (s' : state World)
  : Prop :=
  exists tr pipe m w,
    trace s' = tr ++ [Call pipe m]
    /\ perform cfg pipe m w = (Raise e, world s').

(** A computation that raises nothing of its own. *)
Definition transparent {A} (cfg : ConfigParser) (m : M (state World) A)
  : Prop :=
  forall s,
    match m s with
    | (Ok _, _) => True
    | (Raise e, s') => raised_by cfg e s'
    end.

(** The orchestration in words: the methods of the list are called one
    after the other on GitLab and the graph, and the first that raises
    ends the run. *)
Definition run_calls (cfg : ConfigParser) (l : list (string * method))
  : M World unit :=
  for_each l (fun c => perform cfg (fst c) (snd c)).

(** The calls of the list that are made then: those up to the first that
    raises, that one included. *)
Fixpoint calls_made (cfg : ConfigParser) (l : list (string * method))
  (w : World) : list (string * method) :=
  match l with
  | [] => []
  | c :: l' =>
      c :: match perform cfg (fst c) (snd c) w with
           | (Ok _, w') => calls_made cfg l' w'
           | (Raise _, _) => []
           end
  end.

Definition same_outcome {A B} (r : result A) (r' : result B) : Prop :=
  match r, r' with
  | Ok _, Ok _ => True
  | Raise e, Raise e' => e = e'
  | _, _ => False
  end.

(** A computation that does to the world what the calls of [l] do, ends
    as they end, and records the calls that were made. *)
Definition performs {A} (cfg : ConfigParser) (m : M (state World) A)
  (l : list (string * method)) : Prop :=
  forall s,
    same_outcome (fst (m s)) (fst (run_calls cfg l (world s)))
    /\ world (snd (m s)) = snd (run_calls cfg l (world s))
    /\ calls (trace (snd (m s)))
       = calls (trace s) ++ calls_made cfg l (world s).

End Raised.

End OrchestrationProperties.

Module Samples.

(** The users of a project, of whom the graph holds the first already. *)
Definition martin_and_jane : list RESTObject :=
  [mkREST [("id", VInt 5); ("name", VStr "Martin"); ("username", VStr "mst")];
   mkREST [("id", VInt 6); ("name", VStr "Jane Roe");
           ("username", VStr "jroe")]].

(** The pipeline of users before its transformation. *)
Definition two_users : UserPipeline.self :=
  UserPipeline.mkSelf small_graph
    (mkObject Project (Some 0)
       [("id", VInt 1); ("name", VStr "Gitlab2Graph")] [])
    (Some martin_and_jane) [].

(** Two records under one key. *)
Definition bug_and_defect : list RESTObject :=
  [mkREST [("id", VInt 3); ("name", VStr "bug")];
   mkREST [("id", VInt 3); ("name", VStr "defect")]].

Definition two_labels : LabelPipeline.self :=
  LabelPipeline.mkSelf small_graph (Some bug_and_defect) [].

Definition first_release : list RESTObject :=
  [mkREST [("id", VInt 8); ("iid", VInt 1); ("title", VStr "v1.0")]].

Definition one_milestone : MilestonePipeline.self :=
  MilestonePipeline.mkSelf small_graph (Some first_release) [].

End Samples.

Import Samples.

Import Properties.

(* ===================================================================== *)
(** ** Facts about values and dictionaries *)
(* ===================================================================== *)

Module PyFacts.

Lemma value_eqb_refl (v : value) : value_eqb v v = true.
Proof.
  revert v.
  fix IH 1.
  intros [ | b | z | s | l | d]; simpl.
  - reflexivity.
  - apply Bool.eqb_reflx.
  - apply Z.eqb_refl.
  - apply String.eqb_refl.
  - induction l as [ | x l IHl].
    + reflexivity.
    + rewrite (IH x). exact IHl.
  - induction d as [ | [k x] d IHd].
    + reflexivity.
    + rewrite String.eqb_refl, (IH x). exact IHd.
Qed.

Lemma value_eqb_eq (a b : value) : value_eqb a b = true -> a = b.
Proof.
  revert a b.
  fix IH 1.
  intros [ | x | x | x | l | d] [ | y | y | y | l' | d']; simpl;
    try discriminate; intros H.
  - reflexivity.
  - f_equal. now apply Bool.eqb_prop.
  - f_equal. now apply Z.eqb_eq.
  - f_equal. now apply String.eqb_eq.
  - f_equal. revert l' H.
    induction l as [ | x l IHl]; intros [ | y l'] H; try discriminate.
    + reflexivity.
    + apply Bool.andb_true_iff in H. destruct H as [Hx Hl].
      f_equal; [now apply IH | now apply IHl].
  - f_equal. revert d' H.
    induction d as [ | [k x] d IHd]; intros [ | [k' y] d'] H;
      try discriminate.
    + reflexivity.
    + apply Bool.andb_true_iff in H. destruct H as [H Hd].
      apply Bool.andb_true_iff in H. destruct H as [Hk Hx].
      apply String.eqb_eq in Hk. subst k'.
      f_equal; [f_equal; now apply IH | now apply IHd].
Qed.

Lemma dict_contains_lookup (k : string) (d : dict) :
  dict_contains k d = match dict_lookup k d with Some _ => true | None => false end.
Proof.
  induction d as [ | [k' v] d IH]; simpl.
  - reflexivity.
  - destruct (String.eqb k k'); simpl; auto.
Qed.

Lemma dict_lookup_absent (k : string) (d : dict) :
  ~ In k (keys d) -> dict_lookup k d = None.
Proof.
  induction d as [ | [k' v] d IH]; simpl; intros H.
  - reflexivity.
  - destruct (String.eqb_spec k k') as [-> | Hne].
    + exfalso. apply H. now left.
    + apply IH. intros Hin. apply H. now right.
Qed.

Lemma dict_lookup_present (k : string) (d : dict) (v : value) :
  dict_lookup k d = Some v -> In k (keys d).
Proof.
  induction d as [ | [k' v'] d IH]; simpl; intros H.
  - discriminate.
  - destruct (String.eqb_spec k k') as [-> | Hne].
    + now left.
    + right. now apply IH.
Qed.

Lemma dict_lookup_set_same (k : string) (v : value) (d : dict) :
  dict_lookup k (dict_set k v d) = Some v.
Proof.
  induction d as [ | [k' v'] d IH]; simpl.
  - now rewrite String.eqb_refl.
  - destruct (String.eqb k k') eqn:E; simpl; rewrite E; auto.
Qed.

Lemma dict_lookup_set_other (k k0 : string) (v : value) (d : dict) :
  k <> k0 -> dict_lookup k (dict_set k0 v d) = dict_lookup k d.
Proof.
  intros Hne.
  induction d as [ | [k' v'] d IH]; simpl.
  - destruct (String.eqb_spec k k0); [contradiction | reflexivity].
  - destruct (String.eqb_spec k0 k') as [-> | Hne']; simpl.
    + destruct (String.eqb_spec k k'); [contradiction | reflexivity].
    + destruct (String.eqb k k'); auto.
Qed.

Lemma dict_lookup_del_same (k : string) (d : dict) :
  dict_lookup k (dict_del k d) = None.
Proof.
  induction d as [ | [k' v'] d IH]; simpl.
  - reflexivity.
  - destruct (String.eqb k k') eqn:E; simpl; [ | rewrite E]; auto.
Qed.

Lemma dict_lookup_del_other (k k0 : string) (d : dict) :
  k <> k0 -> dict_lookup k (dict_del k0 d) = dict_lookup k d.
Proof.
  intros Hne.
  induction d as [ | [k' v'] d IH]; simpl.
  - reflexivity.
  - destruct (String.eqb_spec k0 k') as [-> | Hne']; simpl.
    + destruct (String.eqb_spec k k'); [contradiction | exact IH].
    + destruct (String.eqb k k'); auto.
Qed.

Lemma keys_dict_set (k : string) (v : value) (d : dict) :
  keys (dict_set k v d) = if dict_contains k d then keys d else keys d ++ [k].
Proof.
  induction d as [ | [k' v'] d IH]; simpl.
  - reflexivity.
  - destruct (String.eqb k k') eqn:E; simpl.
    + reflexivity.
    + rewrite IH. now destruct (dict_contains k d).
Qed.

Lemma wf_dict_set (k : string) (v : value) (d : dict) :
  wf_dict d -> wf_dict (dict_set k v d).
Proof.
  unfold wf_dict. intros Hwf. rewrite keys_dict_set.
  destruct (dict_contains k d) eqn:E; [assumption | ].
  rewrite dict_contains_lookup in E.
  destruct (dict_lookup k d) eqn:El; [discriminate | ].
  replace (keys d ++ [k]) with (rev (k :: rev (keys d)))
    by (simpl; now rewrite rev_involutive).
  apply NoDup_rev. constructor; [ | now apply NoDup_rev].
  rewrite <- in_rev. intros Hin.
  clear - Hin El. induction d as [ | [k' v'] d IH]; simpl in *.
  - contradiction.
  - destruct (String.eqb_spec k k') as [-> | Hne]; [discriminate | ].
    destruct Hin as [-> | Hin]; [contradiction | auto].
Qed.

(** [{**a, **b}] reads [b] first, then [a]. *)
Lemma dict_lookup_merge (k : string) (b a : dict) :
  wf_dict b ->
  dict_lookup k (dict_merge a b) =
  match dict_lookup k b with
  | Some v => Some v
  | None => dict_lookup k a
  end.
Proof.
  unfold dict_merge, wf_dict. revert a.
  induction b as [ | [k' v'] b IH]; simpl; intros a Hwf.
  - reflexivity.
  - inversion Hwf as [ | ? ? Hnotin Hwf']; subst.
    rewrite IH by assumption.
    destruct (String.eqb_spec k k') as [-> | Hne].
    + rewrite (dict_lookup_absent _ _ Hnotin). apply dict_lookup_set_same.
    + now rewrite dict_lookup_set_other.
Qed.

Lemma wf_dict_merge (a b : dict) : wf_dict a -> wf_dict (dict_merge a b).
Proof.
  unfold dict_merge. revert a.
  induction b as [ | [k v] b IH]; simpl; intros a Hwf.
  - assumption.
  - apply IH. now apply wf_dict_set.
Qed.

End PyFacts.

(* ===================================================================== *)
(** ** The graph repository: [create], [get], [get_or_create] *)
(* ===================================================================== *)

Module ModelsFacts.

Import PyFacts.

#[local] Arguments __primarykey__ : simpl never.

Lemma property_get_set_same (key : string) (v : value) (props : dict) :
  property_get key (property_set key v props) = v.
Proof.
  unfold property_get, property_set, dict_get.
  destruct v; rewrite ?dict_lookup_del_same, ?dict_lookup_set_same;
    reflexivity.
Qed.

Lemma property_get_set_other (key k0 : string) (v : value) (props : dict) :
  key <> k0 ->
  property_get key (property_set k0 v props) = property_get key props.
Proof.
  intros Hne. unfold property_get, property_set, dict_get.
  destruct v;
    rewrite ?(dict_lookup_del_other _ Hne), ?(dict_lookup_set_other _ _ Hne);
    reflexivity.
Qed.

Lemma cypher_eq_refl (v : value) : v <> VNone -> cypher_eq v v = true.
Proof.
  intros Hv. destruct v; try contradiction; unfold cypher_eq;
    apply value_eqb_refl.
Qed.

Lemma find_app {A} (p : A -> bool) (l1 l2 : list A) :
  List.find p (l1 ++ l2) =
  match List.find p l1 with Some a => Some a | None => List.find p l2 end.
Proof.
  induction l1 as [ | a l1 IH]; simpl.
  - reflexivity.
  - destruct (p a); auto.
Qed.

Lemma descriptor_of_In (attr : string) (d : descriptor)
  (ds : list (string * descriptor)) :
  descriptor_of attr ds = Some d -> In (attr, d) ds.
Proof.
  induction ds as [ | [a d'] ds IH]; simpl; intros H.
  - discriminate.
  - destruct (String.eqb_spec attr a) as [-> | Hne].
    + inversion H. now left.
    + right. now apply IH.
Qed.

(** Every class declares its primary key as a property of the same name. *)
Lemma primarykey_declared (c : model) :
  descriptor_of (__primarykey__ c) (declared c)
  = Some (Property (__primarykey__ c)).
Proof. destruct c; reflexivity. Qed.

Lemma unaliased_only (c : model) (attr key : string) :
  unaliased c key = true ->
  descriptor_of attr (declared c) = Some (Property key) -> attr = key.
Proof.
  unfold unaliased. intros Hall Hd.
  apply descriptor_of_In in Hd.
  rewrite forallb_forall in Hall. specialize (Hall _ Hd). simpl in Hall.
  apply Bool.orb_true_iff in Hall. destruct Hall as [H | H].
  - now rewrite String.eqb_refl in H.
  - now apply String.eqb_eq in H.
Qed.

(** No other attribute of a class writes the primary-key property. *)
Lemma primarykey_unaliased (c : model) : unaliased c (__primarykey__ c) = true.
Proof. destruct c; vm_compute; reflexivity. Qed.

Lemma primarykey_only (c : model) (attr key : string) :
  descriptor_of attr (declared c) = Some (Property key) ->
  attr <> __primarykey__ c -> key <> __primarykey__ c.
Proof.
  intros Hd Hattr Hkey. subst key. apply Hattr.
  now apply unaliased_only with (c := c); [apply primarykey_unaliased | ].
Qed.

(** The relationship attributes the pipelines write, and the edges they
    stand for. *)
Lemma relationship_types :
  relationship_type MergeRequest "is_related" = Some "IS_RELATED"
  /\ relationship_type Issue "is_merge_annotated" = Some "IS_RELATED"
  /\ relationship_type Commit "is_author" = Some "IS_AUTHOR"
  /\ relationship_type Commit "is_committer" = Some "IS_COMMITTER"
  /\ relationship_type Commit "has_parent" = Some "HAS_PARENT"
  /\ relationship_type Issue "created_by" = Some "CREATED_BY".
Proof. repeat split; vm_compute; reflexivity. Qed.

Lemma class_of_setattr (o : GraphObject) (attr : string) (v : value) :
  class_of (setattr o attr v) = class_of o.
Proof.
  unfold setattr.
  destruct (descriptor_of attr (declared (class_of o))) as [[ | | ] | ];
    reflexivity.
Qed.

Lemma class_of_copy_attributes (attributes : dict) (o : GraphObject) :
  class_of (copy_attributes o attributes) = class_of o.
Proof.
  revert o. induction attributes as [ | [a v] rest IH]; simpl; intros o.
  - reflexivity.
  - destruct (hasattr o a && negb (is_related_objects o a)).
    + rewrite IH. apply class_of_setattr.
    + apply IH.
Qed.

Lemma identity_copy_attributes (attributes : dict) (o : GraphObject) :
  node_identity (copy_attributes o attributes) = node_identity o.
Proof.
  revert o. induction attributes as [ | [a v] rest IH]; simpl; intros o.
  - reflexivity.
  - destruct (hasattr o a && negb (is_related_objects o a)).
    + rewrite IH. unfold setattr.
      destruct (descriptor_of a (declared (class_of o))) as [[ | | ] | ];
        reflexivity.
    + apply IH.
Qed.

Lemma related_copy_attributes (attributes : dict) (o : GraphObject) :
  related (copy_attributes o attributes) = related o.
Proof.
  revert o. induction attributes as [ | [a v] rest IH]; simpl; intros o.
  - reflexivity.
  - destruct (hasattr o a && negb (is_related_objects o a)).
    + rewrite IH. unfold setattr.
      destruct (descriptor_of a (declared (class_of o))) as [[ | | ] | ];
        reflexivity.
    + apply IH.
Qed.

(** One step of the loop leaves the primary-key property alone unless the
    entry is the primary key itself. *)
Lemma setattr_keeps_primarykey (o : GraphObject) (attr : string) (v : value) :
  attr <> __primarykey__ (class_of o) ->
  property_get (__primarykey__ (class_of o))
    (node_properties (setattr o attr v))
  = property_get (__primarykey__ (class_of o)) (node_properties o).
Proof.
  intros Hne. unfold setattr.
  destruct (descriptor_of attr (declared (class_of o))) as [[key | | ] | ] eqn:E;
    try reflexivity.
  simpl. apply property_get_set_other.
  intros Heq. symmetry in Heq. revert Heq.
  now apply primarykey_only with (attr := attr).
Qed.

Lemma copy_attributes_keeps_primarykey (attributes : dict) (o : GraphObject) :
  ~ In (__primarykey__ (class_of o)) (keys attributes) ->
  property_get (__primarykey__ (class_of o))
    (node_properties (copy_attributes o attributes))
  = property_get (__primarykey__ (class_of o)) (node_properties o).
Proof.
  revert o. induction attributes as [ | [a v] rest IH]; simpl; intros o Hnotin.
  - reflexivity.
  - assert (Ha : a <> __primarykey__ (class_of o)) by (intros ->; auto).
    assert (Hrest : ~ In (__primarykey__ (class_of o)) (keys rest)) by auto.
    destruct (hasattr o a && negb (is_related_objects o a)).
    + pose proof (class_of_setattr o a v) as Hc.
      pose proof (IH (setattr o a v)) as IH'. rewrite Hc in IH'.
      rewrite IH' by assumption. now apply setattr_keeps_primarykey.
    + now apply IH.
Qed.

(** After the loop the primary-key property holds the value the dictionary
    gives it. *)
Lemma copy_attributes_primarykey (attributes : dict) (o : GraphObject)
  (v : value) :
  wf_dict attributes ->
  dict_lookup (__primarykey__ (class_of o)) attributes = Some v ->
  property_get (__primarykey__ (class_of o))
    (node_properties (copy_attributes o attributes)) = v.
Proof.
  unfold wf_dict.
  revert o.
  induction attributes as [ | [a x] rest IH];
    cbn [copy_attributes dict_lookup]; intros o Hwf Hlook.
  - discriminate.
  - change (keys ((a, x) :: rest)) with (a :: keys rest) in Hwf.
    apply NoDup_cons_iff in Hwf. destruct Hwf as [Hnotin Hwf'].
    revert Hlook.
    destruct (String.eqb_spec (__primarykey__ (class_of o)) a) as [Heq | Hne];
      intros Hlook.
    + inversion Hlook; subst x. subst a.
      unfold hasattr, is_related_objects.
      rewrite primarykey_declared. simpl.
      pose proof (class_of_setattr o (__primarykey__ (class_of o)) v) as Hc.
      pose proof (copy_attributes_keeps_primarykey rest
                    (setattr o (__primarykey__ (class_of o)) v)) as Hk.
      rewrite Hc in Hk. rewrite Hk by assumption.
      unfold setattr. rewrite primarykey_declared. simpl.
      apply property_get_set_same.
    + destruct (hasattr o a && negb (is_related_objects o a)).
      * pose proof (class_of_setattr o a x) as Hc.
        pose proof (IH (setattr o a x)) as IH'. rewrite Hc in IH'.
        now apply IH'.
      * now apply IH.
Qed.

Lemma getattr_primarykey (o : GraphObject) :
  getattr o (__primarykey__ (class_of o))
  = property_get (__primarykey__ (class_of o)) (node_properties o).
Proof. unfold getattr. now rewrite primarykey_declared. Qed.

(** [graph.create] binds the object and keeps its class and properties. *)
Lemma graph_create_spec (o : GraphObject) (g : Graph) :
  exists i g',
    graph_create o g
    = (Ok (mkObject (class_of o) (Some i) (node_properties o) (related o)), g').
Proof.
  unfold graph_create. destruct o as [c [i | ] props rel]; simpl.
  - exists i, g. reflexivity.
  - unfold bind, merge. simpl.
    destruct (set_first _ _ (nodes g)) as [[i ns] | ];
      eexists; eexists; reflexivity.
Qed.

End ModelsFacts.

Module Repository.

Import PyFacts ModelsFacts.

#[local] Arguments __primarykey__ : simpl never.
#[local] Arguments __primarylabel__ : simpl never.

Lemma cypher_eq_eq (a b : value) : cypher_eq a b = true -> a = b /\ b <> VNone.
Proof.
  unfold cypher_eq. intros H.
  destruct a; try discriminate; destruct b; try discriminate;
    (split; [now apply value_eqb_eq | discriminate]).
Qed.

Lemma set_first_none (p : Node -> bool) (props : dict) (ns : list Node) :
  List.find p ns = None -> set_first p props ns = None.
Proof.
  induction ns as [ | n ns IH]; simpl; intros H.
  - reflexivity.
  - destruct (p n); [discriminate | ]. now rewrite IH.
Qed.

Lemma set_first_some (p : Node -> bool) (props : dict) (ns ns' : list Node)
  (i : nat) :
  set_first p props ns = Some (i, ns') ->
  exists n, In n ns /\ p n = true /\ identity n = i
            /\ In (mkNode i (label n) props) ns'.
Proof.
  revert ns'. induction ns as [ | n ns IH]; simpl; intros ns' H.
  - discriminate.
  - destruct (p n) eqn:E.
    + inversion H; subst. exists n. simpl. auto.
    + destruct (set_first p props ns) as [[j l] | ]; [ | discriminate].
      inversion H; subst.
      destruct (IH l eq_refl) as (m & Hin & Hp & Hid & Hin').
      exists m. simpl. auto.
Qed.

Lemma node_matches_label (l : string) (conds : list condition) (n : Node) :
  node_matches (Some l) conds n = true -> label n = l.
Proof.
  unfold node_matches. intros H.
  apply Bool.andb_true_iff in H. destruct H as [H _].
  now apply String.eqb_eq.
Qed.

Lemma node_matches_eq (labels : option string) (key : string) (v : value)
  (n : Node) :
  node_matches labels [PropEq key v] n = true ->
  property_get key (properties n) = v.
Proof.
  unfold node_matches. intros H.
  apply Bool.andb_true_iff in H. destruct H as [_ H]. simpl in H.
  rewrite Bool.andb_true_r in H. now apply cypher_eq_eq in H.
Qed.

(** What [create] does once the primary key is there: the object comes
    back bound to a node of the graph that carries its properties. *)
Lemma create_present (cls : model) (attributes : dict) (v : value)
  (g : Graph) :
  wf_dict attributes ->
  dict_lookup (__primarykey__ cls) attributes = Some v ->
  let props := node_properties (copy_attributes (new cls) attributes) in
  exists i g',
    create cls attributes g = (Ok (mkObject cls (Some i) props []), g')
    /\ property_get (__primarykey__ cls) props = v
    /\ exists n, In n (nodes g') /\ identity n = i
                 /\ label n = __primarylabel__ cls /\ properties n = props.
Proof.
  intros Hwf Hlook props. unfold create.
  rewrite dict_contains_lookup, Hlook. cbn [negb].
  pose proof (class_of_copy_attributes attributes (new cls)) as Hc.
  pose proof (identity_copy_attributes attributes (new cls)) as Hi.
  pose proof (related_copy_attributes attributes (new cls)) as Hr.
  pose proof (copy_attributes_primarykey (new cls) Hwf Hlook) as Hpk.
  subst props.
  destruct (copy_attributes (new cls) attributes) as [c oi props rel].
  cbn in Hc, Hi, Hr, Hpk. subst c oi rel.
  unfold graph_create, bind, merge, ret.
  cbn [node_identity class_of node_properties related nodes].
  destruct (set_first _ props (nodes g)) as [[i ns] | ] eqn:E.
  - exists i. eexists. split; [reflexivity | ]. split; [assumption | ].
    apply set_first_some in E. destruct E as (n & _ & Hm & Hid & Hin).
    exists (mkNode i (label n) props). cbn.
    repeat split; try assumption. now apply node_matches_label in Hm.
  - exists (next_identity g). eexists. split; [reflexivity | ].
    split; [assumption | ].
    exists (mkNode (next_identity g) (__primarylabel__ cls) props). cbn.
    repeat split. apply in_or_app. right. now left.
Qed.

(** C2. [create] on a dictionary without the primary key raises
    [NeoGraphObjectException] and leaves the graph as it was; on a
    dictionary that has it, [create] returns an object whose primary-key
    property is the value of the dictionary, bound to a node of the graph
    that carries this value. *)
Theorem create_checks_primarykey (cls : model) (attributes : dict)
  (g : Graph) :
  wf_dict attributes ->
  match dict_lookup (__primarykey__ cls) attributes with
  | None =>
      create cls attributes g
      = (Raise (NeoGraphObjectException "Primary 'id' not in attributes"), g)
  | Some v =>
      exists obj g',
        create cls attributes g = (Ok obj, g')
        /\ class_of obj = cls
        /\ getattr obj (__primarykey__ cls) = v
        /\ exists n, In n (nodes g')
                     /\ node_identity obj = Some (identity n)
                     /\ label n = __primarylabel__ cls
                     /\ property_get (__primarykey__ cls) (properties n) = v
  end.
Proof.
  intros Hwf.
  destruct (dict_lookup (__primarykey__ cls) attributes) as [v | ] eqn:Hlook.
  - destruct (create_present cls g Hwf Hlook)
      as (i & g' & Hrun & Hpk & n & Hin & Hid & Hlbl & Hprops).
    eexists. exists g'. split; [exact Hrun | ]. split; [reflexivity | ].
    split.
    + rewrite <- Hpk. apply (getattr_primarykey (mkObject cls (Some i) _ [])).
    + exists n. cbn [node_identity]. rewrite Hid, Hprops. auto.
  - unfold create. rewrite dict_contains_lookup, Hlook. reflexivity.
Qed.

Lemma create_checks_primarykey_witness :
  wf_dict [("id", VStr "6104942438c1"); ("title", VStr "Fix typo")]
  /\ exists obj g',
       create Commit [("id", VStr "6104942438c1"); ("title", VStr "Fix typo")]
         empty_graph = (Ok obj, g')
       /\ class_of obj = Commit
       /\ getattr obj "id" = VStr "6104942438c1"
       /\ exists n, In n (nodes g')
                    /\ node_identity obj = Some (identity n)
                    /\ label n = "Commit"
                    /\ property_get "id" (properties n) = VStr "6104942438c1".
Proof.
  assert (Hwf : wf_dict [("id", VStr "6104942438c1"); ("title", VStr "Fix typo")]).
  { unfold wf_dict. simpl. repeat constructor; simpl; intuition discriminate. }
  split; [exact Hwf | ].
  exact (create_checks_primarykey Commit empty_graph Hwf).
Defined.

(** C9. When the lookup of [get_or_create] finds no node and the
    attributes carry an entry for the primary key, the entry wins over the
    [pk] argument: the node is created with the value of the entry. *)
Theorem get_or_create_attributes_override (cls : model) (pk v : value)
  (attributes : dict) (g : Graph) :
  pk <> VNone ->
  wf_dict attributes ->
  fst (get cls [(__primarykey__ cls, pk)] g) = Ok None ->
  dict_lookup (__primarykey__ cls) attributes = Some v ->
  exists obj g',
    get_or_create cls pk (Some attributes) g = (Ok obj, g')
    /\ getattr obj (__primarykey__ cls) = v
    /\ exists n, In n (nodes g')
                 /\ node_identity obj = Some (identity n)
                 /\ label n = __primarylabel__ cls
                 /\ property_get (__primarykey__ cls) (properties n) = v.
Proof.
  intros Hpk Hwf Hget Hlook.
  assert (Hrun : get_or_create cls pk (Some attributes) g
                 = create cls (dict_merge [(__primarykey__ cls, pk)] attributes)
                     (snd (get cls [(__primarykey__ cls, pk)] g))).
  { unfold get_or_create.
    destruct pk; try contradiction; unfold bind;
      destruct (get cls _ g) as [r g1]; cbn in Hget; subst r; reflexivity. }
  rewrite Hrun.
  set (merged := dict_merge [(__primarykey__ cls, pk)] attributes).
  assert (Hwf' : wf_dict merged).
  { apply wf_dict_merge. unfold wf_dict. simpl.
    constructor; [intros [] | constructor]. }
  assert (Hlook' : dict_lookup (__primarykey__ cls) merged = Some v).
  { unfold merged. rewrite dict_lookup_merge by assumption. now rewrite Hlook. }
  destruct (create_present cls (snd (get cls [(__primarykey__ cls, pk)] g))
              Hwf' Hlook')
    as (i & g' & Hrun' & Hv & n & Hin & Hid & Hlbl & Hprops).
  eexists. exists g'. split; [exact Hrun' | ]. split.
  - rewrite <- Hv. apply (getattr_primarykey (mkObject cls (Some i) _ [])).
  - exists n. cbn [node_identity]. rewrite Hid, Hprops. auto.
Qed.

Lemma get_or_create_attributes_override_witness :
  exists obj g',
    get_or_create Note (VInt 1) (Some [("id", VInt 2); ("body", VStr "LGTM")])
      empty_graph = (Ok obj, g')
    /\ getattr obj "id" = VInt 2
    /\ exists n, In n (nodes g')
                 /\ node_identity obj = Some (identity n)
                 /\ label n = "Note"
                 /\ property_get "id" (properties n) = VInt 2.
Proof.
  apply (@get_or_create_attributes_override Note (VInt 1) (VInt 2)
           [("id", VInt 2); ("body", VStr "LGTM")] empty_graph).
  - discriminate.
  - unfold wf_dict. simpl. repeat constructor; simpl; intuition discriminate.
  - reflexivity.
  - reflexivity.
Defined.

Lemma get_run (cls : model) (filters : dict) (g : Graph) :
  get cls filters g
  = (Ok (option_map (wrap cls)
           (List.find
              (node_matches (Some (__primarylabel__ cls))
                 (map (fun kv => PropEq (fst kv) (snd kv)) filters))
              (nodes g))),
     mkGraph (nodes g) (next_identity g)
       (journal g
        ++ [OpMatch (Some (__primarylabel__ cls))
              (map (fun kv => PropEq (fst kv) (snd kv)) filters)])).
Proof. reflexivity. Qed.

(** C1. With a primary-key value [k], a second [get_or_create] on the
    graph the first one left returns the same object, bound to the same
    node; it asks the database for one match and writes nothing: the nodes
    of the graph are those the first call left. *)
Theorem get_or_create_idempotent (cls : model) (k : value) (g : Graph) :
  k <> VNone ->
  exists obj g1 g2,
    get_or_create cls k None g = (Ok obj, g1)
    /\ get_or_create cls k None g1 = (Ok obj, g2)
    /\ (exists n, In n (nodes g1)
                  /\ node_identity obj = Some (identity n)
                  /\ label n = __primarylabel__ cls
                  /\ property_get (__primarykey__ cls) (properties n) = k)
    /\ nodes g2 = nodes g1
    /\ next_identity g2 = next_identity g1
    /\ journal g2
       = journal g1
         ++ [OpMatch (Some (__primarylabel__ cls))
               [PropEq (__primarykey__ cls) k]].
Proof.
  intros Hk.
  set (p := node_matches (Some (__primarylabel__ cls))
              [PropEq (__primarykey__ cls) k]).
  assert (Hunfold : forall g0,
    get_or_create cls k None g0
    = match List.find p (nodes g0) with
      | Some n =>
          (Ok (wrap cls n),
           mkGraph (nodes g0) (next_identity g0)
             (journal g0
              ++ [OpMatch (Some (__primarylabel__ cls))
                    [PropEq (__primarykey__ cls) k]]))
      | None =>
          create cls [(__primarykey__ cls, k)]
            (mkGraph (nodes g0) (next_identity g0)
               (journal g0
                ++ [OpMatch (Some (__primarylabel__ cls))
                      [PropEq (__primarykey__ cls) k]]))
      end).
  { intros g0. unfold get_or_create.
    destruct k; try contradiction; unfold bind; rewrite get_run;
      cbn [map fst snd]; fold p;
      destruct (List.find p (nodes g0)); reflexivity. }
  destruct (List.find p (nodes g)) as [n | ] eqn:Hfind.
  - (* the node is there: both calls are the same lookup *)
    eexists. eexists. eexists.
    split; [rewrite Hunfold, Hfind; reflexivity | ].
    split; [rewrite Hunfold; cbn [nodes]; rewrite Hfind; reflexivity | ].
    cbn [nodes next_identity journal].
    split; [ | auto].
    apply find_some in Hfind. destruct Hfind as [Hin Hp].
    exists n. repeat split; try assumption.
    + now apply node_matches_label in Hp.
    + now apply node_matches_eq in Hp.
  - (* the first call creates the node, the second one finds it *)
    set (g0 := mkGraph (nodes g) (next_identity g)
                 (journal g
                  ++ [OpMatch (Some (__primarylabel__ cls))
                        [PropEq (__primarykey__ cls) k]])).
    set (props := property_set (__primarykey__ cls) k []).
    assert (Hprops : property_get (__primarykey__ cls) props = k)
      by apply property_get_set_same.
    assert (Hcopy : copy_attributes (new cls) [(__primarykey__ cls, k)]
                    = mkObject cls None props []).
    { cbn [copy_attributes]. unfold hasattr, is_related_objects, setattr.
      cbn [class_of new]. rewrite primarykey_declared. reflexivity. }
    set (n := mkNode (next_identity g) (__primarylabel__ cls) props).
    assert (Hcreate :
      create cls [(__primarykey__ cls, k)] g0
      = (Ok (wrap cls n),
         mkGraph (nodes g ++ [n]) (S (next_identity g))
           (journal g0
            ++ [OpMerge (__primarylabel__ cls) (__primarykey__ cls) props]))).
    { unfold create. cbn [dict_contains]. rewrite String.eqb_refl.
      cbn [orb negb]. rewrite Hcopy.
      unfold graph_create, bind, merge, ret.
      cbn [node_identity class_of node_properties related nodes g0
           next_identity journal].
      rewrite Hprops. fold p. rewrite (set_first_none _ _ _ Hfind).
      reflexivity. }
    assert (Hp : p n = true).
    { unfold p, node_matches. cbn [label n properties forallb holds].
      rewrite String.eqb_refl, Hprops, (cypher_eq_refl Hk). reflexivity. }
    eexists. eexists. eexists.
    split; [rewrite Hunfold, Hfind; exact Hcreate | ].
    split.
    { rewrite Hunfold. cbn [nodes]. rewrite find_app, Hfind.
      cbn [List.find]. rewrite Hp. reflexivity. }
    cbn [nodes next_identity journal].
    split; [ | auto].
    exists n. repeat split; try assumption.
    apply in_or_app. right. now left.
Qed.

Lemma get_or_create_idempotent_witness :
  exists obj g1 g2,
    get_or_create User (VInt 7) None empty_graph = (Ok obj, g1)
    /\ get_or_create User (VInt 7) None g1 = (Ok obj, g2)
    /\ (exists n, In n (nodes g1)
                  /\ node_identity obj = Some (identity n)
                  /\ label n = "User"
                  /\ property_get "id" (properties n) = VInt 7)
    /\ nodes g2 = nodes g1
    /\ next_identity g2 = next_identity g1
    /\ journal g2 = journal g1 ++ [OpMatch (Some "User") [PropEq "id" (VInt 7)]].
Proof.
  apply (@get_or_create_idempotent User (VInt 7) empty_graph).
  discriminate.
Defined.

Lemma plain_key (c : model) (attr key : string) :
  plain c = true ->
  descriptor_of attr (declared c) = Some (Property key) -> key = attr.
Proof.
  unfold plain. intros Hplain Hd.
  apply descriptor_of_In in Hd.
  rewrite forallb_forall in Hplain. specialize (Hplain _ Hd).
  now apply String.eqb_eq in Hplain.
Qed.

Lemma plain_classes (c : model) :
  plain c = match c with
            | Issue | MergeRequest | AwardEmoji => false
            | _ => true
            end.
Proof. destruct c; vm_compute; reflexivity. Qed.

Lemma copy_attributes_plain (attributes : dict) (o : GraphObject)
  (key : string) :
  plain (class_of o) = true ->
  wf_dict attributes ->
  property_get key (node_properties (copy_attributes o attributes))
  = if is_property (class_of o) key
    then match dict_lookup key attributes with
         | Some v => v
         | None => property_get key (node_properties o)
         end
    else property_get key (node_properties o).
Proof.
  unfold wf_dict. revert o.
  induction attributes as [ | [a x] rest IH];
    cbn [copy_attributes dict_lookup]; intros o Hplain Hwf.
  - now destruct (is_property (class_of o) key).
  - change (keys ((a, x) :: rest)) with (a :: keys rest) in Hwf.
    apply NoDup_cons_iff in Hwf. destruct Hwf as [Hnotin Hwf].
    unfold hasattr, is_related_objects.
    destruct (descriptor_of a (declared (class_of o))) as [[k | ? ? | ? ?] | ]
      eqn:Hd; cbn [andb negb].
    + (* a property: the entry is copied *)
      assert (k = a) by now apply plain_key with (c := class_of o). subst k.
      assert (Hset : setattr o a x
                     = mkObject (class_of o) (node_identity o)
                         (property_set a x (node_properties o)) (related o))
        by (unfold setattr; now rewrite Hd).
      rewrite Hset, IH by assumption. cbn [class_of node_properties].
      destruct (String.eqb_spec key a) as [-> | Hne].
      * unfold is_property. rewrite Hd.
        rewrite (dict_lookup_absent _ _ Hnotin).
        apply property_get_set_same.
      * rewrite (property_get_set_other _ _ Hne). reflexivity.
    + (* a relationship: the entry is skipped *)
      rewrite IH by assumption.
      destruct (String.eqb_spec key a) as [-> | Hne]; [ | reflexivity].
      unfold is_property. rewrite Hd. reflexivity.
    + rewrite IH by assumption.
      destruct (String.eqb_spec key a) as [-> | Hne]; [ | reflexivity].
      unfold is_property. rewrite Hd. reflexivity.
    + (* not declared: the entry is ignored *)
      rewrite IH by assumption.
      destruct (String.eqb_spec key a) as [-> | Hne]; [ | reflexivity].
      unfold is_property. rewrite Hd. reflexivity.
Qed.

(** On the classes that store each property under its own name, [create]
    copies the entries that name a declared property and nothing else. *)
Lemma create_copies_declared_properties (cls : model) (attributes : dict)
  (g : Graph) (obj : GraphObject) (g' : Graph) (key : string) :
  plain cls = true ->
  wf_dict attributes ->
  create cls attributes g = (Ok obj, g') ->
  property_get key (node_properties obj)
  = if is_property cls key then dict_get key attributes else VNone.
Proof.
  intros Hplain Hwf Hrun. unfold create in Hrun.
  destruct (negb (dict_contains (__primarykey__ cls) attributes));
    [discriminate | ].
  destruct (graph_create_spec (copy_attributes (new cls) attributes) g)
    as (i & g0 & Hg).
  rewrite Hg in Hrun. inversion Hrun; subst. cbn [node_properties].
  rewrite (@copy_attributes_plain attributes (new cls) key Hplain Hwf).
  cbn [class_of new node_properties]. unfold dict_get.
  destruct (is_property cls key); [ | reflexivity].
  now destruct (dict_lookup key attributes).
Qed.

(** On every class, a property that only its own attribute writes comes
    out of the loop with the value of the dictionary. *)
Lemma copy_attributes_unaliased (attributes : dict) (o : GraphObject)
  (key : string) :
  unaliased (class_of o) key = true ->
  descriptor_of key (declared (class_of o)) = Some (Property key) ->
  wf_dict attributes ->
  property_get key (node_properties (copy_attributes o attributes))
  = match dict_lookup key attributes with
    | Some v => v
    | None => property_get key (node_properties o)
    end.
Proof.
  unfold wf_dict. revert o.
  induction attributes as [ | [a x] rest IH];
    cbn [copy_attributes dict_lookup]; intros o Hun Hkey Hwf.
  - reflexivity.
  - change (keys ((a, x) :: rest)) with (a :: keys rest) in Hwf.
    apply NoDup_cons_iff in Hwf. destruct Hwf as [Hnotin Hwf].
    unfold hasattr, is_related_objects.
    destruct (descriptor_of a (declared (class_of o))) as [[k | ? ? | ? ?] | ]
      eqn:Hd; cbn [andb negb].
    + assert (Hset : setattr o a x
                     = mkObject (class_of o) (node_identity o)
                         (property_set k x (node_properties o)) (related o))
        by (unfold setattr; now rewrite Hd).
      rewrite Hset, IH by assumption. cbn [class_of node_properties].
      destruct (String.eqb_spec key a) as [-> | Hne].
      * rewrite Hkey in Hd. inversion Hd; subst k.
        rewrite (dict_lookup_absent _ _ Hnotin).
        apply property_get_set_same.
      * assert (Hk : key <> k).
        { intros ->. apply Hne. symmetry.
          now apply unaliased_only with (c := class_of o). }
        now rewrite (property_get_set_other _ _ Hk).
    + rewrite IH by assumption.
      destruct (String.eqb_spec key a) as [-> | Hne]; [congruence | reflexivity].
    + rewrite IH by assumption.
      destruct (String.eqb_spec key a) as [-> | Hne]; [congruence | reflexivity].
    + rewrite IH by assumption.
      destruct (String.eqb_spec key a) as [-> | Hne]; [congruence | reflexivity].
Qed.

Lemma create_getattr (cls : model) (attributes : dict) (g g' : Graph)
  (obj : GraphObject) (key : string) :
  unaliased cls key = true ->
  descriptor_of key (declared cls) = Some (Property key) ->
  wf_dict attributes ->
  create cls attributes g = (Ok obj, g') ->
  class_of obj = cls /\ getattr obj key = dict_get key attributes.
Proof.
  intros Hun Hkey Hwf Hrun. unfold create in Hrun.
  destruct (negb (dict_contains (__primarykey__ cls) attributes));
    [discriminate | ].
  destruct (graph_create_spec (copy_attributes (new cls) attributes) g)
    as (i & g0 & Hg).
  rewrite Hg in Hrun. inversion Hrun; subst.
  pose proof (class_of_copy_attributes attributes (new cls)) as Hc.
  cbn [class_of new] in Hc. split; [exact Hc | ].
  unfold getattr. cbn [class_of node_properties]. rewrite Hc, Hkey.
  rewrite (@copy_attributes_unaliased attributes (new cls) key Hun Hkey Hwf).
  unfold dict_get. now destruct (dict_lookup key attributes).
Qed.

(** C8. On [Issue], whose attribute [closed_at] is declared as
    [Property("updated_at")], [create] does not copy the entries one by
    one: the entry [closed_at] lands in the property [updated_at], where it
    replaces the entry [updated_at] of the dictionary, or fills a property
    the dictionary does not mention; a [closed_at] of [None] removes the
    value copied from [updated_at]. *)
Theorem create_issue_closed_at_overwrites_updated_at :
  (exists obj g',
     create Issue
       [("id", VInt 11); ("updated_at", VStr "2019-05-02T10:00:00Z");
        ("closed_at", VStr "2019-06-01T08:30:00Z")] empty_graph = (Ok obj, g')
     /\ node_properties obj
        = [("id", VInt 11); ("updated_at", VStr "2019-06-01T08:30:00Z")]
     /\ getattr obj "updated_at" = VStr "2019-06-01T08:30:00Z")
  /\ (exists obj g',
        create Issue [("id", VInt 11); ("closed_at", VStr "2019-06-01T08:30:00Z")]
          empty_graph = (Ok obj, g')
        /\ getattr obj "updated_at" = VStr "2019-06-01T08:30:00Z")
  /\ (exists obj g',
        create Issue
          [("id", VInt 11); ("updated_at", VStr "2019-05-02T10:00:00Z");
           ("closed_at", VNone)] empty_graph = (Ok obj, g')
        /\ node_properties obj = [("id", VInt 11)]
        /\ getattr obj "updated_at" = VNone).
Proof.
  repeat split; eexists; eexists; repeat split; vm_compute; reflexivity.
Qed.

End Repository.

(* ===================================================================== *)
(** ** [CommitPipeline]: resolving the author and the committer *)
(* ===================================================================== *)

Module CommitFacts.

Import PyFacts ModelsFacts Repository CommitPipeline.

Lemma bind_ok {S A B} (m : M S A) (k : A -> M S B) (s s' : S) (a : A) :
  m s = (Ok a, s') -> bind m k s = k a s'.
Proof. unfold bind. now intros ->. Qed.

Lemma bind_raise {S A B} (m : M S A) (k : A -> M S B) (s s' : S) (e : exn) :
  m s = (Raise e, s') -> bind m k s = (Raise e, s').
Proof. unfold bind. now intros ->. Qed.

Lemma on_graph_ok {A} (m : M Graph A) (s : self) (a : A) (g' : Graph) :
  m (graph s) = (Ok a, g') ->
  on_graph m s = (Ok a, mkSelf g' (commits s) (commit_model_list s)).
Proof. unfold on_graph, zoom. now intros ->. Qed.

Lemma on_graph_raise {A} (m : M Graph A) (s : self) (e : exn) (g' : Graph) :
  m (graph s) = (Raise e, g') ->
  on_graph m s = (Raise e, mkSelf g' (commits s) (commit_model_list s)).
Proof. unfold on_graph, zoom. now intros ->. Qed.

Lemma split_from_blank (s : string) :
  forallb isspace (list_ascii_of_string s) = true -> split_from "" s = [].
Proof.
  induction s as [ | c s IH]; simpl; intros H.
  - reflexivity.
  - apply Bool.andb_true_iff in H. destruct H as [Hc Hs].
    rewrite Hc. now apply IH.
Qed.

(** A node that is written with properties [props] is no match for [q]
    when [q] rejects these properties: the misses of [q] stay misses. *)
Lemma set_first_keeps_misses (q p : Node -> bool) (props : dict)
  (ns ns' : list Node) (i : nat) :
  (forall j l, q (mkNode j l props) = false) ->
  List.find q ns = None ->
  set_first p props ns = Some (i, ns') ->
  List.find q ns' = None.
Proof.
  intros Hq. revert ns'.
  induction ns as [ | n ns IH]; simpl; intros ns' Hfind Hset.
  - discriminate.
  - destruct (q n) eqn:Hqn; [discriminate | ].
    destruct (p n).
    + inversion Hset; subst. simpl. now rewrite Hq.
    + destruct (set_first p props ns) as [[j l] | ]; [ | discriminate].
      inversion Hset; subst. simpl. rewrite Hqn. now apply IH.
Qed.

Lemma create_keeps_misses (q : Node -> bool) (cls : model) (attributes : dict)
  (g g' : Graph) (obj : GraphObject) :
  (forall j l,
     q (mkNode j l (node_properties (copy_attributes (new cls) attributes)))
     = false) ->
  List.find q (nodes g) = None ->
  create cls attributes g = (Ok obj, g') ->
  List.find q (nodes g') = None.
Proof.
  intros Hq Hfind. unfold create.
  destruct (negb (dict_contains (__primarykey__ cls) attributes));
    [discriminate | ].
  pose proof (identity_copy_attributes attributes (new cls)) as Hi.
  unfold graph_create. rewrite Hi. cbn [node_identity new].
  unfold bind, merge, ret.
  destruct (set_first _ _ (nodes g)) as [[i ns] | ] eqn:E; intros Hrun;
    inversion Hrun; subst; cbn [nodes].
  - eapply set_first_keeps_misses; eauto.
  - rewrite find_app, Hfind. simpl. now rewrite Hq.
Qed.

(** A commit node has no property [name]. *)
Lemma commit_node_has_no_name (attributes : dict) (v : value) (j : nat)
  (l : string) :
  wf_dict attributes ->
  node_matches None [PropContains "name" v]
    (mkNode j l (node_properties (copy_attributes (new Commit) attributes)))
  = false.
Proof.
  intros Hwf. unfold node_matches. cbn [andb forallb holds properties].
  rewrite (@copy_attributes_plain attributes (new Commit) "name" eq_refl Hwf).
  reflexivity.
Qed.

Lemma find_user_none (g : Graph) : _find_user VNone g = (Ok None, g).
Proof. reflexivity. Qed.

Lemma find_user_blank (s : string) (g : Graph) :
  forallb isspace (list_ascii_of_string s) = true ->
  List.find (node_matches None [PropContains "name" (VStr s)]) (nodes g)
  = None ->
  _find_user (VStr s) g
  = (Raise (IndexError "list index out of range"),
     mkGraph (nodes g) (next_identity g)
       (journal g ++ [OpMatch None [PropContains "name" (VStr s)]])).
Proof.
  intros Hblank Hfind.
  unfold _find_user, find, match_first, bind. rewrite Hfind.
  unfold surname_of, bind, split. rewrite (split_from_blank _ Hblank).
  reflexivity.
Qed.

(** C10. [_find_user(None)] returns [None] and asks nothing of the
    matcher.  For a name made of whitespace only that no node matches,
    [_find_user] asks for the full-name match and then raises [IndexError]
    on [name.split()[-1]]; [transform_data] raises with it on a commit that
    has such an author name, or no author name and such a committer
    name. *)
Theorem find_user_blank_name_raises (s : string) (g : Graph)
  (attributes : dict) (rest : list RESTObject) (models : list GraphObject) :
  forallb isspace (list_ascii_of_string s) = true ->
  List.find (node_matches None [PropContains "name" (VStr s)]) (nodes g)
  = None ->
  wf_dict attributes ->
  dict_contains "id" attributes = true ->
  dict_get "author_name" attributes = VStr s
  \/ (dict_get "author_name" attributes = VNone
      /\ dict_get "committer_name" attributes = VStr s) ->
  _find_user VNone g = (Ok None, g)
  /\ _find_user (VStr s) g
     = (Raise (IndexError "list index out of range"),
        mkGraph (nodes g) (next_identity g)
          (journal g ++ [OpMatch None [PropContains "name" (VStr s)]]))
  /\ exists st',
       transform_data (mkSelf g (Some (mkREST attributes :: rest)) models)
       = (Raise (IndexError "list index out of range"), st').
Proof.
  intros Hblank Hfind Hwf Hid Hname.
  split; [reflexivity | ].
  split; [now apply find_user_blank | ].
  set (st := mkSelf g (Some (mkREST attributes :: rest)) models).
  rewrite dict_contains_lookup in Hid.
  destruct (dict_lookup "id" attributes) as [v | ] eqn:Hlook;
    [ | discriminate].
  destruct (@create_present Commit attributes v g Hwf Hlook)
    as (i & g1 & Hcreate & _).
  assert (Hfind1 :
    List.find (node_matches None [PropContains "name" (VStr s)]) (nodes g1)
    = None).
  { eapply create_keeps_misses; [ | exact Hfind | exact Hcreate].
    intros j l. now apply commit_node_has_no_name. }
  unfold transform_data. cbn [commits st for_each].
  enough (Hbody : exists st',
            transform_commit (mkREST attributes) st
            = (Raise (IndexError "list index out of range"), st')).
  { destruct Hbody as [st' Hbody]. exists st'.
    now apply bind_raise. }
  unfold transform_commit. cbn [Pipelines.attributes].
  erewrite bind_ok; [ | apply on_graph_ok; exact Hcreate].
  destruct Hname as [Hauthor | [Hauthor Hcommitter]].
  - rewrite Hauthor. eexists.
    apply bind_raise. apply on_graph_raise. cbn [graph].
    now apply find_user_blank.
  - rewrite Hauthor, Hcommitter.
    erewrite bind_ok; [ | apply on_graph_ok; apply find_user_none].
    eexists.
    apply bind_raise. apply on_graph_raise. cbn [graph].
    now apply find_user_blank.
Qed.

Lemma find_user_blank_name_raises_witness :
  _find_user VNone small_graph = (Ok None, small_graph)
  /\ _find_user (VStr "  ") small_graph
     = (Raise (IndexError "list index out of range"),
        mkGraph (nodes small_graph) (next_identity small_graph)
          (journal small_graph
           ++ [OpMatch None [PropContains "name" (VStr "  ")]]))
  /\ exists st',
       transform_data
         (mkSelf small_graph (Some (mkREST (attributes blank_commit) :: []))
            [])
       = (Raise (IndexError "list index out of range"), st').
Proof.
  apply (@find_user_blank_name_raises "  " small_graph
           (attributes blank_commit) [] []).
  - reflexivity.
  - reflexivity.
  - unfold wf_dict. simpl. repeat constructor; simpl; intuition discriminate.
  - reflexivity.
  - right. split; reflexivity.
Defined.

(** C4. A commit whose author name is a single space, in a graph where no
    name holds a space: the author cannot be resolved, and the transform
    step does not skip the relationship, it raises [IndexError] and no
    model of the commit is kept. *)
Theorem transform_data_unresolved_author_raises :
  exists st',
    transform_data
      (mkSelf small_graph
         (Some [mkREST [("id", VStr "6104942438c1");
                        ("author_name", VStr " ");
                        ("committer_name", VStr "Martin");
                        ("parent_ids", VList [])]])
         [])
    = (Raise (IndexError "list index out of range"), st')
    /\ commit_model_list st' = [].
Proof. eexists. split; vm_compute; reflexivity. Qed.

(** C7. No user is called "Some Doe" nor has a name that holds "Doe", but
    the project is called "Doe Tools": the surname lookup, which is made
    on the nodes of every label, returns the project node, and the commit
    gets its author relationship to that node. *)
Theorem transform_data_author_is_project :
  (forall n, In n (nodes doe_tools_graph) -> label n = "User" ->
     cypher_contains (property_get "name" (properties n)) (VStr "Some Doe")
     = false
     /\ cypher_contains (property_get "name" (properties n)) (VStr "Doe")
        = false)
  /\ exists st' commit_model n,
       transform_data (mkSelf doe_tools_graph (Some [some_doe_commit]) [])
       = (Ok tt, st')
       /\ commit_model_list st' = [commit_model]
       /\ related_objects commit_model "is_author" = [Some (identity n)]
       /\ In n (nodes (graph st'))
       /\ label n = "Project".
Proof.
  split.
  - intros n [<- | [<- | []]]; intros Hl; [discriminate | ].
    split; vm_compute; reflexivity.
  - eexists. eexists.
    exists (mkNode 0 "Project" [("id", VInt 1); ("name", VStr "Doe Tools")]).
    split; [vm_compute; reflexivity | ].
    split; [reflexivity | ].
    split; [reflexivity | ].
    split; [now left | reflexivity].
Qed.

(** The order of the lookups of [_find_user] on a name: the full name,
    then its last token, then nothing. *)
Lemma find_user_cases (s : string) (g : Graph) :
  fst (_find_user (VStr s) g)
  = match List.find (node_matches None [PropContains "name" (VStr s)])
            (nodes g) with
    | Some n => Ok (Some (wrap User n))
    | None =>
        match rev (split s) with
        | [] => Raise (IndexError "list index out of range")
        | surname :: _ =>
            match List.find
                    (node_matches None [PropContains "name" (VStr surname)])
                    (nodes g) with
            | Some n => Ok (Some (wrap User n))
            | None => Ok None
            end
        end
    end.
Proof.
  unfold _find_user, find, match_first, bind. cbn [nodes].
  destruct (List.find _ (nodes g)) as [n | ]; [reflexivity | ].
  unfold surname_of, last_item, bind.
  destruct (rev (split s)) as [ | surname rest]; [reflexivity | ].
  cbn [ret nodes].
  now destruct (List.find _ (nodes g)).
Qed.

(** The two examples of the resolution by name, in a graph that holds
    users only. *)
Lemma find_user_exact_match :
  let g := mkGraph [mkNode 0 "User" [("id", VInt 5); ("name", VStr "Jane Doe")]]
             1 [] in
  exists g',
    _find_user (VStr "Jane Doe") g
    = (Ok (Some (mkObject User (Some 0)
                   [("id", VInt 5); ("name", VStr "Jane Doe")] [])), g').
Proof. eexists. vm_compute. reflexivity. Qed.

Lemma find_user_surname_fallback :
  let g := mkGraph [mkNode 0 "User" [("id", VInt 6); ("name", VStr "John Doe")]]
             1 [] in
  exists g',
    _find_user (VStr "Some Doe") g
    = (Ok (Some (mkObject User (Some 0)
                   [("id", VInt 6); ("name", VStr "John Doe")] [])), g')
    /\ journal g' = [OpMatch None [PropContains "name" (VStr "Some Doe")];
                     OpMatch None [PropContains "name" (VStr "Doe")]].
Proof. eexists. split; vm_compute; reflexivity. Qed.

End CommitFacts.

(* ===================================================================== *)
(** ** [IssuePipeline]: resolving the users of an issue *)
(* ===================================================================== *)

Module IssueFacts.

(** In [IssuePipeline] a user that is not in the graph is not skipped
    either: the [None] that [first()] returns is handed to [update]. *)
Lemma resolve_users_attaches_none :
  exists g',
    IssuePipeline.resolve_users foreign_issue
      (mkObject Issue (Some 2) [("id", VInt 301); ("iid", VInt 42)] [])
      small_graph
    = (Ok (mkObject Issue (Some 2) [("id", VInt 301); ("iid", VInt 42)]
             [("created_by", [None])]), g').
Proof. eexists. vm_compute. reflexivity. Qed.

End IssueFacts.

(* ===================================================================== *)
(** ** [MergeRequestPipeline]: the issue named by the source branch *)
(* ===================================================================== *)

Module MergeRequestFacts.

Import PyFacts ModelsFacts Repository MergeRequestPipeline.

Lemma issue_match (z : Z) (n : Node) :
  node_matches (Some "Issue") [PropEq "iid" (VInt z)] n = true
  <-> label n = "Issue" /\ property_get "iid" (properties n) = VInt z.
Proof.
  split.
  - intros H. split.
    + now apply node_matches_label in H.
    + now apply node_matches_eq in H.
  - intros [Hl Hp]. unfold node_matches. cbn [forallb holds].
    rewrite Hl, Hp. cbn. now rewrite Z.eqb_refl.
Qed.

Lemma update_In (o : GraphObject) (attr : string) (target : option nat) :
  In target (related_objects (update o attr target) attr).
Proof.
  assert (Hassoc : forall (l : list (string * list (option nat))) x,
            assoc attr (assoc_set attr x l) = Some x).
  { intros l x. induction l as [ | [k y] l IH]; simpl.
    - now rewrite String.eqb_refl.
    - destruct (String.eqb attr k) eqn:E; simpl; rewrite E; auto. }
  unfold related_objects at 1, update. cbn [related]. rewrite Hassoc.
  destruct (existsb (same_object target) (related_objects o attr)) eqn:E.
  - apply existsb_exists in E. destruct E as (x & Hin & Hx).
    destruct target as [i | ], x as [j | ]; try discriminate; simpl in Hx.
    + apply Nat.eqb_eq in Hx. now subst.
    + assumption.
  - apply in_or_app. right. now left.
Qed.

(** What the lookup of the issue finds. *)
Lemma issue_find_some (z : Z) (ns : list Node) (n : Node) :
  List.find (node_matches (Some "Issue") [PropEq "iid" (VInt z)]) ns = Some n ->
  In n ns /\ label n = "Issue"
  /\ property_get "iid" (properties n) = VInt z.
Proof.
  intros Hfind. apply find_some in Hfind. destruct Hfind as [Hin Hm].
  apply issue_match in Hm. tauto.
Qed.

Lemma issue_find_none (z : Z) (ns : list Node) (n : Node) :
  List.find (node_matches (Some "Issue") [PropEq "iid" (VInt z)]) ns = None ->
  In n ns -> label n = "Issue" ->
  property_get "iid" (properties n) <> VInt z.
Proof.
  intros Hfind Hin Hl Hp.
  apply (find_none _ _ Hfind) in Hin.
  assert (Hm : node_matches (Some "Issue") [PropEq "iid" (VInt z)] n = true)
    by now apply issue_match.
  cbn in Hin, Hm. rewrite Hm in Hin. discriminate.
Qed.

(** Creating an object leaves the nodes of the other labels as they
    are. *)
Lemma set_first_In_other (q : Node -> bool) (props : dict)
  (ns ns' : list Node) (i : nat) (n : Node) :
  (forall m, q m = true -> label m <> label n) ->
  set_first q props ns = Some (i, ns') ->
  In n ns' <-> In n ns.
Proof.
  intros Hq. revert ns'.
  induction ns as [ | n0 ns IH]; simpl; intros ns' Hset.
  - discriminate.
  - destruct (q n0) eqn:Hq0.
    + inversion Hset; subst. simpl.
      pose proof (Hq n0 Hq0) as Hl.
      split; intros [<- | Hin]; auto; exfalso; now apply Hl.
    + destruct (set_first q props ns) as [[j l] | ]; [ | discriminate].
      inversion Hset; subst. simpl. rewrite (IH l eq_refl). reflexivity.
Qed.

Lemma create_keeps_other_nodes (cls : model) (attributes : dict)
  (g g' : Graph) (obj : GraphObject) (n : Node) :
  label n <> __primarylabel__ cls ->
  create cls attributes g = (Ok obj, g') ->
  In n (nodes g') <-> In n (nodes g).
Proof.
  intros Hl. unfold create.
  destruct (negb (dict_contains (__primarykey__ cls) attributes));
    [discriminate | ].
  pose proof (identity_copy_attributes attributes (new cls)) as Hi.
  pose proof (class_of_copy_attributes attributes (new cls)) as Hc.
  unfold graph_create. rewrite Hi, Hc. cbn [node_identity class_of new].
  unfold bind, merge, ret.
  destruct (set_first _ _ (nodes g)) as [[i ns] | ] eqn:E; intros Hrun;
    inversion Hrun; subst; cbn [nodes].
  - eapply set_first_In_other; [ | exact E].
    intros m Hm. apply node_matches_label in Hm. congruence.
  - rewrite in_app_iff. simpl. split; [ | auto].
    intros [Hin | [<- | []]]; [assumption | ]. now contradiction Hl.
Qed.

Section Pattern.

Variable zeros : list N.

(** In every version of Unicode the dash is no decimal digit. *)
Hypothesis dash_no_digit : digit_value zeros dash = None.

Lemma is_digit_decimal (c : N) : is_digit zeros c = true <-> decimal zeros c.
Proof.
  unfold is_digit, digit_value, decimal. split.
  - destruct (List.find _ zeros) as [z | ] eqn:Hf; [ | discriminate].
    intros _. apply find_some in Hf. destruct Hf as [Hin Hz].
    apply Bool.andb_true_iff in Hz. destruct Hz as [H1 H2].
    exists z. split; [exact Hin | ]. split; now apply N.leb_le.
  - intros (z & Hin & H1 & H2).
    destruct (List.find _ zeros) as [z' | ] eqn:Hf; [reflexivity | ].
    pose proof (find_none _ _ Hf z Hin) as Hz. cbv beta in Hz.
    apply N.leb_le in H1, H2. rewrite H1, H2 in Hz. discriminate.
Qed.

Lemma is_newline_eq (c : N) : is_newline c = true <-> c = newline.
Proof. unfold is_newline. apply N.eqb_eq. Qed.

Lemma span_digits_sound (s d r : list N) :
  span_digits zeros s = (d, r) -> s = d ++ r /\ Forall (decimal zeros) d.
Proof.
  revert d r. induction s as [ | c s IH]; cbn [span_digits]; intros d r H.
  - inversion H. split; [reflexivity | constructor].
  - destruct (is_digit zeros c) eqn:Hc.
    + destruct (span_digits zeros s) as [d0 r0]. inversion H; subst.
      destruct (IH d0 r eq_refl) as [-> Hd]. split; [reflexivity | ].
      constructor; [now apply is_digit_decimal | exact Hd].
    + inversion H. split; [reflexivity | constructor].
Qed.

Lemma span_digits_app (d rest : list N) :
  Forall (decimal zeros) d ->
  match rest with
  | [] => True
  | c :: _ => is_digit zeros c = false
  end ->
  span_digits zeros (d ++ rest) = (d, rest).
Proof.
  intros Hd Hrest. induction Hd as [ | c d Hc Hd IH]; cbn [app span_digits].
  - destruct rest as [ | c r]; [reflexivity | ]. cbn [span_digits].
    now rewrite Hrest.
  - apply is_digit_decimal in Hc. rewrite Hc, IH. reflexivity.
Qed.

Lemma dot_star_end_spec (s : list N) :
  dot_star_end s = true <->
  exists r t, s = r ++ t /\ ~ In newline r /\ (t = [] \/ t = [newline]).
Proof.
  split.
  - induction s as [ | c s IH]; cbn [dot_star_end]; intros H.
    + exists [], []. auto.
    + destruct (is_newline c) eqn:Hc.
      * apply is_newline_eq in Hc. subst c.
        destruct s; [ | discriminate]. exists [], [newline]. auto.
      * destruct (IH H) as (r & t & -> & Hr & Ht).
        exists (c :: r), t. split; [reflexivity | ]. split; [ | exact Ht].
        intros [Heq | Hin]; [ | now apply Hr].
        subst c. unfold is_newline in Hc. now rewrite N.eqb_refl in Hc.
  - intros (r & t & -> & Hr & Ht).
    induction r as [ | c r IH]; cbn [app dot_star_end].
    + destruct Ht as [-> | ->]; reflexivity.
    + destruct (is_newline c) eqn:Hc.
      * apply is_newline_eq in Hc. subst c. exfalso. apply Hr. now left.
      * apply IH. intros Hin. apply Hr. now right.
Qed.

Lemma dot_plus_end_spec (s : list N) :
  dot_plus_end s = true <->
  exists r t,
    s = r ++ t /\ r <> [] /\ ~ In newline r /\ (t = [] \/ t = [newline]).
Proof.
  split.
  - destruct s as [ | c s]; cbn [dot_plus_end]; intros H; [discriminate | ].
    apply Bool.andb_true_iff in H. destruct H as [Hc Hs].
    apply Bool.negb_true_iff in Hc.
    apply dot_star_end_spec in Hs. destruct Hs as (r & t & -> & Hr & Ht).
    exists (c :: r), t. split; [reflexivity | ]. split; [discriminate | ].
    split; [ | exact Ht].
    intros [Heq | Hin]; [ | now apply Hr].
    subst c. unfold is_newline in Hc. now rewrite N.eqb_refl in Hc.
  - intros (r & t & -> & Hne & Hr & Ht).
    destruct r as [ | c r]; [now elim Hne | ]. cbn [app dot_plus_end].
    apply Bool.andb_true_iff. split.
    + apply Bool.negb_true_iff. destruct (is_newline c) eqn:Hc; [ | reflexivity].
      apply is_newline_eq in Hc. subst c. exfalso. apply Hr. now left.
    + apply dot_star_end_spec. exists r, t. split; [reflexivity | ].
      split; [ | exact Ht]. intros Hin. apply Hr. now right.
Qed.

(** The matcher accepts the strings of the pattern, and its group is the
    run of digits. *)
Lemma re_match_spec (s d : list N) :
  re_match zeros s = Some d <-> branch_pattern zeros s d.
Proof.
  unfold re_match, branch_pattern. split.
  - destruct (span_digits zeros s) as [d0 r0] eqn:E.
    apply span_digits_sound in E. destruct E as [-> Hd].
    destruct d0 as [ | c0 d0]; [discriminate | ].
    destruct r0 as [ | c r']; [discriminate | ].
    destruct (N.eqb_spec c dash) as [-> | ]; [ | discriminate].
    destruct (dot_plus_end r') eqn:Hdot; [ | discriminate].
    intros H. inversion H; subst d.
    apply dot_plus_end_spec in Hdot.
    destruct Hdot as (r & t & -> & Hne & Hr & Ht).
    exists r, t. split; [reflexivity | ]. split; [discriminate | auto].
  - intros (r & t & -> & Hne & Hd & Hr & Hnl & Ht).
    rewrite span_digits_app;
      [ | exact Hd | unfold is_digit; now rewrite dash_no_digit].
    destruct d as [ | c0 d0]; [now elim Hne | ].
    rewrite N.eqb_refl.
    assert (Hdot : dot_plus_end (r ++ t) = true)
      by (apply dot_plus_end_spec; exists r, t; auto).
    now rewrite Hdot.
Qed.

(** Reading a numeral from left to right gives the number it stands
    for. *)
Lemma int_from (d : list N) (acc : Z) :
  fold_left (fun acc c => (acc * 10 + digit zeros c)%Z) d acc
  = (acc * 10 ^ Z.of_nat (List.length d) + numeral zeros d)%Z.
Proof.
  revert acc. induction d as [ | c d IH]; intros acc; cbn [fold_left numeral].
  - cbn. lia.
  - rewrite IH. cbn [List.length]. rewrite Nat2Z.inj_succ, Z.pow_succ_r by lia.
    ring.
Qed.

Lemma int_numeral (d : list N) : int zeros d = numeral zeros d.
Proof. unfold int. rewrite int_from. lia. Qed.

(** The two ways through the step: the branch name matches and the
    database is asked for the issue, or it does not and nothing happens. *)
Lemma issue_from_branch_match (merge_request_model : GraphObject)
  (source_branch d : list N) (g : Graph) :
  re_match zeros source_branch = Some d ->
  issue_from_branch_of zeros source_branch merge_request_model g
  = (Ok match List.find
                (node_matches (Some "Issue")
                   [PropEq "iid" (VInt (numeral zeros d))])
                (nodes g) with
        | Some n =>
            update merge_request_model "is_related" (Some (identity n))
        | None => merge_request_model
        end,
     mkGraph (nodes g) (next_identity g)
       (journal g
        ++ [OpMatch (Some "Issue") [PropEq "iid" (VInt (numeral zeros d))]])).
Proof.
  intros Hre. unfold issue_from_branch_of. rewrite Hre.
  apply re_match_spec in Hre. destruct Hre as (_ & _ & _ & Hne & _).
  destruct d as [ | c d]; [now elim Hne | ].
  rewrite int_numeral. unfold bind. rewrite get_run. cbn [map fst snd nodes].
  now destruct (List.find _ (nodes g)).
Qed.

Lemma issue_from_branch_no_match (merge_request_model : GraphObject)
  (source_branch : list N) (g : Graph) :
  re_match zeros source_branch = None ->
  issue_from_branch_of zeros source_branch merge_request_model g
  = (Ok merge_request_model, g).
Proof. intros Hre. unfold issue_from_branch_of. now rewrite Hre. Qed.

(** C6. The step that links a merge request to an issue, on every branch
    name whose numeric prefix, if it has one, is a number the database
    can hold.  The step never raises.  It attaches an issue to
    [is_related] exactly when the branch name is in the language of
    [^(\d+)-.+$] (decimal digits of any script, a dash, at least one more
    character) and the graph holds an Issue node whose [iid] is the
    number the digits in front of the dash stand for; otherwise the model
    of the merge request is left as it is.  When the branch name is not
    in the language, the graph is not even asked.  This is what
    [transform_data] does with [merge_request_model.source_branch]. *)
Theorem issue_from_branch_spec (merge_request_model : GraphObject)
  (source_branch : list N) (g : Graph) :
  prefix_fits zeros source_branch ->
  exists m' g',
    issue_from_branch_of zeros source_branch merge_request_model g
    = (Ok m', g')
    /\ nodes g' = nodes g
    /\ ((exists d n,
           branch_pattern zeros source_branch d
           /\ In n (nodes g) /\ label n = "Issue"
           /\ property_get "iid" (properties n) = VInt (numeral zeros d)
           /\ m' = update merge_request_model "is_related" (Some (identity n))
           /\ In (Some (identity n)) (related_objects m' "is_related"))
        \/ (~ (exists d n,
                 branch_pattern zeros source_branch d
                 /\ In n (nodes g) /\ label n = "Issue"
                 /\ property_get "iid" (properties n)
                    = VInt (numeral zeros d))
            /\ m' = merge_request_model))
    /\ ((forall d, ~ branch_pattern zeros source_branch d) -> g' = g)
    /\ (forall s,
          getattr merge_request_model "source_branch" = VStr s ->
          source_branch = code_points s ->
          issue_from_branch zeros merge_request_model g = (Ok m', g')).
Proof.
  intros _.
  assert (Hstep : forall s m' g',
            issue_from_branch_of zeros source_branch merge_request_model g
            = (Ok m', g') ->
            getattr merge_request_model "source_branch" = VStr s ->
            source_branch = code_points s ->
            issue_from_branch zeros merge_request_model g = (Ok m', g')).
  { intros s m' g' Hrun Hattr Hs. unfold issue_from_branch.
    now rewrite Hattr, <- Hs. }
  destruct (re_match zeros source_branch) as [d | ] eqn:Hre.
  - (* the name matches: the graph is asked for the issue *)
    pose proof (@issue_from_branch_match merge_request_model source_branch d
                  g Hre) as Hrun.
    pose proof (proj1 (re_match_spec source_branch d) Hre) as Hpat.
    eexists. eexists. split; [exact Hrun | ].
    split; [reflexivity | ]. split; [ | split].
    + destruct (List.find _ (nodes g)) as [n | ] eqn:Hfind.
      * left. exists d, n.
        apply issue_find_some in Hfind. destruct Hfind as (Hin & Hl & Hp).
        repeat split; auto. apply update_In.
      * right. split; [ | reflexivity].
        intros (d' & n & Hpat' & Hin & Hl & Hp).
        apply re_match_spec in Hpat'. rewrite Hre in Hpat'.
        inversion Hpat'; subst d'.
        now apply (issue_find_none _ _ Hfind) in Hp.
    + intros Hno. now destruct (Hno d).
    + intros s Hattr Hs. now apply (Hstep s).
  - (* the name does not match: nothing is asked, nothing is attached *)
    pose proof (@issue_from_branch_no_match merge_request_model source_branch
                  g Hre) as Hrun.
    exists merge_request_model, g. split; [exact Hrun | ].
    split; [reflexivity | ]. split; [ | split; [reflexivity | ]].
    + right. split; [ | reflexivity].
      intros (d & _ & Hpat & _).
      apply re_match_spec in Hpat. rewrite Hre in Hpat. discriminate.
    + intros s Hattr Hs. now apply (Hstep s).
Qed.

(** From the record to the relationship: the model of a merge request is
    created from its attributes, then linked.  An issue that the graph
    held before the merge request was created, under the number in front
    of the dash, ends up attached; without such an issue, or with a branch
    name of another form, nothing is attached. *)
Lemma create_then_issue_from_branch (attributes : dict)
  (source_branch : string) (g : Graph) :
  wf_dict attributes ->
  dict_contains "id" attributes = true ->
  dict_lookup "source_branch" attributes = Some (VStr source_branch) ->
  exists m g1 m' g2,
    create MergeRequest attributes g = (Ok m, g1)
    /\ issue_from_branch zeros m g1 = (Ok m', g2)
    /\ ((exists d n,
           branch_pattern zeros (code_points source_branch) d
           /\ In n (nodes g) /\ label n = "Issue"
           /\ property_get "iid" (properties n) = VInt (numeral zeros d)
           /\ m' = update m "is_related" (Some (identity n)))
        \/ (~ (exists d n,
                 branch_pattern zeros (code_points source_branch) d
                 /\ In n (nodes g) /\ label n = "Issue"
                 /\ property_get "iid" (properties n)
                    = VInt (numeral zeros d))
            /\ m' = m)).
Proof.
  intros Hwf Hid Hbranch.
  rewrite dict_contains_lookup in Hid.
  destruct (dict_lookup "id" attributes) as [v | ] eqn:Hlook;
    [ | discriminate].
  destruct (@create_present MergeRequest attributes v g Hwf Hlook)
    as (i & g1 & Hcreate & _).
  destruct (@create_getattr MergeRequest attributes g g1 _ "source_branch"
              eq_refl eq_refl Hwf Hcreate) as [_ Hattr].
  unfold dict_get in Hattr. rewrite Hbranch in Hattr.
  assert (Hnodes : forall n, label n = "Issue" ->
                     In n (nodes g1) <-> In n (nodes g)).
  { intros n Hl. eapply create_keeps_other_nodes; [ | exact Hcreate].
    rewrite Hl. discriminate. }
  eexists. exists g1. unfold issue_from_branch. rewrite Hattr.
  destruct (re_match zeros (code_points source_branch)) as [d | ] eqn:Hre.
  - eexists. eexists. split; [exact Hcreate | ].
    split; [exact (@issue_from_branch_match _ _ d g1 Hre) | ].
    destruct (List.find _ (nodes g1)) as [n | ] eqn:Hfind.
    + left. exists d, n.
      apply issue_find_some in Hfind. destruct Hfind as (Hin & Hl & Hp).
      rewrite <- (Hnodes n Hl). apply re_match_spec in Hre. auto.
    + right. split; [ | reflexivity].
      intros (d' & n & Hpat & Hin & Hl & Hp).
      apply re_match_spec in Hpat. rewrite Hre in Hpat.
      inversion Hpat; subst d'.
      apply (issue_find_none _ _ Hfind) in Hp; auto.
      now apply Hnodes.
  - eexists. eexists. split; [exact Hcreate | ].
    split; [exact (@issue_from_branch_no_match _ _ g1 Hre) | ].
    right. split; [ | reflexivity].
    intros (d & _ & Hpat & _).
    apply re_match_spec in Hpat. rewrite Hre in Hpat. discriminate.
Qed.

End Pattern.

Lemma issue_from_branch_spec_witness :
  digit_value unicode_14 dash = None
  /\ prefix_fits unicode_14 (code_points "42-fix-bug")
  /\ exists g',
       issue_from_branch unicode_14 (merge_request_on "42-fix-bug") issue_graph
       = (Ok (mkObject MergeRequest (Some 1)
                [("id", VInt 900); ("source_branch", VStr "42-fix-bug")]
                [("is_related", [Some 0])]), g')
       /\ nodes g' = nodes issue_graph.
Proof.
  assert (Hdash : digit_value unicode_14 dash = None) by reflexivity.
  assert (Hfits : prefix_fits unicode_14 (code_points "42-fix-bug"))
    by (vm_compute; lia).
  split; [exact Hdash | ]. split; [exact Hfits | ].
  destruct (@issue_from_branch_spec unicode_14 Hdash
              (merge_request_on "42-fix-bug") (code_points "42-fix-bug")
              issue_graph Hfits)
    as (m' & g' & _ & Hnodes & Hlink & _ & Hstep).
  exists g'. split; [ | exact Hnodes].
  rewrite (Hstep "42-fix-bug" eq_refl eq_refl). f_equal. f_equal.
  assert (Hpat : branch_pattern unicode_14 (code_points "42-fix-bug")
                   (code_points "42")).
  { apply (@re_match_spec unicode_14 Hdash). vm_compute. reflexivity. }
  destruct Hlink as [(d & n & Hd & Hin & _ & _ & Hm & _) | [Hno _]].
  - destruct Hin as [<- | []]. rewrite Hm. reflexivity.
  - exfalso. apply Hno. exists (code_points "42"). eexists.
    split; [exact Hpat | ]. split; [now left | ]. split; reflexivity.
Defined.

(** The two branch names of the specification, and a branch name numbered
    in Arabic-Indic digits. *)
Lemma issue_from_branch_42_fix_bug :
  exists g',
    issue_from_branch unicode_14 (merge_request_on "42-fix-bug") issue_graph
    = (Ok (mkObject MergeRequest (Some 1)
             [("id", VInt 900); ("source_branch", VStr "42-fix-bug")]
             [("is_related", [Some 0])]), g')
    /\ journal g' = [OpMatch (Some "Issue") [PropEq "iid" (VInt 42)]].
Proof. eexists. split; vm_compute; reflexivity. Qed.

Lemma issue_from_branch_fixbug :
  issue_from_branch unicode_14 (merge_request_on "fixbug") issue_graph
  = (Ok (merge_request_on "fixbug"), issue_graph).
Proof. vm_compute. reflexivity. Qed.

Lemma issue_from_branch_arabic_indic :
  exists g',
    issue_from_branch_of unicode_14 [1636; 1634; 45; 102; 105; 120]%N
      (merge_request_on "fix") issue_graph
    = (Ok (update (merge_request_on "fix") "is_related" (Some 0)), g')
    /\ journal g' = [OpMatch (Some "Issue") [PropEq "iid" (VInt 42)]].
Proof. eexists. split; vm_compute; reflexivity. Qed.

Lemma re_match_examples :
  re_match unicode_14 (code_points "42-fix-bug") = Some (code_points "42")
  /\ re_match unicode_14 (code_points "fixbug") = None
  /\ re_match unicode_14 (code_points "42-") = None
  /\ re_match unicode_14 (code_points "-fix") = None
  /\ re_match unicode_14 (code_points "42fix-bug") = None
  /\ re_match unicode_14 (code_points "007-x") = Some (code_points "007")
  /\ int unicode_14 (code_points "007") = 7%Z
  /\ re_match unicode_14 [1636; 1634; 45; 120]%N = Some [1636; 1634]%N
  /\ int unicode_14 [52; 1634]%N = 42%Z
  /\ re_match unicode_14 [178; 45; 120]%N = None.
Proof. repeat split; vm_compute; reflexivity. Qed.

End MergeRequestFacts.

(* ===================================================================== *)
(** ** The orchestrator: order of the calls, configuration errors *)
(* ===================================================================== *)

Module Orchestrator.

Import Helpers OrchestrationProperties.

Section Facts.

Variable World : Type.
Variable perform : ConfigParser -> string -> method -> M World unit.
Variable config_path : string.
Variable files : string -> option ConfigParser.

Local Abbreviation state := (state World).

Lemma calls_app (t1 t2 : list event) : calls (t1 ++ t2) = calls t1 ++ calls t2.
Proof. unfold calls. apply flat_map_app. Qed.

Lemma emits_ret {A} (a : A) : emits (ret a : M state A) [].
Proof.
  intros s. exists [], []. cbn. rewrite app_nil_r. auto.
Qed.

Lemma emits_raise {A} (e : exn) : emits (@raise state A e) [].
Proof.
  intros s. exists [], []. cbn. rewrite app_nil_r. auto.
Qed.

Lemma emits_log_info (msg : string) :
  emits (log_info msg : M state unit) [].
Proof.
  intros s. exists [], []. cbn. rewrite calls_app. cbn. auto.
Qed.

Lemma emits_call (cfg : ConfigParser) (pipe : string) (m : method) :
  emits (call perform cfg pipe m) [(pipe, m)].
Proof.
  intros s. unfold call.
  destruct (perform cfg pipe m (world s)) as [[[] | e] w]; cbn;
    rewrite calls_app; cbn.
  - exists [(pipe, m)], []. auto.
  - exists [(pipe, m)], []. auto.
Qed.

Lemma emits_bind {A B} (m : M state A) (k : A -> M state B)
  (l1 l2 : list (string * method)) :
  emits m l1 -> (forall a, emits (k a) l2) -> emits (bind m k) (l1 ++ l2).
Proof.
  intros Hm Hk s. unfold bind.
  destruct (Hm s) as (d1 & r1 & Hc1 & -> & Hok1).
  destruct (m s) as [[a | e] s1]; cbn in *.
  - rewrite (Hok1 a eq_refl), app_nil_r in *.
    destruct (Hk a s1) as (d2 & r2 & Hc2 & -> & Hok2).
    exists (d1 ++ d2), r2. rewrite Hc2, Hc1, !app_assoc. auto.
  - exists d1, (r1 ++ l2). rewrite app_assoc. repeat split; auto.
    discriminate.
Qed.

Lemma emits_for_each {A} (xs : list A) (body : A -> M state unit)
  (f : A -> list (string * method)) :
  (forall x, emits (body x) (f x)) ->
  emits (for_each xs body) (flat_map f xs).
Proof.
  intros Hbody. induction xs as [ | x xs IH]; cbn [for_each flat_map].
  - apply emits_ret.
  - apply emits_bind; auto.
Qed.

Lemma emits_ext {A} (m m' : M state A) (l : list (string * method)) :
  (forall s, m' s = m s) -> emits m l -> emits m' l.
Proof. intros Heq Hm s. rewrite Heq. apply Hm. Qed.

Lemma bind_then_ret {A B} (m : M state unit) (a : A) (k : A -> M state B)
  (s : state) :
  bind (bind m (fun _ => ret a)) k s = bind m (fun _ => k a) s.
Proof. unfold bind, ret. now destruct (m s) as [[[] | e] s1]. Qed.

Lemma emits_process_pipelines (cfg : ConfigParser) :
  emits (process_pipelines perform cfg) expected_calls.
Proof.
  unfold process_pipelines, get_pipelines.
  eapply emits_ext; [intros s; apply bind_then_ret | ].
  change expected_calls with
    (flat_map (fun pipe => [(pipe, Init)]) PIPELINES
     ++ flat_map (fun pipe => [] ++ [(pipe, RequestData)]) PIPELINES
     ++ flat_map (fun pipe => [] ++ [(pipe, TransformData)]
                              ++ [] ++ [(pipe, CommitData)]) PIPELINES).
  apply emits_bind.
  - apply emits_for_each. intros pipe. apply emits_call.
  - intros _. apply emits_bind.
    + apply emits_for_each. intros pipe.
      apply emits_bind; [apply emits_log_info | intros _; apply emits_call].
    + intros _. apply emits_for_each. intros pipe.
      apply emits_bind; [apply emits_log_info | intros _].
      apply emits_bind; [apply emits_call | intros _].
      apply emits_bind; [apply emits_log_info | intros _; apply emits_call].
Qed.

(** Running the calls of two lists one after the other. *)
Lemma run_calls_app (cfg : ConfigParser) (l1 l2 : list (string * method))
  (w : World) :
  run_calls perform cfg (l1 ++ l2) w
  = match run_calls perform cfg l1 w with
    | (Ok _, w1) => run_calls perform cfg l2 w1
    | (Raise e, w1) => (Raise e, w1)
    end.
Proof.
  unfold run_calls. revert w. induction l1 as [ | c l1 IH]; intros w;
    cbn [for_each app].
  - reflexivity.
  - unfold bind.
    destruct (perform cfg (fst c) (snd c) w) as [[[] | e] w1];
      [apply IH | reflexivity].
Qed.

Lemma calls_made_app (cfg : ConfigParser) (l1 l2 : list (string * method))
  (w : World) :
  calls_made perform cfg (l1 ++ l2) w
  = calls_made perform cfg l1 w
    ++ match run_calls perform cfg l1 w with
       | (Ok _, w1) => calls_made perform cfg l2 w1
       | (Raise _, _) => []
       end.
Proof.
  unfold run_calls. revert w. induction l1 as [ | c l1 IH]; intros w;
    cbn [for_each app calls_made].
  - reflexivity.
  - unfold bind.
    destruct (perform cfg (fst c) (snd c) w) as [[[] | e] w1]; cbn [app].
    + now rewrite IH.
    + reflexivity.
Qed.

Lemma run_calls_returns (cfg : ConfigParser) (l : list (string * method))
  (w : World) :
  (forall pipe m w, fst (perform cfg pipe m w) = Ok tt) ->
  fst (run_calls perform cfg l w) = Ok tt.
Proof.
  intros Hall. unfold run_calls. revert w.
  induction l as [ | c l IH]; intros w; cbn [for_each]; [reflexivity | ].
  unfold bind. specialize (Hall (fst c) (snd c) w).
  destruct (perform cfg (fst c) (snd c) w) as [[[] | e] w1];
    [apply IH | discriminate].
Qed.

Lemma calls_made_all (cfg : ConfigParser) (l : list (string * method))
  (w w1 : World) :
  run_calls perform cfg l w = (Ok tt, w1) -> calls_made perform cfg l w = l.
Proof.
  unfold run_calls. revert w. induction l as [ | c l IH]; intros w;
    cbn [for_each calls_made]; [reflexivity | ].
  unfold bind.
  destruct (perform cfg (fst c) (snd c) w) as [[[] | e] w2];
    [ | discriminate].
  intros H. now rewrite (IH w2 H).
Qed.

Lemma performs_ret {A} (cfg : ConfigParser) (a : A) :
  performs perform cfg (ret a : M state A) [].
Proof. intros s. cbn. rewrite app_nil_r. auto. Qed.

Lemma performs_log_info (cfg : ConfigParser) (msg : string) :
  performs perform cfg (log_info msg : M state unit) [].
Proof.
  intros s. cbn. rewrite calls_app. cbn. auto.
Qed.

Lemma performs_call (cfg : ConfigParser) (pipe : string) (m : method) :
  performs perform cfg (call perform cfg pipe m) [(pipe, m)].
Proof.
  intros s. unfold call, run_calls. cbn [for_each calls_made fst snd].
  unfold bind.
  destruct (perform cfg pipe m (world s)) as [[[] | e] w]; cbn;
    rewrite calls_app; cbn; auto.
Qed.

Lemma performs_bind {A B} (cfg : ConfigParser) (m : M state A)
  (k : A -> M state B) (l1 l2 : list (string * method)) :
  performs perform cfg m l1 ->
  (forall a, performs perform cfg (k a) l2) ->
  performs perform cfg (bind m k) (l1 ++ l2).
Proof.
  intros Hm Hk s. unfold bind.
  rewrite run_calls_app, calls_made_app.
  destruct (Hm s) as (Hr & Hw & Hc).
  destruct (m s) as [[a | e] s1];
    destruct (run_calls perform cfg l1 (world s)) as [[[] | e'] w1];
    cbn [fst snd same_outcome] in *; try contradiction.
  - destruct (Hk a s1) as (Hr2 & Hw2 & Hc2). subst w1.
    split; [exact Hr2 | ]. split; [exact Hw2 | ].
    rewrite Hc2, Hc. now rewrite app_assoc.
  - subst. rewrite app_nil_r. auto.
Qed.

Lemma performs_for_each {A} (cfg : ConfigParser) (xs : list A)
  (body : A -> M state unit) (f : A -> list (string * method)) :
  (forall x, performs perform cfg (body x) (f x)) ->
  performs perform cfg (for_each xs body) (flat_map f xs).
Proof.
  intros Hbody. induction xs as [ | x xs IH]; cbn [for_each flat_map].
  - apply performs_ret.
  - apply performs_bind; [apply Hbody | intros _; exact IH].
Qed.

Lemma performs_ext {A} (cfg : ConfigParser) (m m' : M state A)
  (l : list (string * method)) :
  (forall s, m' s = m s) -> performs perform cfg m l ->
  performs perform cfg m' l.
Proof. intros Heq Hm s. rewrite Heq. apply Hm. Qed.

(** [process_pipelines] does what its twenty-four calls do, and nothing
    else. *)
Lemma performs_process_pipelines (cfg : ConfigParser) :
  performs perform cfg (process_pipelines perform cfg) expected_calls.
Proof.
  unfold process_pipelines, get_pipelines.
  eapply performs_ext; [intros s; apply bind_then_ret | ].
  change expected_calls with
    (flat_map (fun pipe => [(pipe, Init)]) PIPELINES
     ++ flat_map (fun pipe => [] ++ [(pipe, RequestData)]) PIPELINES
     ++ flat_map (fun pipe => [] ++ [(pipe, TransformData)]
                              ++ [] ++ [(pipe, CommitData)]) PIPELINES).
  apply performs_bind.
  - apply performs_for_each. intros pipe. apply performs_call.
  - intros _. apply performs_bind.
    + apply performs_for_each. intros pipe.
      apply performs_bind;
        [apply performs_log_info | intros _; apply performs_call].
    + intros _. apply performs_for_each. intros pipe.
      apply performs_bind; [apply performs_log_info | intros _].
      apply performs_bind; [apply performs_call | intros _].
      apply performs_bind;
        [apply performs_log_info | intros _; apply performs_call].
Qed.

Lemma same_outcome_unit (r r' : result unit) :
  same_outcome r r' -> r = r'.
Proof.
  destruct r as [[] | e], r' as [[] | e']; cbn; intros H;
    try contradiction; congruence.
Qed.

(** C3. Whatever the configuration and whatever the pipelines do,
    [process_pipelines] is the run of these twenty-four calls in this
    order, each on GitLab and the graph as the call before left them, up
    to the first call that raises: the six pipelines are built, then
    [request_data] is called on the six of them in the order User, Label,
    Milestone, Issue, MergeRequest, Commit, and only then, pipeline by
    pipeline in the same order, [transform_data] and right after it
    [commit_data].  The calls it makes are the first calls of the list,
    up to and with the first that raises; it ends as the calls end, and
    leaves the world as they leave it.  So when every method returns it
    returns, and all twenty-four calls were made. *)
Theorem process_pipelines_order (cfg : ConfigParser) (s : state) :
  exists done rest,
    calls (trace (snd (process_pipelines perform cfg s)))
    = calls (trace s) ++ done
    /\ done ++ rest
       = [("UserPipeline", Init); ("LabelPipeline", Init);
          ("MilestonePipeline", Init); ("IssuePipeline", Init);
          ("MergeRequestPipeline", Init); ("CommitPipeline", Init);
          ("UserPipeline", RequestData); ("LabelPipeline", RequestData);
          ("MilestonePipeline", RequestData); ("IssuePipeline", RequestData);
          ("MergeRequestPipeline", RequestData);
          ("CommitPipeline", RequestData);
          ("UserPipeline", TransformData); ("UserPipeline", CommitData);
          ("LabelPipeline", TransformData); ("LabelPipeline", CommitData);
          ("MilestonePipeline", TransformData);
          ("MilestonePipeline", CommitData);
          ("IssuePipeline", TransformData); ("IssuePipeline", CommitData);
          ("MergeRequestPipeline", TransformData);
          ("MergeRequestPipeline", CommitData);
          ("CommitPipeline", TransformData); ("CommitPipeline", CommitData)]
    /\ (fst (process_pipelines perform cfg s) = Ok tt -> rest = [])
    /\ done = calls_made perform cfg (done ++ rest) (world s)
    /\ fst (process_pipelines perform cfg s)
       = fst (run_calls perform cfg (done ++ rest) (world s))
    /\ world (snd (process_pipelines perform cfg s))
       = snd (run_calls perform cfg (done ++ rest) (world s))
    /\ ((forall pipe m w, fst (perform cfg pipe m w) = Ok tt) ->
        fst (process_pipelines perform cfg s) = Ok tt /\ rest = []).
Proof.
  destruct (emits_process_pipelines cfg s) as (done & rest & Hc & He & Hok).
  destruct (performs_process_pipelines cfg s) as (Hr & Hw & Hc').
  apply same_outcome_unit in Hr.
  assert (Hdone : done = calls_made perform cfg expected_calls (world s)).
  { rewrite Hc in Hc'. now apply app_inv_head in Hc'. }
  exists done, rest. rewrite <- He.
  split; [exact Hc | ]. split; [reflexivity | ].
  split; [intros H; now apply (Hok tt) | ].
  split; [exact Hdone | ]. split; [exact Hr | ]. split; [exact Hw | ].
  intros Hall.
  assert (Hret : fst (process_pipelines perform cfg s) = Ok tt).
  { rewrite Hr. now apply run_calls_returns. }
  split; [exact Hret | now apply (Hok tt)].
Qed.

Lemma for_each_app {S A} (xs ys : list A) (body : A -> M S unit) (s : S) :
  for_each (xs ++ ys) body s
  = match for_each xs body s with
    | (Ok _, s1) => for_each ys body s1
    | (Raise e, s1) => (Raise e, s1)
    end.
Proof.
  revert s. induction xs as [ | x xs IH]; cbn [for_each app]; intros s.
  - reflexivity.
  - unfold bind. destruct (body x s) as [[[] | e] s1]; [apply IH | ].
    reflexivity.
Qed.

(** The checks of [get_config] touch nothing: they pass on a valid file,
    and raise [ConfigurationException] on any other. *)
Lemma check_params (config : ConfigParser) (section : string)
  (params : list string) (s : state) :
  exists r,
    for_each params (fun param =>
      if negb (has_option config section param)
      then raise (ConfigurationException
                    ("Parameter " ++ param ++ " in section " ++ section
                     ++ " is missing"))
      else ret tt) s = (r, s)
    /\ if forallb (has_option config section) params
       then r = Ok tt
       else exists msg, r = Raise (ConfigurationException msg).
Proof.
  induction params as [ | param params IH]; cbn [for_each forallb].
  - exists (Ok tt). auto.
  - unfold bind. destruct (has_option config section param); cbn.
    + exact IH.
    + eexists. split; [reflexivity | ]. eexists. reflexivity.
Qed.

Lemma check_sections (config : ConfigParser)
  (entries : list (string * list string)) (s : state) :
  exists r,
    for_each entries (check_section config) s = (r, s)
    /\ if forallb (valid_section config) entries
       then r = Ok tt
       else exists msg, r = Raise (ConfigurationException msg).
Proof.
  induction entries as [ | [section params] entries IH];
    cbn [for_each forallb].
  - exists (Ok tt). auto.
  - unfold bind, check_section, valid_section. cbn [fst snd].
    destruct (mem section (sections config)); cbn [negb andb].
    + destruct (check_params config section params s) as (r & -> & Hr).
      destruct (forallb (has_option config section) params).
      * subst r. exact IH.
      * destruct Hr as [msg ->]. eexists. split; [reflexivity | ].
        now exists msg.
    + eexists. split; [reflexivity | ]. eexists. reflexivity.
Qed.

(** A missing file, section or key makes [get_config] raise
    [ConfigurationException]; no pipeline has been called by then. *)
Lemma get_config_missing (configfile : string) (s : state) :
  missing config_path files configfile ->
  exists msg s',
    get_config config_path files configfile s
    = (Raise (ConfigurationException msg), s')
    /\ world s' = world s
    /\ calls (trace s') = calls (trace s).
Proof.
  unfold missing, get_config.
  destruct (files (path_join config_path configfile)) as [config | ].
  - intros Hinvalid. unfold bind at 1. cbn [log_info].
    unfold bind at 1.
    destruct (check_sections config VALID_CONFIG
                (mkState (world s) (trace s ++ [LogInfo "Parse configuration."])))
      as (r & -> & Hr).
    unfold valid_config in Hinvalid. rewrite Hinvalid in Hr.
    destruct Hr as [msg ->]. exists msg. eexists. split; [reflexivity | ].
    cbn. rewrite calls_app. cbn. now rewrite app_nil_r.
  - intros _. eexists. exists s. split; [reflexivity | auto].
Qed.

Lemma get_config_valid (configfile : string) (config : ConfigParser)
  (s : state) :
  files (path_join config_path configfile) = Some config ->
  valid_config config = true ->
  get_config config_path files configfile s
  = (Ok config,
     mkState (world s)
       ((trace s ++ [LogInfo "Parse configuration."])
        ++ [LogInfo "Configuration is valid."])).
Proof.
  unfold get_config. intros -> Hvalid.
  unfold bind at 1. cbn [log_info]. unfold bind at 1.
  destruct (check_sections config VALID_CONFIG
              (mkState (world s) (trace s ++ [LogInfo "Parse configuration."])))
    as (r & -> & Hr).
  unfold valid_config in Hvalid. rewrite Hvalid in Hr. subst r.
  reflexivity.
Qed.

(** C5, as the code has it.  When a configuration file of the command line
    misses the file, a section or a key, the files before it are processed
    as if they were alone; then [ConfigurationException] is raised before
    any pipeline of the faulty configuration is called, and the run ends
    there: the files after it add nothing, whatever they are. *)
Theorem main_aborts_on_configuration_error (before after : list string)
  (faulty : string) (s : state) :
  missing config_path files faulty ->
  match main perform config_path files before s with
  | (Ok _, s1) =>
      exists msg s',
        main perform config_path files (before ++ faulty :: after) s
        = (Raise (ConfigurationException msg), s')
        /\ world s' = world s1
        /\ calls (trace s') = calls (trace s1)
  | (Raise e, s1) =>
      main perform config_path files (before ++ faulty :: after) s
      = (Raise e, s1)
  end.
Proof.
  intros Hmissing. unfold main at 2 3. rewrite for_each_app.
  fold (main perform config_path files before).
  destruct (main perform config_path files before s) as [[[] | e] s1];
    [ | reflexivity].
  cbn [for_each]. unfold bind at 1 2 3. cbn [log_info].
  destruct (get_config_missing faulty
              (mkState (world s1)
                 (trace s1
                  ++ [LogInfo ("Processing pipeline defined in " ++ faulty)]))
              Hmissing)
    as (msg & s' & -> & Hw & Hc).
  exists msg, s'. split; [reflexivity | ]. split; [exact Hw | ].
  rewrite Hc. cbn. rewrite calls_app. cbn. now rewrite app_nil_r.
Qed.

End Facts.

Lemma process_pipelines_order_witness :
  (forall pipe m w, fst (quiet project_name_ini pipe m w) = Ok tt)
  /\ fst (process_pipelines quiet project_name_ini start) = Ok tt
  /\ calls (trace (snd (process_pipelines quiet project_name_ini start)))
     = [("UserPipeline", Init); ("LabelPipeline", Init);
        ("MilestonePipeline", Init); ("IssuePipeline", Init);
        ("MergeRequestPipeline", Init); ("CommitPipeline", Init);
        ("UserPipeline", RequestData); ("LabelPipeline", RequestData);
        ("MilestonePipeline", RequestData); ("IssuePipeline", RequestData);
        ("MergeRequestPipeline", RequestData);
        ("CommitPipeline", RequestData);
        ("UserPipeline", TransformData); ("UserPipeline", CommitData);
        ("LabelPipeline", TransformData); ("LabelPipeline", CommitData);
        ("MilestonePipeline", TransformData);
        ("MilestonePipeline", CommitData);
        ("IssuePipeline", TransformData); ("IssuePipeline", CommitData);
        ("MergeRequestPipeline", TransformData);
        ("MergeRequestPipeline", CommitData);
        ("CommitPipeline", TransformData); ("CommitPipeline", CommitData)].
Proof.
  assert (Hquiet : forall pipe m (w : unit),
            fst (quiet project_name_ini pipe m w) = Ok tt)
    by reflexivity.
  split; [exact Hquiet | ].
  destruct (@process_pipelines_order unit quiet project_name_ini start)
    as (done & rest & Hcalls & Hsplit & _ & _ & _ & _ & Hreturns).
  destruct (Hreturns Hquiet) as [Hok Hrest].
  split; [exact Hok | ].
  rewrite Hcalls. rewrite Hrest, app_nil_r in Hsplit. rewrite Hsplit.
  reflexivity.
Defined.

(** Two runs: one that returns, one that stops in the request phase. *)
Lemma process_pipelines_run :
  exists s,
    process_pipelines quiet project_name_ini start = (Ok tt, s)
    /\ calls (trace s) = expected_calls.
Proof. eexists. split; vm_compute; reflexivity. Qed.

Lemma process_pipelines_request_fails :
  exists s,
    process_pipelines (failing_at "MilestonePipeline" RequestData)
      project_name_ini start
    = (Raise (TypeError "'NoneType' object is not iterable"), s)
    /\ calls (trace s)
       = [("UserPipeline", Init); ("LabelPipeline", Init);
          ("MilestonePipeline", Init); ("IssuePipeline", Init);
          ("MergeRequestPipeline", Init); ("CommitPipeline", Init);
          ("UserPipeline", RequestData); ("LabelPipeline", RequestData);
          ("MilestonePipeline", RequestData)].
Proof. eexists. split; vm_compute; reflexivity. Qed.

(** C5, as stated, fails: after a configuration file that does not exist,
    or one that lacks the section [PROJECT], the file that follows is not
    processed, although it is processed when it is given alone. *)
Lemma main_skips_remaining_configurations :
  (exists s,
     main quiet configurations sample_files ["project_name.ini"] start
     = (Ok tt, s)
     /\ calls (trace s) = expected_calls)
  /\ (exists s,
        main quiet configurations sample_files
          ["test_project.ini"; "project_name.ini"] start
        = (Raise (ConfigurationException
                    "Configuration /opt/g2g/configurations/test_project.ini not found."),
           s)
        /\ calls (trace s) = [])
  /\ (exists s,
        main quiet configurations sample_files
          ["no_project.ini"; "project_name.ini"] start
        = (Raise (ConfigurationException "Section PROJECT is missing"), s)
        /\ calls (trace s) = []).
Proof.
  repeat split; eexists; split; vm_compute; reflexivity.
Qed.

Lemma main_aborts_on_configuration_error_witness :
  missing configurations sample_files "no_project.ini"
  /\ match main quiet configurations sample_files ["project_name.ini"] start
     with
     | (Ok _, s1) =>
         exists msg s',
           main quiet configurations sample_files
             (["project_name.ini"] ++ "no_project.ini" :: ["project_name.ini"])
             start
           = (Raise (ConfigurationException msg), s')
           /\ world s' = world s1
           /\ calls (trace s') = calls (trace s1)
     | (Raise e, s1) =>
         main quiet configurations sample_files
           (["project_name.ini"] ++ "no_project.ini" :: ["project_name.ini"])
           start
         = (Raise e, s1)
     end.
Proof.
  assert (H : missing configurations sample_files "no_project.ini")
    by (vm_compute; reflexivity).
  split; [exact H | ].
  exact (@main_aborts_on_configuration_error unit quiet configurations
           sample_files ["project_name.ini"] ["project_name.ini"]
           "no_project.ini" start H).
Defined.

(** The same run, evaluated: the first file is processed, the second one
    raises, the third one is not looked at. *)
Lemma main_aborts_run :
  exists s,
    main quiet configurations sample_files
      ["project_name.ini"; "no_project.ini"; "project_name.ini"] start
    = (Raise (ConfigurationException "Section PROJECT is missing"), s)
    /\ calls (trace s) = expected_calls.
Proof. eexists. split; vm_compute; reflexivity. Qed.

End Orchestrator.

(* ===================================================================== *)
(** ** More on the graph repository: round trips and invariants *)
(* ===================================================================== *)

Module RepositoryMore.

Import PyFacts ModelsFacts Repository.

#[local] Arguments __primarykey__ : simpl never.
#[local] Arguments __primarylabel__ : simpl never.

Lemma find_split {A} (p : A -> bool) (ns : list A) (n : A) :
  List.find p ns = Some n ->
  exists l1 l2, ns = l1 ++ n :: l2 /\ List.find p l1 = None /\ p n = true.
Proof.
  induction ns as [ | m ns IH]; simpl; intros H.
  - discriminate.
  - destruct (p m) eqn:Hm.
    + inversion H; subst. exists [], ns. auto.
    + destruct (IH H) as (l1 & l2 & -> & Hl1 & Hn).
      exists (m :: l1), l2. simpl. rewrite Hm. auto.
Qed.

Lemma set_first_split (p : Node -> bool) (props : dict) (l1 l2 : list Node)
  (n : Node) :
  List.find p l1 = None -> p n = true ->
  set_first p props (l1 ++ n :: l2)
  = Some (identity n, l1 ++ mkNode (identity n) (label n) props :: l2).
Proof.
  intros Hl1 Hn. induction l1 as [ | m l1 IH]; simpl in *.
  - now rewrite Hn.
  - destruct (p m); [discriminate | ]. now rewrite (IH Hl1).
Qed.

Lemma set_first_none_find (p : Node -> bool) (props : dict)
  (ns : list Node) :
  set_first p props ns = None -> List.find p ns = None.
Proof.
  induction ns as [ | n ns IH]; simpl; intros H.
  - reflexivity.
  - destruct (p n); [discriminate | ].
    destruct (set_first p props ns) as [[i l] | ]; [discriminate | auto].
Qed.

Lemma find_none_filter {A} (p : A -> bool) (ns : list A) :
  List.find p ns = None -> filter p ns = [].
Proof.
  induction ns as [ | n ns IH]; simpl; intros H.
  - reflexivity.
  - destruct (p n); [discriminate | auto].
Qed.

(** The two outcomes of the upsert. *)
Lemma merge_cases (lbl key : string) (props : dict) (g : Graph) :
  let p := node_matches (Some lbl) [PropEq key (property_get key props)] in
  (exists l1 n l2,
     nodes g = l1 ++ n :: l2 /\ List.find p l1 = None /\ p n = true
     /\ merge lbl key props g
        = (Ok (identity n),
           mkGraph (l1 ++ mkNode (identity n) lbl props :: l2)
             (next_identity g)
             (journal g ++ [OpMerge lbl key props])))
  \/ (List.find p (nodes g) = None
      /\ merge lbl key props g
         = (Ok (next_identity g),
            mkGraph (nodes g ++ [mkNode (next_identity g) lbl props])
              (S (next_identity g))
              (journal g ++ [OpMerge lbl key props]))).
Proof.
  intros p. unfold merge. fold p.
  destruct (List.find p (nodes g)) as [n | ] eqn:Hfind.
  - left. destruct (find_split _ _ Hfind) as (l1 & l2 & Hns & Hl1 & Hn).
    exists l1, n, l2. repeat split; auto.
    rewrite Hns, (@set_first_split p props l1 l2 n Hl1 Hn).
    assert (Hl : label n = lbl) by (eapply node_matches_label; exact Hn).
    now rewrite Hl.
  - right. split; [reflexivity | ].
    now rewrite (set_first_none _ _ _ Hfind).
Qed.

(** After the upsert, the lookup by the key finds the node that was
    written. *)
Lemma merge_then_find (lbl key : string) (props : dict) (g g' : Graph)
  (i : nat) :
  property_get key props <> VNone ->
  merge lbl key props g = (Ok i, g') ->
  List.find (node_matches (Some lbl) [PropEq key (property_get key props)])
    (nodes g')
  = Some (mkNode i lbl props)
  /\ List.length (nodes g')
     = List.length (nodes g)
       + match List.find
                 (node_matches (Some lbl)
                    [PropEq key (property_get key props)]) (nodes g) with
         | Some _ => 0
         | None => 1
         end.
Proof.
  intros Hv Hrun.
  assert (Hnew : forall j,
            node_matches (Some lbl) [PropEq key (property_get key props)]
              (mkNode j lbl props) = true).
  { intros j. unfold node_matches. cbn [label properties forallb holds].
    now rewrite String.eqb_refl, (cypher_eq_refl Hv). }
  destruct (merge_cases lbl key props g)
    as [(l1 & n & l2 & Hns & Hl1 & Hn & Hm) | [Hfind Hm]];
    rewrite Hm in Hrun; inversion Hrun; subst; cbn [nodes].
  - split.
    + rewrite find_app, Hl1. cbn [List.find]. now rewrite Hnew.
    + rewrite Hns, find_app, Hl1. cbn [List.find]. rewrite Hn.
      rewrite !length_app. cbn [List.length]. lia.
  - split.
    + rewrite find_app, Hfind. cbn [List.find]. now rewrite Hnew.
    + rewrite Hfind, length_app. reflexivity.
Qed.

(** [create] once the primary key is in the dictionary, as an upsert. *)
Lemma create_as_merge (cls : model) (attributes : dict) (g : Graph) :
  dict_contains (__primarykey__ cls) attributes = true ->
  let props := node_properties (copy_attributes (new cls) attributes) in
  exists i g',
    merge (__primarylabel__ cls) (__primarykey__ cls) props g = (Ok i, g')
    /\ create cls attributes g = (Ok (mkObject cls (Some i) props []), g').
Proof.
  intros Hpk props. unfold create. rewrite Hpk. cbn [negb].
  pose proof (class_of_copy_attributes attributes (new cls)) as Hc.
  pose proof (identity_copy_attributes attributes (new cls)) as Hi.
  pose proof (related_copy_attributes attributes (new cls)) as Hr.
  subst props.
  destruct (copy_attributes (new cls) attributes) as [c oi props rel].
  cbn in Hc, Hi, Hr. subst c oi rel.
  unfold graph_create, bind, ret.
  cbn [node_identity class_of node_properties related].
  destruct (merge (__primarylabel__ cls) (__primarykey__ cls) props g)
    as [[i | e] g'] eqn:Hm.
  - exists i, g'. auto.
  - exfalso. unfold merge in Hm.
    destruct (set_first _ _ _) as [[j ns] | ]; discriminate.
Qed.

Lemma merge_written (lbl key : string) (props : dict) (g g' : Graph)
  (i : nat) :
  merge lbl key props g = (Ok i, g') -> In (mkNode i lbl props) (nodes g').
Proof.
  intros Hrun.
  destruct (merge_cases lbl key props g)
    as [(l1 & n & l2 & _ & _ & _ & Hm) | [_ Hm]];
    rewrite Hm in Hrun; inversion Hrun; subst; cbn [nodes];
    apply in_or_app; right; now left.
Qed.

Lemma dict_contains_set (k k0 : string) (v : value) (d : dict) :
  dict_contains k (dict_set k0 v d) = String.eqb k k0 || dict_contains k d.
Proof.
  induction d as [ | [k' v'] d IH]; simpl.
  - now rewrite Bool.orb_false_r.
  - destruct (String.eqb_spec k0 k') as [-> | Hne]; simpl.
    + now destruct (String.eqb k k').
    + rewrite IH. destruct (String.eqb k k0), (String.eqb k k'); reflexivity.
Qed.

Lemma dict_contains_merge (k : string) (a b : dict) :
  dict_contains k a = true -> dict_contains k (dict_merge a b) = true.
Proof.
  unfold dict_merge. revert a.
  induction b as [ | [k' v'] b IH]; simpl; intros a Ha.
  - assumption.
  - apply IH. rewrite dict_contains_set, Ha. apply Bool.orb_true_r.
Qed.

(** [get_or_create] on a key that is not [None]: the lookup, then either
    the object found or [create] on the key merged with the attributes. *)
Lemma get_or_create_unfold (cls : model) (k : value)
  (attributes : option dict) (g : Graph) :
  k <> VNone ->
  let p := node_matches (Some (__primarylabel__ cls))
             [PropEq (__primarykey__ cls) k] in
  let g0 := mkGraph (nodes g) (next_identity g)
              (journal g
               ++ [OpMatch (Some (__primarylabel__ cls))
                     [PropEq (__primarykey__ cls) k]]) in
  get_or_create cls k attributes g
  = match List.find p (nodes g) with
    | Some n => (Ok (wrap cls n), g0)
    | None =>
        create cls
          match attributes with
          | Some a => dict_merge [(__primarykey__ cls, k)] a
          | None => [(__primarykey__ cls, k)]
          end g0
    end.
Proof.
  intros Hk p g0. unfold get_or_create.
  destruct k; try contradiction; unfold bind; rewrite get_run;
    cbn [map fst snd]; fold p;
    destruct (List.find p (nodes g)); reflexivity.
Qed.

(** X1. Round trip of [create] and [get]: an object created from a
    dictionary whose primary key is [v] is what [get] returns for [v] on
    the graph [create] left, the same node with the same properties. *)
Theorem create_then_get (cls : model) (attributes : dict) (v : value)
  (g : Graph) :
  wf_dict attributes ->
  dict_lookup (__primarykey__ cls) attributes = Some v ->
  v <> VNone ->
  exists obj g',
    create cls attributes g = (Ok obj, g')
    /\ fst (get cls [(__primarykey__ cls, v)] g') = Ok (Some obj).
Proof.
  intros Hwf Hlook Hv.
  assert (Hpk : dict_contains (__primarykey__ cls) attributes = true)
    by now rewrite dict_contains_lookup, Hlook.
  destruct (create_as_merge cls attributes g Hpk) as (i & g' & Hm & Hc).
  pose proof (copy_attributes_primarykey (new cls) Hwf Hlook) as Hval.
  cbn [class_of new] in Hval.
  eexists. exists g'. split; [exact Hc | ].
  rewrite get_run. cbn [fst map snd].
  apply merge_then_find in Hm; [ | now rewrite Hval].
  destruct Hm as [Hfind _]. rewrite Hval in Hfind. rewrite Hfind.
  reflexivity.
Qed.

Lemma create_then_get_witness :
  wf_dict [("id", VInt 5); ("name", VStr "Martin")]
  /\ exists obj g',
       create User [("id", VInt 5); ("name", VStr "Martin")] small_graph
       = (Ok obj, g')
       /\ fst (get User [("id", VInt 5)] g') = Ok (Some obj).
Proof.
  assert (Hwf : wf_dict [("id", VInt 5); ("name", VStr "Martin")]).
  { unfold wf_dict. simpl. repeat constructor; simpl; intuition discriminate. }
  split; [exact Hwf | ].
  apply (@create_then_get User [("id", VInt 5); ("name", VStr "Martin")]
           (VInt 5) small_graph Hwf).
  - reflexivity.
  - discriminate.
Defined.

(** What [get_or_create] leaves behind: the lookup by the key finds the
    node of the object it returned. *)
Lemma get_or_create_found (cls : model) (k : value) (g : Graph) :
  k <> VNone ->
  exists n g1,
    get_or_create cls k None g = (Ok (wrap cls n), g1)
    /\ List.find (node_matches (Some (__primarylabel__ cls))
                    [PropEq (__primarykey__ cls) k]) (nodes g1) = Some n.
Proof.
  intros Hk. rewrite (get_or_create_unfold cls None g Hk).
  destruct (List.find _ (nodes g)) as [n | ] eqn:Hfind.
  - exists n. eexists. split; [reflexivity | exact Hfind].
  - assert (Hpk : dict_contains (__primarykey__ cls)
                    [(__primarykey__ cls, k)] = true)
      by (cbn; now rewrite String.eqb_refl).
    match goal with
    | |- exists n g1, create _ _ ?gg = _ /\ _ =>
        destruct (create_as_merge cls [(__primarykey__ cls, k)] gg Hpk)
          as (i & g' & Hm & Hc)
    end.
    assert (Hwf : wf_dict [(__primarykey__ cls, k)]).
    { unfold wf_dict. simpl. constructor; [intros [] | constructor]. }
    assert (Hlook : dict_lookup (__primarykey__ cls)
                      [(__primarykey__ cls, k)] = Some k)
      by (cbn; now rewrite String.eqb_refl).
    pose proof (copy_attributes_primarykey (new cls) Hwf Hlook) as Hval.
    cbn [class_of new] in Hval.
    apply merge_then_find in Hm; [ | now rewrite Hval].
    destruct Hm as [Hf _]. rewrite Hval in Hf.
    exists (mkNode i (__primarylabel__ cls)
              (node_properties
                 (copy_attributes (new cls) [(__primarykey__ cls, k)]))), g'.
    split; [exact Hc | exact Hf].
Qed.

(** X2. A node created as a stub by [get_or_create] is reused when the
    full record arrives: [create] with the same primary key binds to the
    node of the stub, adds no node, and the lookup by the key then
    returns the object with the properties of the record. *)
Theorem get_or_create_then_create (cls : model) (k : value)
  (attributes : dict) (g : Graph) :
  k <> VNone ->
  wf_dict attributes ->
  dict_lookup (__primarykey__ cls) attributes = Some k ->
  exists stub g1 obj g2,
    get_or_create cls k None g = (Ok stub, g1)
    /\ create cls attributes g1 = (Ok obj, g2)
    /\ node_identity obj = node_identity stub
    /\ List.length (nodes g2) = List.length (nodes g1)
    /\ fst (get cls [(__primarykey__ cls, k)] g2) = Ok (Some obj).
Proof.
  intros Hk Hwf Hlook.
  destruct (get_or_create_found cls g Hk) as (n & g1 & Hstub & Hfind).
  assert (Hpk : dict_contains (__primarykey__ cls) attributes = true)
    by now rewrite dict_contains_lookup, Hlook.
  destruct (create_as_merge cls attributes g1 Hpk) as (i & g2 & Hm & Hc).
  pose proof (copy_attributes_primarykey (new cls) Hwf Hlook) as Hval.
  cbn [class_of new] in Hval.
  exists (wrap cls n), g1. eexists. exists g2.
  split; [exact Hstub | ]. split; [exact Hc | ].
  pose proof Hm as Hm'.
  apply merge_then_find in Hm'; [ | now rewrite Hval].
  rewrite Hval in Hm'. destruct Hm' as [Hf Hlen]. rewrite Hfind in Hlen.
  split.
  - (* the upsert wrote the node the lookup finds first *)
    destruct (merge_cases (__primarylabel__ cls) (__primarykey__ cls)
                (node_properties (copy_attributes (new cls) attributes)) g1)
      as [(l1 & m & l2 & Hns & Hl1 & Hpm & Hrun) | [Hnone _]].
    + rewrite Hrun in Hm. inversion Hm; subst i.
      rewrite Hval in Hl1, Hpm.
      rewrite Hns, find_app, Hl1 in Hfind. cbn [List.find] in Hfind.
      rewrite Hpm in Hfind. inversion Hfind; subst. reflexivity.
    + rewrite Hval, Hfind in Hnone. discriminate.
  - split; [lia | ].
    rewrite get_run. cbn [fst map snd]. rewrite Hf. reflexivity.
Qed.

Lemma get_or_create_then_create_witness :
  exists stub g1 obj g2,
    get_or_create Commit (VStr "6104942438c1") None small_graph
    = (Ok stub, g1)
    /\ create Commit [("id", VStr "6104942438c1"); ("title", VStr "Fix typo")]
         g1 = (Ok obj, g2)
    /\ node_identity obj = node_identity stub
    /\ List.length (nodes g2) = List.length (nodes g1)
    /\ fst (get Commit [("id", VStr "6104942438c1")] g2) = Ok (Some obj).
Proof.
  apply (@get_or_create_then_create Commit (VStr "6104942438c1")
           [("id", VStr "6104942438c1"); ("title", VStr "Fix typo")]
           small_graph).
  - discriminate.
  - unfold wf_dict. simpl. repeat constructor; simpl; intuition discriminate.
  - reflexivity.
Defined.

(** X3. [get_or_create] with a key and nothing else, as the pipeline of
    commits calls it for the parents.  Without a key it raises
    [NeoGraphObjectException] and touches nothing.  With a string, or an
    integer the database can hold, it returns an object of the class that
    is bound to a node of the graph; the node carries the label of the
    class, the properties of the object, and the key. *)
Theorem get_or_create_succeeds (cls : model) (k : value) (g : Graph) :
  storable_key k ->
  (forall attributes,
     get_or_create cls VNone attributes g
     = (Raise (NeoGraphObjectException "Primary key missing"), g))
  /\ exists obj g',
       get_or_create cls k None g = (Ok obj, g')
       /\ class_of obj = cls
       /\ exists n, In n (nodes g')
                    /\ node_identity obj = Some (identity n)
                    /\ label n = __primarylabel__ cls
                    /\ properties n = node_properties obj
                    /\ property_get (__primarykey__ cls) (properties n) = k.
Proof.
  intros Hkey. split; [reflexivity | ].
  assert (Hk : k <> VNone) by (intros ->; exact Hkey).
  rewrite (get_or_create_unfold cls None g Hk).
  destruct (List.find _ (nodes g)) as [n | ] eqn:Hfind.
  - eexists. eexists. split; [reflexivity | ]. split; [reflexivity | ].
    apply find_some in Hfind. destruct Hfind as [Hin Hp].
    exists n. cbn [nodes wrap node_identity node_properties].
    split; [exact Hin | ]. split; [reflexivity | ].
    split; [eapply node_matches_label; exact Hp | ].
    split; [reflexivity | ]. eapply node_matches_eq. exact Hp.
  - match goal with
    | |- exists obj g', create _ ?attrs ?gg = _ /\ _ =>
        destruct (@create_present cls attrs k gg)
          as (i & g' & Hc & Hpk & n & Hin & Hi & Hl & Hprops)
    end.
    + unfold wf_dict. cbn. repeat constructor. intros [].
    + cbn. now rewrite String.eqb_refl.
    + eexists. exists g'. split; [exact Hc | ]. split; [reflexivity | ].
      exists n. cbn [node_identity node_properties].
      split; [exact Hin | ]. split; [now rewrite Hi | ].
      split; [exact Hl | ]. split; [exact Hprops | ].
      rewrite Hprops. exact Hpk.
Qed.

Lemma get_or_create_succeeds_witness :
  storable_key (VStr "6104942438c1")
  /\ (forall attributes,
        get_or_create Commit VNone attributes small_graph
        = (Raise (NeoGraphObjectException "Primary key missing"), small_graph))
  /\ exists obj g',
       get_or_create Commit (VStr "6104942438c1") None small_graph
       = (Ok obj, g')
       /\ class_of obj = Commit
       /\ exists n, In n (nodes g')
                    /\ node_identity obj = Some (identity n)
                    /\ label n = __primarylabel__ Commit
                    /\ properties n = node_properties obj
                    /\ property_get (__primarykey__ Commit) (properties n)
                       = VStr "6104942438c1".
Proof.
  split; [exact I | ].
  exact (@get_or_create_succeeds Commit (VStr "6104942438c1") small_graph I).
Defined.

Lemma filter_app_length {A} (p : A -> bool) (l1 l2 : list A) :
  List.length (filter p (l1 ++ l2))
  = List.length (filter p l1) + List.length (filter p l2).
Proof. now rewrite filter_app, length_app. Qed.

(** The upsert keeps the primary keys apart. *)
Lemma merge_unique_keys (lbl : string) (props : dict) (g : Graph) :
  unique_keys g -> unique_keys (snd (merge lbl "id" props g)).
Proof.
  intros Huniq l v. specialize (Huniq l v).
  destruct (merge_cases lbl "id" props g)
    as [(l1 & n & l2 & Hns & Hl1 & Hn & Hm) | [Hfind Hm]];
    rewrite Hm; cbn [snd nodes].
  - (* a node is rewritten: it answers to the same keys as before *)
    assert (Hsame : keyed l v (mkNode (identity n) lbl props) = keyed l v n).
    { unfold keyed, node_matches. cbn [label properties forallb holds].
      assert (Hl : label n = lbl) by (eapply node_matches_label; exact Hn).
      apply node_matches_eq in Hn. now rewrite Hl, Hn. }
    rewrite Hns in Huniq.
    rewrite filter_app_length in *. cbn [filter] in *.
    rewrite Hsame. destruct (keyed l v n); exact Huniq.
  - (* a node is added: nothing answered to its key *)
    rewrite filter_app_length. cbn [filter].
    destruct (keyed l v (mkNode (next_identity g) lbl props)) eqn:Hk;
      cbn [List.length]; [ | lia].
    unfold keyed in Hk.
    assert (Hl : lbl = l).
    { apply node_matches_label in Hk. exact Hk. }
    apply node_matches_eq in Hk. cbn [properties] in Hk.
    assert (Hnone : filter (keyed l v) (nodes g) = []).
    { apply find_none_filter. unfold keyed. now rewrite <- Hl, <- Hk. }
    rewrite Hnone. cbn. lia.
Qed.

(** X4. The invariant of the repository: when no two nodes of a label
    share a primary key, this is still so after [get], after [create] and
    after [get_or_create], with any arguments and whether they return or
    raise. *)
Theorem repository_keeps_unique_keys (cls : model) (filters attributes : dict)
  (pk : value) (optional : option dict) (g : Graph) :
  unique_keys g ->
  unique_keys (snd (get cls filters g))
  /\ unique_keys (snd (create cls attributes g))
  /\ unique_keys (snd (get_or_create cls pk optional g)).
Proof.
  intros Huniq.
  assert (Hjournal : forall g0 js,
            unique_keys g0 ->
            unique_keys (mkGraph (nodes g0) (next_identity g0) js))
    by (intros g0 js H l v; exact (H l v)).
  assert (Hcreate : forall g0 attrs,
            unique_keys g0 -> unique_keys (snd (create cls attrs g0))).
  { intros g0 attrs H0.
    destruct (dict_contains (__primarykey__ cls) attrs) eqn:Hpk.
    - destruct (create_as_merge cls attrs g0 Hpk) as (i & g' & Hm & Hc).
      rewrite Hc. cbn [snd].
      pose proof (merge_unique_keys (__primarylabel__ cls)
                    (node_properties (copy_attributes (new cls) attrs)) H0)
        as Hmu.
      change "id" with (__primarykey__ cls) in Hmu.
      now rewrite Hm in Hmu.
    - unfold create. rewrite Hpk. exact H0. }
  split; [rewrite get_run; now apply Hjournal | ].
  split; [now apply Hcreate | ].
  destruct (value_eqb pk VNone) eqn:Hnone.
  - apply value_eqb_eq in Hnone. subst pk. exact Huniq.
  - assert (Hpk : pk <> VNone) by (intros ->; discriminate).
    rewrite (get_or_create_unfold cls optional g Hpk).
    destruct (List.find _ (nodes g)).
    + now apply Hjournal.
    + apply Hcreate. now apply Hjournal.
Qed.

Lemma repository_keeps_unique_keys_witness :
  unique_keys small_graph
  /\ unique_keys (snd (get User [("id", VInt 5)] small_graph))
  /\ unique_keys
       (snd (create User [("id", VInt 5); ("name", VStr "Martin S.")]
               small_graph))
  /\ unique_keys
       (snd (get_or_create User (VInt 9) (Some [("name", VStr "Guest")])
               small_graph)).
Proof.
  assert (H : unique_keys small_graph).
  { intros l v. cbn [small_graph nodes filter].
    destruct (keyed l v (mkNode 0 _ _)) eqn:E1;
      destruct (keyed l v (mkNode 1 _ _)) eqn:E2; cbn [List.length];
      try lia.
    exfalso. unfold keyed in E1, E2.
    apply node_matches_label in E1. apply node_matches_label in E2.
    cbn in E1, E2. congruence. }
  split; [exact H | ].
  exact (@repository_keeps_unique_keys User [("id", VInt 5)]
           [("id", VInt 5); ("name", VStr "Martin S.")] (VInt 9)
           (Some [("name", VStr "Guest")]) small_graph H).
Defined.

Lemma In_dict_set (k k0 : string) (v v0 : value) (d : dict) :
  In (k, v) (dict_set k0 v0 d) -> (k, v) = (k0, v0) \/ In (k, v) d.
Proof.
  induction d as [ | [k' v'] d IH]; simpl.
  - intros [H | []]. left. now inversion H.
  - destruct (String.eqb_spec k0 k') as [-> | Hne]; simpl.
    + intros [H | H]; [left; now inversion H | auto].
    + intros [H | H]; [auto | ]. destruct (IH H); auto.
Qed.

Lemma In_dict_del (k k0 : string) (v : value) (d : dict) :
  In (k, v) (dict_del k0 d) -> In (k, v) d.
Proof.
  induction d as [ | [k' v'] d IH]; simpl.
  - auto.
  - destruct (String.eqb k0 k'); simpl; intuition.
Qed.

(** Every property the loop of [create] leaves on the node was written
    there by an entry of the dictionary through a declared property. *)
Lemma copy_attributes_origin (all attributes : dict) (o : GraphObject)
  (k : string) (v : value) :
  (forall kv, In kv attributes -> In kv all) ->
  (forall k0 v0, In (k0, v0) (node_properties o) ->
     v0 <> VNone
     /\ exists attr, In (attr, v0) all
          /\ descriptor_of attr (declared (class_of o)) = Some (Property k0)) ->
  In (k, v) (node_properties (copy_attributes o attributes)) ->
  v <> VNone
  /\ exists attr, In (attr, v) all
       /\ descriptor_of attr (declared (class_of o)) = Some (Property k).
Proof.
  revert o. induction attributes as [ | [a x] rest IH];
    cbn [copy_attributes]; intros o Hsub Hinv Hin.
  - now apply Hinv.
  - assert (Hrest : forall kv, In kv rest -> In kv all)
      by (intros kv H; apply Hsub; now right).
    unfold hasattr, is_related_objects in Hin.
    destruct (descriptor_of a (declared (class_of o)))
      as [[key | ? ? | ? ?] | ] eqn:Hd; cbn [andb negb] in Hin;
      try (now apply (IH o Hrest Hinv)).
    assert (Hset : setattr o a x
                   = mkObject (class_of o) (node_identity o)
                       (property_set key x (node_properties o)) (related o))
      by (unfold setattr; now rewrite Hd).
    rewrite Hset in Hin.
    apply (IH _ Hrest) in Hin; [exact Hin | ].
    cbn [class_of node_properties]. intros k0 v0 H0.
    unfold property_set in H0.
    assert (Hor : (k0 = key /\ v0 = x /\ x <> VNone)
                  \/ In (k0, v0) (node_properties o)).
    { destruct x; try (apply In_dict_set in H0;
                       destruct H0 as [H0 | H0];
                       [left; inversion H0; repeat split; discriminate
                       | now right]).
      right. now apply In_dict_del in H0. }
    destruct Hor as [(-> & -> & Hx) | Hold]; [ | now apply Hinv].
    split; [exact Hx | ]. exists a. split; [ | exact Hd].
    apply Hsub. now left.
Qed.

(** X5. What [create] never stores: every property of the object it
    returns has a value other than [None], and this value is the value of
    an entry of the dictionary whose name is declared, in the class, as a
    property stored under this key.  Entries that name a relationship or
    nothing declared leave no trace. *)
Theorem create_stores_declared_only (cls : model) (attributes : dict)
  (g g' : Graph) (obj : GraphObject) (k : string) (v : value) :
  create cls attributes g = (Ok obj, g') ->
  In (k, v) (node_properties obj) ->
  v <> VNone
  /\ exists attr,
       In (attr, v) attributes
       /\ descriptor_of attr (declared cls) = Some (Property k).
Proof.
  intros Hrun Hin.
  destruct (dict_contains (__primarykey__ cls) attributes) eqn:Hpk.
  - destruct (create_as_merge cls attributes g Hpk) as (i & g0 & _ & Hc).
    rewrite Hc in Hrun. inversion Hrun; subst. cbn [node_properties] in Hin.
    apply (@copy_attributes_origin attributes attributes (new cls) k v);
      auto.
    cbn. intros k0 v0 [].
  - unfold create in Hrun. rewrite Hpk in Hrun. discriminate.
Qed.

Lemma create_stores_declared_only_witness :
  (let attributes :=
     [("id", VInt 11); ("iid", VInt 42); ("labels", VList [VStr "bug"]);
      ("closed_by", VDict [("id", VInt 5)]); ("due_date", VNone);
      ("closed_at", VStr "2019-06-01T08:30:00Z")] in
   let obj :=
     mkObject Issue (Some 0)
       [("id", VInt 11); ("iid", VInt 42);
        ("updated_at", VStr "2019-06-01T08:30:00Z")] [] in
   create Issue attributes empty_graph
   = (Ok obj, snd (create Issue attributes empty_graph))
   /\ In ("updated_at", VStr "2019-06-01T08:30:00Z") (node_properties obj)
   /\ (VStr "2019-06-01T08:30:00Z" <> VNone
       /\ exists attr,
            In (attr, VStr "2019-06-01T08:30:00Z") attributes
            /\ descriptor_of attr (declared Issue)
               = Some (Property "updated_at"))).
Proof.
  cbv zeta.
  assert (Hrun :
    create Issue
      [("id", VInt 11); ("iid", VInt 42); ("labels", VList [VStr "bug"]);
       ("closed_by", VDict [("id", VInt 5)]); ("due_date", VNone);
       ("closed_at", VStr "2019-06-01T08:30:00Z")] empty_graph
    = (Ok (mkObject Issue (Some 0)
             [("id", VInt 11); ("iid", VInt 42);
              ("updated_at", VStr "2019-06-01T08:30:00Z")] []),
       snd (create Issue
              [("id", VInt 11); ("iid", VInt 42);
               ("labels", VList [VStr "bug"]);
               ("closed_by", VDict [("id", VInt 5)]); ("due_date", VNone);
               ("closed_at", VStr "2019-06-01T08:30:00Z")] empty_graph)))
    by (vm_compute; reflexivity).
  assert (Hin : In ("updated_at", VStr "2019-06-01T08:30:00Z")
                  [("id", VInt 11); ("iid", VInt 42);
                   ("updated_at", VStr "2019-06-01T08:30:00Z")])
    by (simpl; auto).
  split; [exact Hrun | ]. split; [exact Hin | ].
  exact (@create_stores_declared_only _ _ _ _ _ _ _ Hrun Hin).
Defined.

Lemma aliases_of_classes (c : model) :
  aliases c = match c with
              | Issue | MergeRequest => [("closed_at", "updated_at")]
              | AwardEmoji => [("updated_at", "created_at")]
              | _ => []
              end.
Proof. destruct c; vm_compute; reflexivity. Qed.

Lemma unaliased_by_aliases (c : model) (key : string) :
  ~ In key (map snd (aliases c)) -> unaliased c key = true.
Proof.
  intros Hnot. unfold unaliased. apply forallb_forall.
  intros [a d] Hin. cbn [fst snd].
  destruct d as [k | ? ? | ? ?]; try reflexivity.
  destruct (String.eqb_spec k key) as [-> | Hne]; [ | reflexivity].
  cbn [negb orb].
  destruct (String.eqb_spec a key) as [ | Hak]; [reflexivity | ].
  exfalso. apply Hnot. apply in_map_iff. exists (a, key). split; [reflexivity | ].
  unfold aliases. apply in_flat_map. exists (a, Property key).
  split; [exact Hin | ]. cbn [fst snd].
  destruct (String.eqb_spec key a) as [-> | ]; [contradiction | now left].
Qed.

(** X6. On every class, [create] copies an entry to the property of its
    name whenever the class declares this property under its own name and
    no other attribute is declared to write it.  The attributes that
    write a property of another name are [closed_at] (into [updated_at])
    on [Issue] and [MergeRequest] and [updated_at] (into [created_at]) on
    [AwardEmoji]; a declared property the dictionary does not mention
    stays unset. *)
Theorem create_copies_property (cls : model) (attributes : dict)
  (key : string) (g : Graph) :
  wf_dict attributes ->
  dict_contains (__primarykey__ cls) attributes = true ->
  descriptor_of key (declared cls) = Some (Property key) ->
  ~ In key (map snd (aliases cls)) ->
  exists obj g',
    create cls attributes g = (Ok obj, g')
    /\ getattr obj key = dict_get key attributes
    /\ (forall c, aliases c = match c with
                              | Issue | MergeRequest =>
                                  [("closed_at", "updated_at")]
                              | AwardEmoji => [("updated_at", "created_at")]
                              | _ => []
                              end).
Proof.
  intros Hwf Hpk Hkey Hnot.
  destruct (create_as_merge cls attributes g Hpk) as (i & g' & _ & Hc).
  eexists. exists g'. split; [exact Hc | ].
  split; [ | exact aliases_of_classes].
  unfold getattr. cbn [class_of node_properties]. rewrite Hkey.
  rewrite (@copy_attributes_unaliased attributes (new cls) key
             (unaliased_by_aliases cls key Hnot) Hkey Hwf).
  cbn [node_properties new]. unfold dict_get.
  now destruct (dict_lookup key attributes).
Qed.

Lemma create_copies_property_witness :
  wf_dict [("id", VInt 900); ("source_branch", VStr "42-fix-bug");
           ("closed_at", VNone)]
  /\ exists obj g',
       create MergeRequest
         [("id", VInt 900); ("source_branch", VStr "42-fix-bug");
          ("closed_at", VNone)] empty_graph = (Ok obj, g')
       /\ getattr obj "source_branch"
          = dict_get "source_branch"
              [("id", VInt 900); ("source_branch", VStr "42-fix-bug");
               ("closed_at", VNone)]
       /\ (forall c, aliases c = match c with
                                 | Issue | MergeRequest =>
                                     [("closed_at", "updated_at")]
                                 | AwardEmoji =>
                                     [("updated_at", "created_at")]
                                 | _ => []
                                 end).
Proof.
  assert (Hwf : wf_dict [("id", VInt 900); ("source_branch", VStr "42-fix-bug");
                         ("closed_at", VNone)]).
  { unfold wf_dict. simpl. repeat constructor; simpl; intuition discriminate. }
  split; [exact Hwf | ].
  apply (@create_copies_property MergeRequest _ "source_branch" empty_graph
           Hwf).
  - reflexivity.
  - reflexivity.
  - vm_compute. intuition discriminate.
Defined.

End RepositoryMore.

(* ===================================================================== *)
(** ** More on [CommitPipeline.transform_data]: what it adds, what it
       leaves alone *)
(* ===================================================================== *)

Module CommitMore.

Import PyFacts ModelsFacts Repository RepositoryMore MergeRequestFacts.
Import CommitPipeline CommitProperties.

Lemma untouched_refl (lbl : string) (g : Graph) : untouched_except lbl g g.
Proof. intros n _. reflexivity. Qed.

Lemma untouched_trans (lbl : string) (g1 g2 g3 : Graph) :
  untouched_except lbl g1 g2 -> untouched_except lbl g2 g3 ->
  untouched_except lbl g1 g3.
Proof.
  intros H12 H23 n Hl. rewrite (H23 n Hl). now apply H12.
Qed.

Lemma untouched_journal (lbl : string) (g : Graph) (js : list operation) :
  untouched_except lbl g (mkGraph (nodes g) (next_identity g) js).
Proof. intros n _. reflexivity. Qed.

(** The operations of the repository touch the nodes of their class
    only. *)
Lemma create_untouched (cls : model) (attributes : dict) (g : Graph) :
  untouched_except (__primarylabel__ cls) g (snd (create cls attributes g)).
Proof.
  destruct (create cls attributes g) as [[obj | e] g'] eqn:Hrun; cbn [snd].
  - intros n Hl. eapply create_keeps_other_nodes; eauto.
  - unfold create in Hrun.
    destruct (negb (dict_contains (__primarykey__ cls) attributes)).
    + inversion Hrun; subst. apply untouched_refl.
    + destruct (graph_create_spec (copy_attributes (new cls) attributes) g)
        as (i & g0 & Hg).
      rewrite Hg in Hrun. discriminate.
Qed.

Lemma get_or_create_untouched (cls : model) (k : value)
  (attributes : option dict) (g : Graph) :
  untouched_except (__primarylabel__ cls) g
    (snd (get_or_create cls k attributes g)).
Proof.
  destruct (value_eqb k VNone) eqn:Hnone.
  - apply value_eqb_eq in Hnone. subst k. apply untouched_refl.
  - assert (Hk : k <> VNone) by (intros ->; discriminate).
    rewrite (get_or_create_unfold cls attributes g Hk).
    destruct (List.find _ (nodes g)); cbn [snd].
    + apply untouched_journal.
    + eapply untouched_trans; [apply untouched_journal | ].
      apply create_untouched.
Qed.

Lemma find_user_nodes (name : value) (g : Graph) :
  nodes (snd (_find_user name g)) = nodes g.
Proof.
  assert (Hgen : forall v, v <> VNone ->
            nodes (snd ((node <- find User [PropContains "name" v] ;;
                         node <- match node with
                                 | Some n => ret (Some n)
                                 | None =>
                                     surname <- surname_of v ;;
                                     find User [PropContains "name" surname]
                                 end ;;
                         match node with
                         | Some n => ret (Some (wrap User n))
                         | None => ret None
                         end) g)) = nodes g).
  { intros v _. unfold find, match_first, bind, ret.
    destruct (List.find _ (nodes g)); cbn; [reflexivity | ].
    unfold surname_of. destruct v; cbn; try reflexivity.
    unfold bind, last_item. destruct (rev (split s)); cbn; [reflexivity | ].
    now destruct (List.find _ (nodes g)). }
  destruct name; try (apply Hgen; discriminate). reflexivity.
Qed.

Lemma find_user_bound (name : value) (g : Graph) (o : GraphObject) :
  fst (_find_user name g) = Ok (Some o) -> node_identity o <> None.
Proof.
  assert (Hgen : forall v,
            fst ((node <- find User [PropContains "name" v] ;;
                  node <- match node with
                          | Some n => ret (Some n)
                          | None =>
                              surname <- surname_of v ;;
                              find User [PropContains "name" surname]
                          end ;;
                  match node with
                  | Some n => ret (Some (wrap User n))
                  | None => ret None
                  end) g) = Ok (Some o) -> node_identity o <> None).
  { intros v. unfold find, match_first, bind, ret.
    destruct (List.find _ (nodes g)); cbn.
    - intros H; inversion H; subst. cbn. discriminate.
    - unfold surname_of. destruct v; cbn; try discriminate.
      unfold bind, last_item. destruct (rev (split s)); cbn; [discriminate | ].
      destruct (List.find _ (nodes g)); cbn; intros H; inversion H; subst.
      cbn. discriminate. }
  destruct name; try apply Hgen. cbn. discriminate.
Qed.

Lemma update_bound (cls : model) (o : GraphObject) (attr : string)
  (target : option nat) :
  bound_to cls o -> bound_to cls (update o attr target).
Proof. intros [Hc Hi]. split; assumption. Qed.

Lemma create_bound (cls : model) (attributes : dict) (g : Graph)
  (o : GraphObject) :
  fst (create cls attributes g) = Ok o -> bound_to cls o.
Proof.
  unfold create.
  destruct (negb (dict_contains (__primarykey__ cls) attributes));
    [discriminate | ].
  destruct (graph_create_spec (copy_attributes (new cls) attributes) g)
    as (i & g0 & Hg).
  rewrite Hg. cbn [fst]. intros H. inversion H; subst. split.
  - cbn [class_of]. apply class_of_copy_attributes.
  - cbn [node_identity]. discriminate.
Qed.

Lemma get_or_create_bound (cls : model) (k : value)
  (attributes : option dict) (g : Graph) (o : GraphObject) :
  fst (get_or_create cls k attributes g) = Ok o -> bound_to cls o.
Proof.
  destruct (value_eqb k VNone) eqn:Hnone.
  - apply value_eqb_eq in Hnone. subst k. discriminate.
  - assert (Hk : k <> VNone) by (intros ->; discriminate).
    rewrite (get_or_create_unfold cls attributes g Hk).
    destruct (List.find _ (nodes g)); cbn [fst].
    + intros H. inversion H; subst. split; [reflexivity | discriminate].
    + apply create_bound.
Qed.

(** The steps of the loop compose. *)
Lemma keeps_ret {A} (a : A) (P : A -> Prop) : P a -> keeps (ret a) P.
Proof.
  intros Ha s. cbn. split; [ | split; [ | split]]; auto.
  - apply untouched_refl.
  - intros a0 H. now inversion H; subst.
Qed.

Lemma keeps_bind {A B} (m : M self A) (k : A -> M self B)
  (P : A -> Prop) (Q : B -> Prop) :
  keeps m P -> (forall a, P a -> keeps (k a) Q) -> keeps (bind m k) Q.
Proof.
  intros Hm Hk s. unfold bind.
  destruct (Hm s) as (Hc & Hl & Hu & Hp).
  destruct (m s) as [[a | e] s'] eqn:Hrun; cbn [fst snd] in *.
  - destruct (Hk a (Hp a eq_refl) s') as (Hc' & Hl' & Hu' & Hp').
    split; [congruence | split; [congruence | split]]; [ | exact Hp'].
    eapply untouched_trans; eauto.
  - cbn [fst snd]. split; [ | split; [ | split]]; auto. discriminate.
Qed.

Lemma keeps_on_graph {A} (m : M Graph A) (P : A -> Prop) :
  (forall g, untouched_except "Commit" g (snd (m g))) ->
  (forall g a, fst (m g) = Ok a -> P a) ->
  keeps (on_graph m) P.
Proof.
  intros Hu Hp s. unfold on_graph, zoom.
  specialize (Hu (graph s)). specialize (Hp (graph s)).
  destruct (m (graph s)) as [r g']. cbn in *.
  split; [ | split; [ | split]]; auto.
Qed.

Lemma keeps_iterate (v : value) : keeps (iterate v) (fun _ => True).
Proof.
  intros s.
  destruct v; cbn; (split; [ | split; [ | split]]); auto;
    apply untouched_refl.
Qed.

Lemma keeps_fold_each {A B} (xs : list A) (body : B -> A -> M self B)
  (P : B -> Prop) :
  (forall b x, P b -> keeps (body b x) P) ->
  forall b, P b -> keeps (fold_each xs body b) P.
Proof.
  intros Hbody. induction xs as [ | x xs IH]; intros b Hb; cbn [fold_each].
  - now apply keeps_ret.
  - eapply keeps_bind; [apply Hbody; exact Hb | ]. intros b' Hb'. now apply IH.
Qed.

Lemma find_user_untouched (name : value) (g : Graph) :
  untouched_except "Commit" g (snd (_find_user name g)).
Proof. intros n _. now rewrite find_user_nodes. Qed.

Lemma keeps_then_appends {A} (m : M self A) (k : A -> M self unit)
  (P : A -> Prop) (n : nat) :
  keeps m P -> (forall a, P a -> appends (S n) (k a)) ->
  appends (S n) (bind m k).
Proof.
  intros Hm Hk s. unfold bind.
  destruct (Hm s) as (Hc & Hl & Hu & Hp).
  destruct (m s) as [[a | e] s'] eqn:Hrun; cbn [fst snd] in *.
  - destruct (Hk a (Hp a eq_refl) s') as (Hc' & Hu' & ms & Hl' & Hms & Hn).
    split; [congruence | split]; [eapply untouched_trans; eauto | ].
    exists ms. split; [congruence | ]. split; assumption.
  - cbn [fst snd]. split; [assumption | split]; [assumption | ].
    exists []. rewrite app_nil_r. split; [assumption | ].
    split; [constructor | cbn; lia].
Qed.

Lemma append_appends (commit_model : GraphObject) :
  bound_to Commit commit_model ->
  appends 1
    (fun s =>
       (Ok tt,
        mkSelf (graph s) (commits s) (commit_model_list s ++ [commit_model]))).
Proof.
  intros Hb s. cbn. split; [reflexivity | split]; [apply untouched_refl | ].
  exists [commit_model]. split; [reflexivity | ].
  split; [ | reflexivity]. constructor; [exact Hb | constructor].
Qed.

Lemma transform_commit_appends (commit : RESTObject) :
  appends 1 (transform_commit commit).
Proof.
  unfold transform_commit.
  eapply keeps_then_appends with (P := bound_to Commit).
  { apply keeps_on_graph.
    - intros g. apply (create_untouched Commit).
    - intros g a. apply create_bound. }
  intros commit_model Hb.
  eapply keeps_then_appends with (P := fun _ => True).
  { apply keeps_on_graph; [apply find_user_untouched | auto]. }
  intros author _. cbv zeta.
  eapply keeps_then_appends with (P := fun _ => True).
  { apply keeps_on_graph; [apply find_user_untouched | auto]. }
  intros committer _. cbv zeta.
  eapply keeps_then_appends with (P := fun _ => True).
  { apply keeps_iterate. }
  intros parent_ids _.
  eapply keeps_then_appends with (P := bound_to Commit).
  { apply keeps_fold_each.
    - intros b x Hx.
      eapply keeps_bind with (P := bound_to Commit).
      + apply keeps_on_graph.
        * intros g. apply (get_or_create_untouched Commit).
        * intros g a. apply get_or_create_bound.
      + intros parent_commit _. apply keeps_ret. now apply update_bound.
    - destruct committer; destruct author;
        repeat apply update_bound; exact Hb. }
  intros commit_model' Hb'. now apply append_appends.
Qed.

Lemma for_each_appends (cs : list RESTObject) :
  appends (List.length cs) (for_each cs transform_commit).
Proof.
  induction cs as [ | c cs IH]; intros s; cbn [for_each List.length].
  - cbn. split; [reflexivity | split]; [apply untouched_refl | ].
    exists []. rewrite app_nil_r. repeat split. constructor.
  - unfold bind.
    destruct (transform_commit_appends c s) as (Hc & Hu & ms & Hl & Hms & Hn).
    destruct (transform_commit c s) as [[[] | e] s'] eqn:Hrun;
      cbn [fst snd] in *.
    + destruct (IH s') as (Hc' & Hu' & ms' & Hl' & Hms' & Hn').
      split; [congruence | split]; [eapply untouched_trans; eauto | ].
      exists (ms ++ ms'). split; [rewrite Hl', Hl; symmetry; apply app_assoc | ].
      split; [now apply Forall_app | ].
      rewrite length_app.
      destruct (fst (for_each cs transform_commit s')); lia.
    + cbn [fst snd]. split; [assumption | split]; [assumption | ].
      exists ms. split; [assumption | ]. split; [assumption | lia].
Qed.

Lemma create_model_of (commit : RESTObject) (g : Graph) (o : GraphObject) :
  fst (create Commit (attributes commit) g) = Ok o -> model_of commit o.
Proof.
  unfold create.
  destruct (negb (dict_contains (__primarykey__ Commit) (attributes commit)));
    [discriminate | ].
  destruct (graph_create_spec
              (copy_attributes (new Commit) (attributes commit)) g)
    as (i & g0 & Hg).
  rewrite Hg. cbn [fst]. intros H. inversion H; subst. split; [ | split].
  - cbn [class_of]. apply class_of_copy_attributes.
  - cbn [node_identity]. discriminate.
  - reflexivity.
Qed.

Lemma model_of_update (commit : RESTObject) (o : GraphObject) (attr : string)
  (target : option nat) :
  model_of commit o -> model_of commit (update o attr target).
Proof. intros H. exact H. Qed.

Lemma keeps_then_adds {A} (m : M self A) (k : A -> M self unit)
  (P : A -> Prop) (R : GraphObject -> Prop) :
  keeps m P -> (forall a, P a -> adds R (k a)) -> adds R (bind m k).
Proof.
  intros Hm Hk s. unfold bind.
  destruct (Hm s) as (Hc & Hl & _ & Hp).
  destruct (m s) as [[a | e] s'] eqn:Hrun; cbn [fst snd] in *.
  - destruct (Hk a (Hp a eq_refl) s') as (Hc' & Hr).
    split; [congruence | ].
    destruct (fst (k a s')).
    + destruct Hr as (x & Hx & HR). exists x. split; [congruence | exact HR].
    + congruence.
  - cbn [fst snd]. split; assumption.
Qed.

Lemma transform_commit_adds (commit : RESTObject) :
  adds (model_of commit) (transform_commit commit).
Proof.
  unfold transform_commit.
  eapply keeps_then_adds with (P := model_of commit).
  { apply keeps_on_graph.
    - intros g. apply (create_untouched Commit).
    - intros g a. apply create_model_of. }
  intros commit_model Hb.
  eapply keeps_then_adds with (P := fun _ => True).
  { apply keeps_on_graph; [apply find_user_untouched | auto]. }
  intros author _. cbv zeta.
  eapply keeps_then_adds with (P := fun _ => True).
  { apply keeps_on_graph; [apply find_user_untouched | auto]. }
  intros committer _. cbv zeta.
  eapply keeps_then_adds with (P := fun _ => True).
  { apply keeps_iterate. }
  intros parent_ids _.
  eapply keeps_then_adds with (P := model_of commit).
  { apply keeps_fold_each.
    - intros b x Hx.
      eapply keeps_bind with (P := fun _ => True).
      + apply keeps_on_graph; [ | auto].
        intros g. apply (get_or_create_untouched Commit).
      + intros parent_commit _. apply keeps_ret. exact Hx.
    - destruct committer; destruct author; exact Hb. }
  intros commit_model' Hb' s. cbn [fst snd commits commit_model_list].
  split; [reflexivity | ]. exists commit_model'. auto.
Qed.

Lemma for_each_models (cs : list RESTObject) (s : self) :
  let r := for_each cs transform_commit s in
  commits (snd r) = commits s
  /\ exists done rest ms,
       cs = done ++ rest
       /\ commit_model_list (snd r) = commit_model_list s ++ ms
       /\ Forall2 model_of done ms
       /\ match fst r with
          | Ok _ => rest = []
          | Raise _ => rest <> []
          end.
Proof.
  revert s. induction cs as [ | c cs IH]; intros s; cbn [for_each].
  - cbn. split; [reflexivity | ]. exists [], [], [].
    split; [reflexivity | ]. split; [now rewrite app_nil_r | ].
    split; [constructor | reflexivity].
  - cbv zeta. unfold bind.
    destruct (transform_commit_adds c s) as (Hc & Hadd).
    destruct (transform_commit c s) as [[[] | e] s'] eqn:Hrun;
      cbn [fst snd] in *.
    + destruct Hadd as (x & Hx & HR).
      destruct (IH s') as (Hc' & done & rest & ms & Hcs & Hl & Hms & Hend).
      split; [congruence | ].
      exists (c :: done), rest, (x :: ms).
      split; [now rewrite Hcs | ].
      split; [rewrite Hl, Hx; now rewrite <- app_assoc | ].
      split; [now constructor | exact Hend].
    + split; [exact Hc | ]. exists [], (c :: cs), [].
      split; [reflexivity | ]. split; [now rewrite app_nil_r | ].
      split; [constructor | discriminate].
Qed.

(** X7. [CommitPipeline.transform_data] gives the commits their models
    one by one, in the order of the records, and takes nothing back.
    The commits split into those that were processed and the rest; the
    list of models has grown by one model per processed commit, in the
    same order, the model of a commit being a [Commit] bound to a node
    with the properties [create] stores for that record.  When the run
    returns, every commit was processed; when it raises, the models of
    the commits before the failing one stay in the list, so a later
    [commit_data] pushes a part of the history.  The requested records
    are not changed. *)
Theorem transform_data_appends (s : self) (cs : list RESTObject) :
  commits s = Some cs ->
  let r := transform_data s in
  commits (snd r) = commits s
  /\ exists done rest ms,
       cs = done ++ rest
       /\ commit_model_list (snd r) = commit_model_list s ++ ms
       /\ Forall2 model_of done ms
       /\ match fst r with
          | Ok _ => rest = []
          | Raise _ => rest <> []
          end.
Proof.
  intros Hcs r. subst r. unfold transform_data. rewrite Hcs.
  destruct (for_each_models cs s)
    as (Hc & done & rest & ms & Hsplit & Hl & Hms & Hend).
  rewrite Hcs in Hc. split; [exact Hc | ].
  exists done, rest, ms. split; [exact Hsplit | ].
  split; [exact Hl | ]. split; [exact Hms | exact Hend].
Qed.

Lemma transform_data_appends_witness :
  commits two_commits = Some [some_doe_commit; blank_commit]
  /\ let r := transform_data two_commits in
     fst r = Raise (IndexError "list index out of range")
     /\ commits (snd r) = Some [some_doe_commit; blank_commit]
     /\ exists m,
          commit_model_list (snd r) = [m] /\ model_of some_doe_commit m.
Proof.
  split; [reflexivity | ].
  destruct (@transform_data_appends two_commits
              [some_doe_commit; blank_commit] eq_refl)
    as (Hc & done & rest & ms & Hcs & Hms & Hall & _).
  cbv zeta. split; [vm_compute; reflexivity | ]. split; [exact Hc | ].
  assert (Hl : exists m,
             commit_model_list (snd (transform_data two_commits)) = [m])
    by (vm_compute; eexists; reflexivity).
  destruct Hl as [m Hl]. exists m. split; [exact Hl | ].
  rewrite Hl in Hms. cbn [commit_model_list two_commits app] in Hms.
  subst ms. inversion Hall as [ | c m' done' ms' Hm Hrest Hd Hm']. subst.
  inversion Hrest. subst. cbn [app] in Hcs.
  injection Hcs as Hc0 _. rewrite Hc0. exact Hm.
Defined.

(** The run on the two commits: the first is given its model, the second
    raises. *)
Lemma transform_data_two_commits :
  exists s',
    transform_data two_commits
    = (Raise (IndexError "list index out of range"), s')
    /\ map node_properties (commit_model_list s')
       = [[("id", VStr "6104942438c1"); ("author_name", VStr "Some Doe");
           ("committer_name", VStr "Jane Roe")]].
Proof. eexists. split; vm_compute; reflexivity. Qed.

(** X8. [CommitPipeline.transform_data] writes [Commit] nodes only: a node
    of any other label (a user, the project, an issue) is in the graph
    after the run exactly when it was there before, with the same
    properties, whether the run returns or raises.  The users it looks up
    by name are read, never written. *)
Theorem transform_data_writes_commits_only (s : self) (n : Node) :
  label n <> "Commit" ->
  In n (nodes (graph (snd (transform_data s)))) <-> In n (nodes (graph s)).
Proof.
  intros Hl. unfold transform_data.
  destruct (commits s) as [cs | ]; cbn [snd]; [ | reflexivity].
  destruct (for_each_appends cs s) as (_ & Hu & _).
  exact (Hu n Hl).
Qed.

Lemma transform_data_writes_commits_only_witness :
  label (mkNode 1 "User"
           [("id", VInt 5); ("name", VStr "Jane Roe");
            ("username", VStr "jroe")]) <> "Commit"
  /\ (In (mkNode 1 "User"
            [("id", VInt 5); ("name", VStr "Jane Roe");
             ("username", VStr "jroe")])
        (nodes (graph (snd (transform_data two_commits))))
      <-> In (mkNode 1 "User"
                [("id", VInt 5); ("name", VStr "Jane Roe");
                 ("username", VStr "jroe")])
            (nodes (graph two_commits))).
Proof.
  split; [cbn; discriminate | ].
  apply transform_data_writes_commits_only. cbn. discriminate.
Defined.

End CommitMore.

(* ===================================================================== *)
(** ** The pipelines of users, labels and milestones: running the
       transformation again *)
(* ===================================================================== *)

Module CopyPipelines.

Import PyFacts ModelsFacts Repository RepositoryMore.

#[local] Arguments __primarykey__ : simpl never.
#[local] Arguments __primarylabel__ : simpl never.

Lemma value_eq_dec (a b : value) : a = b \/ a <> b.
Proof.
  destruct (value_eqb a b) eqn:E.
  - left. now apply value_eqb_eq.
  - right. intros ->. rewrite value_eqb_refl in E. discriminate.
Qed.

Lemma keyed_spec (lbl : string) (v : value) (n : Node) :
  keyed lbl v n = true
  <-> label n = lbl /\ property_get "id" (properties n) = v /\ v <> VNone.
Proof.
  split.
  - intros H. split; [eapply node_matches_label; exact H | ].
    unfold keyed, node_matches in H.
    apply Bool.andb_true_iff in H. destruct H as [_ H].
    cbn [forallb holds] in H. rewrite Bool.andb_true_r in H.
    now apply cypher_eq_eq in H.
  - intros (Hl & Hp & Hv). unfold keyed, node_matches.
    cbn [forallb holds]. rewrite Hl, Hp, String.eqb_refl.
    now rewrite cypher_eq_refl.
Qed.

(** A node that is written keeps its label and its key. *)
Lemma keyed_written (lbl lbl' : string) (v v' : value) (props : dict)
  (n : Node) :
  keyed lbl v n = true -> property_get "id" props = v ->
  keyed lbl' v' (mkNode (identity n) (label n) props) = keyed lbl' v' n.
Proof.
  intros Hn Hp. apply keyed_spec in Hn. destruct Hn as (_ & Hid & _).
  unfold keyed, node_matches. cbn [forallb holds label properties].
  now rewrite Hid, Hp.
Qed.

Lemma keyed_exclusive (lbl : string) (v v' : value) (n : Node) :
  keyed lbl v n = true -> keyed lbl v' n = true -> v = v'.
Proof.
  intros H H'. apply keyed_spec in H. apply keyed_spec in H'.
  destruct H as (_ & <- & _). now destruct H' as (_ & <- & _).
Qed.

Lemma write_overwrite (lbl : string) (v : value) (p p' : dict)
  (ns : list Node) :
  property_get "id" p' = v ->
  write lbl v p (write lbl v p' ns) = write lbl v p ns.
Proof.
  intros Hp'. induction ns as [ | n ns IH]; cbn [write]; [reflexivity | ].
  destruct (keyed lbl v n) eqn:E; cbn [write].
  - rewrite (@keyed_written lbl lbl v v p' n E Hp'), E. reflexivity.
  - rewrite E. now rewrite IH.
Qed.

Lemma write_commute (lbl : string) (v v' : value) (p p' : dict)
  (ns : list Node) :
  v <> v' -> property_get "id" p = v -> property_get "id" p' = v' ->
  write lbl v p (write lbl v' p' ns) = write lbl v' p' (write lbl v p ns).
Proof.
  intros Hne Hp Hp'. induction ns as [ | n ns IH]; cbn [write];
    [reflexivity | ].
  destruct (keyed lbl v n) eqn:E; destruct (keyed lbl v' n) eqn:E';
    cbn [write].
  - exfalso. apply Hne. eapply keyed_exclusive; eauto.
  - rewrite E. cbn [write]. rewrite (@keyed_written lbl lbl v v' p n E Hp), E'.
    reflexivity.
  - rewrite (@keyed_written lbl lbl v' v p' n E' Hp'), E, E'. reflexivity.
  - rewrite E, E'. now rewrite IH.
Qed.

(** Writing what the node holds changes nothing. *)
Lemma write_same (lbl : string) (v : value) (p : dict) (ns : list Node)
  (n : Node) :
  List.find (keyed lbl v) ns = Some n -> properties n = p ->
  write lbl v p ns = ns.
Proof.
  intros Hfind Hp. induction ns as [ | m ns IH]; cbn [write];
    [reflexivity | ].
  cbn [List.find] in Hfind. destruct (keyed lbl v m) eqn:E.
  - inversion Hfind; subst. now destruct n.
  - now rewrite IH.
Qed.

Lemma find_write (lbl lbl' : string) (v v' : value) (p : dict)
  (ns : list Node) :
  property_get "id" p = v ->
  option_map identity (List.find (keyed lbl' v') (write lbl v p ns))
  = option_map identity (List.find (keyed lbl' v') ns).
Proof.
  intros Hp. induction ns as [ | n ns IH]; cbn [write]; [reflexivity | ].
  destruct (keyed lbl v n) eqn:E; cbn [List.find].
  - rewrite (@keyed_written lbl lbl' v v' p n E Hp).
    now destruct (keyed lbl' v' n).
  - now destruct (keyed lbl' v' n).
Qed.

Lemma find_write_other (lbl : string) (v v' : value) (p : dict)
  (ns : list Node) :
  v <> v' -> property_get "id" p = v ->
  List.find (keyed lbl v') (write lbl v p ns) = List.find (keyed lbl v') ns.
Proof.
  intros Hne Hp. induction ns as [ | n ns IH]; cbn [write]; [reflexivity | ].
  destruct (keyed lbl v n) eqn:E; cbn [List.find].
  - rewrite (@keyed_written lbl lbl v v' p n E Hp).
    destruct (keyed lbl v' n) eqn:E'; [ | reflexivity].
    exfalso. apply Hne. eapply keyed_exclusive; eauto.
  - destruct (keyed lbl v' n); [reflexivity | exact IH].
Qed.

Lemma find_app_some {A} (q : A -> bool) (l1 l2 : list A) (a : A) :
  List.find q l1 = Some a -> List.find q (l1 ++ l2) = Some a.
Proof.
  induction l1 as [ | x l1 IH]; cbn; [discriminate | ].
  destruct (q x); auto.
Qed.

Lemma find_app_none {A} (q : A -> bool) (l1 l2 : list A) :
  List.find q l1 = None -> List.find q (l1 ++ l2) = List.find q l2.
Proof.
  induction l1 as [ | x l1 IH]; cbn; [reflexivity | ].
  destruct (q x); [discriminate | auto].
Qed.

Lemma set_first_write (lbl : string) (v : value) (p : dict)
  (ns : list Node) :
  set_first (keyed lbl v) p ns
  = match List.find (keyed lbl v) ns with
    | Some n => Some (identity n, write lbl v p ns)
    | None => None
    end.
Proof.
  induction ns as [ | n ns IH]; cbn [set_first List.find write];
    [reflexivity | ].
  destruct (keyed lbl v n); [reflexivity | ].
  rewrite IH. now destruct (List.find (keyed lbl v) ns).
Qed.

Lemma merge_keyed (lbl : string) (props : dict) (g : Graph) :
  merge lbl "id" props g
  = match List.find (keyed lbl (property_get "id" props)) (nodes g) with
    | Some n =>
        (Ok (identity n),
         mkGraph (write lbl (property_get "id" props) props (nodes g))
           (next_identity g) (journal g ++ [OpMerge lbl "id" props]))
    | None =>
        (Ok (next_identity g),
         mkGraph (nodes g ++ [mkNode (next_identity g) lbl props])
           (S (next_identity g)) (journal g ++ [OpMerge lbl "id" props]))
    end.
Proof.
  unfold merge.
  change (node_matches (Some lbl) [PropEq "id" (property_get "id" props)])
    with (keyed lbl (property_get "id" props)).
  rewrite set_first_write.
  now destruct (List.find (keyed lbl (property_get "id" props)) (nodes g)).
Qed.

Lemma stored_key (cls : model) (r : RESTObject) :
  well_keyed r -> property_get "id" (stored cls r) = key_of r.
Proof.
  intros [Hwf Hk]. unfold key_of, dict_get in *.
  destruct (dict_lookup "id" (attributes r)) as [v | ] eqn:Hlook;
    [ | now elim Hk].
  destruct (@create_present cls (attributes r) v empty_graph Hwf Hlook)
    as (i & g' & _ & Hp & _).
  exact Hp.
Qed.

(** What [create] does on a record with a key: one [MERGE] on the label
    and the key. *)
Lemma create_step (cls : model) (r : RESTObject) (g : Graph) :
  well_keyed r ->
  let lbl := __primarylabel__ cls in
  exists i g',
    create cls (attributes r) g
    = (Ok (mkObject cls (Some i) (stored cls r) []), g')
    /\ List.find (keyed lbl (key_of r)) (nodes g')
       = Some (mkNode i lbl (stored cls r))
    /\ (forall v j, first_identity lbl v g = Some j ->
                    first_identity lbl v g' = Some j)
    /\ (forall v, v <> key_of r ->
          List.find (keyed lbl v) (nodes g') = List.find (keyed lbl v) (nodes g))
    /\ (first_identity lbl (key_of r) g <> None ->
        nodes g' = write lbl (key_of r) (stored cls r) (nodes g)
        /\ next_identity g' = next_identity g).
Proof.
  intros Hr lbl. pose proof (stored_key cls Hr) as Hid.
  destruct Hr as [Hwf Hk].
  assert (Hin : dict_contains (__primarykey__ cls) (attributes r) = true).
  { rewrite dict_contains_lookup. unfold key_of, dict_get in Hk.
    change (__primarykey__ cls) with "id".
    destruct (dict_lookup "id" (attributes r)); [reflexivity | now elim Hk]. }
  destruct (create_as_merge cls (attributes r) g Hin) as (i & g' & Hm & Hc).
  fold (stored cls r) in Hm, Hc. fold lbl in Hm.
  change (__primarykey__ cls) with "id" in Hm.
  exists i, g'. split; [exact Hc | ].
  assert (Hfound : List.find (keyed lbl (key_of r)) (nodes g')
                   = Some (mkNode i lbl (stored cls r))).
  { rewrite <- Hid in Hk.
    destruct (merge_then_find lbl "id" (stored cls r) g Hk Hm) as [Hf _].
    rewrite Hid in Hf. exact Hf. }
  split; [exact Hfound | ].
  rewrite merge_keyed, Hid in Hm. unfold first_identity.
  destruct (List.find (keyed lbl (key_of r)) (nodes g)) as [n | ] eqn:Hfind;
    inversion Hm; subst; cbn [nodes next_identity].
  - split; [ | split].
    + intros v j. now rewrite (@find_write lbl lbl (key_of r) v _ (nodes g) Hid).
    + intros v Hv. apply find_write_other; [congruence | exact Hid].
    + auto.
  - split; [ | split].
    + intros v j Hj.
      destruct (List.find (keyed lbl v) (nodes g)) as [m | ] eqn:Hv;
        [ | discriminate].
      now rewrite (@find_app_some _ _ _ _ _ Hv).
    + intros v Hv.
      destruct (List.find (keyed lbl v) (nodes g)) as [m | ] eqn:Hf.
      * now apply find_app_some.
      * rewrite (@find_app_none _ _ _ _ Hf). cbn [List.find].
        destruct (keyed lbl v (mkNode (next_identity g) lbl (stored cls r)))
          eqn:E; [ | reflexivity].
        apply keyed_spec in E. cbn [properties] in E.
        destruct E as (_ & E & _). congruence.
    + intros H. now elim H.
Qed.

Lemma write_all_cons (cls : model) (r : RESTObject) (rs : list RESTObject)
  (ns : list Node) :
  write_all cls (r :: rs) ns
  = write_all cls rs
      (write (__primarylabel__ cls) (key_of r) (stored cls r) ns).
Proof. reflexivity. Qed.

Lemma write_all_absorb (cls : model) (rs : list RESTObject) (v : value)
  (p : dict) (ns : list Node) :
  Forall well_keyed rs -> property_get "id" p = v ->
  In v (map key_of rs) ->
  write_all cls rs (write (__primarylabel__ cls) v p ns) = write_all cls rs ns.
Proof.
  intros Hrs Hp. revert ns.
  induction Hrs as [ | r rs Hr Hrs IH]; intros ns Hin; [now elim Hin | ].
  rewrite !write_all_cons.
  destruct (value_eq_dec (key_of r) v) as [Heq | Hne].
  - rewrite <- Heq. rewrite write_overwrite; [reflexivity | congruence].
  - rewrite write_commute; auto using stored_key.
    apply IH. destruct Hin as [Hin | Hin]; [now elim Hne | exact Hin].
Qed.

Lemma write_all_commute (cls : model) (rs : list RESTObject) (v : value)
  (p : dict) (ns : list Node) :
  Forall well_keyed rs -> property_get "id" p = v ->
  ~ In v (map key_of rs) ->
  write_all cls rs (write (__primarylabel__ cls) v p ns)
  = write (__primarylabel__ cls) v p (write_all cls rs ns).
Proof.
  intros Hrs Hp. revert ns.
  induction Hrs as [ | r rs Hr Hrs IH]; intros ns Hin; [reflexivity | ].
  rewrite !write_all_cons.
  cbn [map In] in Hin.
  rewrite write_commute;
    [apply IH; tauto | tauto | now apply stored_key | exact Hp].
Qed.

Lemma In_dec_value (v : value) (l : list value) : In v l \/ ~ In v l.
Proof.
  induction l as [ | x l IH]; [now right | ].
  destruct (value_eq_dec x v) as [-> | Hne]; [left; now left | ].
  destruct IH as [IH | IH]; [left; now right | ].
  right. intros [H | H]; auto.
Qed.

Section Loop.

(** The loop the three pipelines share: [body] creates the model of a
    record of the class, finishes it with the fields [obs] of the
    pipeline, which it leaves alone, and appends it to the models. *)
Variables (self T : Type) (graph : self -> Graph)
  (models : self -> list GraphObject) (obs : self -> T) (cls : model)
  (finish : T -> GraphObject -> GraphObject)
  (body : RESTObject -> M self unit).

Hypothesis step : forall r s obj g',
  create cls (attributes r) (graph s) = (Ok obj, g') ->
  exists s', body r s = (Ok tt, s') /\ graph s' = g' /\ obs s' = obs s
             /\ models s' = models s ++ [finish (obs s) obj].

Lemma loop_run (rs : list RESTObject) :
  Forall well_keyed rs ->
  forall s, exists s1,
    for_each rs body s = (Ok tt, s1)
    /\ obs s1 = obs s
    /\ models s1
       = models s
         ++ map (fun r =>
                   finish (obs s)
                     (mkObject cls
                        (first_identity (__primarylabel__ cls) (key_of r)
                           (graph s1))
                        (stored cls r) [])) rs
    /\ (forall r, In r rs ->
          first_identity (__primarylabel__ cls) (key_of r) (graph s1) <> None)
    /\ (forall v j,
          first_identity (__primarylabel__ cls) v (graph s) = Some j ->
          first_identity (__primarylabel__ cls) v (graph s1) = Some j)
    /\ (forall v, ~ In v (map key_of rs) ->
          List.find (keyed (__primarylabel__ cls) v) (nodes (graph s1))
          = List.find (keyed (__primarylabel__ cls) v) (nodes (graph s)))
    /\ write_all cls rs (nodes (graph s1)) = nodes (graph s1)
    /\ ((forall r, In r rs ->
           first_identity (__primarylabel__ cls) (key_of r) (graph s) <> None) ->
        nodes (graph s1) = write_all cls rs (nodes (graph s))
        /\ next_identity (graph s1) = next_identity (graph s)).
Proof.
  induction 1 as [ | r rs Hr Hrs IH]; intros s.
  - exists s. cbn [for_each map]. rewrite app_nil_r. unfold ret.
    split; [reflexivity | ]. split; [reflexivity | ].
    split; [reflexivity | ]. split; [intros r [] | ].
    split; [auto | ]. split; [auto | ]. split; [reflexivity | ].
    intros _. split; reflexivity.
  - destruct (@create_step cls r (graph s) Hr)
      as (i & g' & Hc & Hfound & Hframe & Hother & Hpresent).
    destruct (step _ _ Hc) as (s' & Hbody & Hg & Hobs & Hmodels). subst g'.
    destruct (IH s')
      as (s1 & Hrun & Hobs1 & Hmodels1 & Hpres1 & Hframe1 & Hother1
          & Hsettled & Hwrite).
    assert (Hi : first_identity (__primarylabel__ cls) (key_of r) (graph s1)
                 = Some i).
    { apply Hframe1. unfold first_identity. now rewrite Hfound. }
    exists s1.
    split; [ | split; [ | split; [ | split; [ | split; [ | split;
      [ | split]]]]]].
    + cbn [for_each]. unfold bind. now rewrite Hbody.
    + congruence.
    + rewrite Hmodels1, Hmodels, Hobs. cbn [map].
      rewrite Hi, <- app_assoc. reflexivity.
    + intros r' [<- | Hin]; [rewrite Hi; discriminate | now apply Hpres1].
    + intros v j Hj. apply Hframe1. now apply Hframe.
    + intros v Hv. cbn [map In] in Hv. rewrite Hother1 by tauto.
      apply Hother. intros ->. tauto.
    + rewrite write_all_cons.
      destruct (In_dec_value (key_of r) (map key_of rs)) as [Hin | Hnin].
      * rewrite write_all_absorb; auto using stored_key.
      * rewrite write_all_commute; auto using stored_key. rewrite Hsettled.
        eapply write_same; [rewrite Hother1 by exact Hnin; exact Hfound | ].
        reflexivity.
    + intros Hall.
      destruct (Hpresent (Hall r (or_introl eq_refl))) as [Hn Hnext].
      destruct Hwrite as [Hn1 Hnext1].
      { intros r' Hin. specialize (Hall r' (or_intror Hin)).
        destruct (first_identity (__primarylabel__ cls) (key_of r') (graph s))
          eqn:E; [ | now elim Hall].
        rewrite (Hframe _ _ E). discriminate. }
      split; [ | congruence]. rewrite write_all_cons, Hn1, Hn. reflexivity.
Qed.

(** Running the loop a second time writes the same properties to the same
    nodes and yields the same models. *)
Lemma loop_again (rs : list RESTObject) (s : self) :
  Forall well_keyed rs ->
  exists s1 s2,
    for_each rs body s = (Ok tt, s1)
    /\ for_each rs body s1 = (Ok tt, s2)
    /\ obs s1 = obs s /\ obs s2 = obs s
    /\ let ms :=
         map (fun r =>
                finish (obs s)
                  (mkObject cls
                     (first_identity (__primarylabel__ cls) (key_of r)
                        (graph s1))
                     (stored cls r) [])) rs in
       models s1 = models s ++ ms
       /\ models s2 = models s1 ++ ms
       /\ (forall r, In r rs ->
             first_identity (__primarylabel__ cls) (key_of r) (graph s1)
             <> None)
       /\ nodes (graph s2) = nodes (graph s1)
       /\ next_identity (graph s2) = next_identity (graph s1).
Proof.
  intros Hrs.
  destruct (loop_run Hrs s)
    as (s1 & Hrun1 & Hobs1 & Hmodels1 & Hpres1 & _ & _ & Hsettled & _).
  destruct (loop_run Hrs s1)
    as (s2 & Hrun2 & Hobs2 & Hmodels2 & _ & _ & _ & _ & Hwrite).
  destruct (Hwrite Hpres1) as [Hnodes Hnext]. rewrite Hsettled in Hnodes.
  exists s1, s2. split; [exact Hrun1 | ]. split; [exact Hrun2 | ].
  split; [exact Hobs1 | ]. split; [congruence | ]. cbv zeta.
  split; [exact Hmodels1 | ]. split; [ | auto].
  rewrite Hmodels2, Hobs1. f_equal. apply map_ext. intros r.
  unfold first_identity. now rewrite Hnodes.
Qed.

End Loop.

Lemma user_step (r : RESTObject) (s : UserPipeline.self) (obj : GraphObject)
  (g' : Graph) :
  create User (attributes r) (UserPipeline.graph s) = (Ok obj, g') ->
  exists s',
    UserPipeline.transform_user r s = (Ok tt, s')
    /\ UserPipeline.graph s' = g'
    /\ (UserPipeline.project_model s', UserPipeline.users s')
       = (UserPipeline.project_model s, UserPipeline.users s)
    /\ UserPipeline.user_model_list s'
       = UserPipeline.user_model_list s
         ++ [update obj "belongs_to"
               (node_identity (UserPipeline.project_model s))].
Proof.
  intros Hc. unfold UserPipeline.transform_user, bind, UserPipeline.on_graph,
    zoom. rewrite Hc. eexists. split; [reflexivity | ]. cbn. auto.
Qed.

Lemma label_step (r : RESTObject) (s : LabelPipeline.self)
  (obj : GraphObject) (g' : Graph) :
  create Label (attributes r) (LabelPipeline.graph s) = (Ok obj, g') ->
  exists s',
    LabelPipeline.transform_label r s = (Ok tt, s')
    /\ LabelPipeline.graph s' = g'
    /\ LabelPipeline.labels s' = LabelPipeline.labels s
    /\ LabelPipeline.label_model_list s'
       = LabelPipeline.label_model_list s ++ [obj].
Proof.
  intros Hc. unfold LabelPipeline.transform_label, bind,
    LabelPipeline.on_graph, zoom. rewrite Hc.
  eexists. split; [reflexivity | ]. cbn. auto.
Qed.

Lemma milestone_step (r : RESTObject) (s : MilestonePipeline.self)
  (obj : GraphObject) (g' : Graph) :
  create Milestone (attributes r) (MilestonePipeline.graph s) = (Ok obj, g') ->
  exists s',
    MilestonePipeline.transform_milestone r s = (Ok tt, s')
    /\ MilestonePipeline.graph s' = g'
    /\ MilestonePipeline.milestones s' = MilestonePipeline.milestones s
    /\ MilestonePipeline.milestone_model_list s'
       = MilestonePipeline.milestone_model_list s ++ [obj].
Proof.
  intros Hc. unfold MilestonePipeline.transform_milestone, bind,
    MilestonePipeline.on_graph, zoom. rewrite Hc.
  eexists. split; [reflexivity | ]. cbn. auto.
Qed.

Lemma Forall2_map {A B} (R : A -> B -> Prop) (f : A -> B) (l : list A) :
  (forall a, In a l -> R a (f a)) -> Forall2 R l (map f l).
Proof.
  induction l as [ | a l IH]; intros H; cbn [map]; constructor.
  - apply H. now left.
  - apply IH. intros b Hb. apply H. now right.
Qed.

Ltac well_keyed_sample :=
  repeat constructor; cbn; try discriminate; intuition discriminate.

Lemma Forall2_same_node (ms : list GraphObject) :
  Forall2 IssueProperties.same_node ms ms.
Proof. induction ms; constructor; [repeat split | assumption]. Qed.

(** X9. Running [UserPipeline.transform_data] a second time on the same
    records (well-formed attribute dictionaries whose [id] is set), when
    the database accepts the writes of both runs: the second run creates
    no node and changes none, the nodes of the graph after it are those
    after the first, and no identity is used up.  The list of models is
    not reset in between: the second run appends, record by record, a
    model of the same node with the same properties once more, so
    [commit_data] pushes every user twice. *)
Theorem user_transform_data_again (s s1 s2 : UserPipeline.self)
  (us : list RESTObject) :
  UserPipeline.users s = Some us ->
  Forall well_keyed us ->
  UserPipeline.transform_data s = (Ok tt, s1) ->
  UserPipeline.transform_data s1 = (Ok tt, s2) ->
  exists ms ms',
    UserPipeline.user_model_list s1 = UserPipeline.user_model_list s ++ ms
    /\ UserPipeline.user_model_list s2
       = UserPipeline.user_model_list s1 ++ ms'
    /\ Forall2 IssueProperties.same_node ms ms'
    /\ List.length ms = List.length us
    /\ nodes (UserPipeline.graph s2) = nodes (UserPipeline.graph s1)
    /\ next_identity (UserPipeline.graph s2)
       = next_identity (UserPipeline.graph s1).
Proof.
  intros Hus Hwk Hfirst Hsecond.
  destruct (@loop_again UserPipeline.self _ UserPipeline.graph
              UserPipeline.user_model_list
              (fun s => (UserPipeline.project_model s, UserPipeline.users s))
              User
              (fun t o => update o "belongs_to" (node_identity (fst t)))
              UserPipeline.transform_user user_step us s Hwk)
    as (t1 & t2 & Hrun1 & Hrun2 & Hobs1 & Hobs2 & Hm1 & Hm2 & _ & Hn & Hi).
  injection Hobs1 as _ Hus1.
  unfold UserPipeline.transform_data in Hfirst. rewrite Hus, Hrun1 in Hfirst.
  injection Hfirst as <-.
  unfold UserPipeline.transform_data in Hsecond.
  rewrite Hus1, Hus, Hrun2 in Hsecond. injection Hsecond as <-.
  eexists. eexists. split; [exact Hm1 | ]. split; [exact Hm2 | ].
  split; [apply Forall2_same_node | ].
  split; [apply length_map | ]. split; [exact Hn | exact Hi].
Qed.

Lemma user_transform_data_again_witness :
  UserPipeline.users two_users = Some martin_and_jane
  /\ Forall well_keyed martin_and_jane
  /\ UserPipeline.transform_data two_users
     = (Ok tt, snd (UserPipeline.transform_data two_users))
  /\ UserPipeline.transform_data (snd (UserPipeline.transform_data two_users))
     = (Ok tt,
        snd (UserPipeline.transform_data
               (snd (UserPipeline.transform_data two_users))))
  /\ exists ms ms',
       UserPipeline.user_model_list
         (snd (UserPipeline.transform_data two_users))
       = UserPipeline.user_model_list two_users ++ ms
       /\ UserPipeline.user_model_list
            (snd (UserPipeline.transform_data
                    (snd (UserPipeline.transform_data two_users))))
          = UserPipeline.user_model_list
              (snd (UserPipeline.transform_data two_users)) ++ ms'
       /\ Forall2 IssueProperties.same_node ms ms'
       /\ List.length ms = List.length martin_and_jane
       /\ nodes (UserPipeline.graph
                   (snd (UserPipeline.transform_data
                           (snd (UserPipeline.transform_data two_users)))))
          = nodes (UserPipeline.graph
                     (snd (UserPipeline.transform_data two_users)))
       /\ next_identity
            (UserPipeline.graph
               (snd (UserPipeline.transform_data
                       (snd (UserPipeline.transform_data two_users)))))
          = next_identity
              (UserPipeline.graph
                 (snd (UserPipeline.transform_data two_users))).
Proof.
  assert (H : Forall well_keyed martin_and_jane) by well_keyed_sample.
  assert (H1 : UserPipeline.transform_data two_users
               = (Ok tt, snd (UserPipeline.transform_data two_users)))
    by (vm_compute; reflexivity).
  assert (H2 : UserPipeline.transform_data
                 (snd (UserPipeline.transform_data two_users))
               = (Ok tt,
                  snd (UserPipeline.transform_data
                         (snd (UserPipeline.transform_data two_users)))))
    by (vm_compute; reflexivity).
  split; [reflexivity | ]. split; [exact H | ].
  split; [exact H1 | ]. split; [exact H2 | ].
  exact (@user_transform_data_again two_users _ _ martin_and_jane
           eq_refl H H1 H2).
Defined.

(** X10. The models [UserPipeline.transform_data] adds when it returns,
    record by record: the model of a user is a [User] that holds the
    properties [create] stored, is bound to the first node of the graph
    that carries the user's [id], and has the model of the project under
    [belongs_to]. *)
Theorem user_models_belong_to_project (s s1 : UserPipeline.self)
  (us : list RESTObject) :
  UserPipeline.users s = Some us ->
  Forall well_keyed us ->
  UserPipeline.transform_data s = (Ok tt, s1) ->
  exists ms,
    UserPipeline.user_model_list s1 = UserPipeline.user_model_list s ++ ms
    /\ Forall2
         (fun u m =>
            class_of m = User
            /\ node_properties m = stored User u
            /\ node_identity m <> None
            /\ node_identity m
               = first_identity "User" (key_of u) (UserPipeline.graph s1)
            /\ In (node_identity (UserPipeline.project_model s))
                 (related_objects m "belongs_to"))
         us ms.
Proof.
  intros Hus Hwk Hfirst.
  destruct (@loop_run UserPipeline.self _ UserPipeline.graph
              UserPipeline.user_model_list
              (fun s => (UserPipeline.project_model s, UserPipeline.users s))
              User
              (fun t o => update o "belongs_to" (node_identity (fst t)))
              UserPipeline.transform_user user_step us Hwk s)
    as (t1 & Hrun & _ & Hm & Hpres & _).
  unfold UserPipeline.transform_data in Hfirst. rewrite Hus, Hrun in Hfirst.
  injection Hfirst as <-.
  eexists. split; [exact Hm | ].
  apply Forall2_map. intros u Hu. specialize (Hpres u Hu).
  cbv beta. cbn [fst].
  split; [reflexivity | ]. split; [reflexivity | ].
  split; [exact Hpres | ]. split; [reflexivity | ].
  apply MergeRequestFacts.update_In.
Qed.

Lemma user_models_belong_to_project_witness :
  UserPipeline.users two_users = Some martin_and_jane
  /\ Forall well_keyed martin_and_jane
  /\ UserPipeline.transform_data two_users
     = (Ok tt, snd (UserPipeline.transform_data two_users))
  /\ exists ms,
       UserPipeline.user_model_list
         (snd (UserPipeline.transform_data two_users))
       = UserPipeline.user_model_list two_users ++ ms
       /\ Forall2
            (fun u m =>
               class_of m = User
               /\ node_properties m = stored User u
               /\ node_identity m <> None
               /\ node_identity m
                  = first_identity "User" (key_of u)
                      (UserPipeline.graph
                         (snd (UserPipeline.transform_data two_users)))
               /\ In (node_identity (UserPipeline.project_model two_users))
                    (related_objects m "belongs_to"))
            martin_and_jane ms.
Proof.
  assert (H : Forall well_keyed martin_and_jane) by well_keyed_sample.
  assert (H1 : UserPipeline.transform_data two_users
               = (Ok tt, snd (UserPipeline.transform_data two_users)))
    by (vm_compute; reflexivity).
  split; [reflexivity | ]. split; [exact H | ]. split; [exact H1 | ].
  exact (@user_models_belong_to_project two_users _ martin_and_jane
           eq_refl H H1).
Defined.

(** X11. Running [LabelPipeline.transform_data] a second time on the same
    records creates no node and changes none, also when several records
    carry one [id] (the node then holds the properties of the last of
    them after either run); the models are appended once more. *)
Theorem label_transform_data_again (s : LabelPipeline.self)
  (ls : list RESTObject) :
  LabelPipeline.labels s = Some ls ->
  Forall well_keyed ls ->
  exists s1 s2 ms,
    LabelPipeline.transform_data s = (Ok tt, s1)
    /\ LabelPipeline.transform_data s1 = (Ok tt, s2)
    /\ LabelPipeline.label_model_list s1
       = LabelPipeline.label_model_list s ++ ms
    /\ LabelPipeline.label_model_list s2
       = LabelPipeline.label_model_list s1 ++ ms
    /\ List.length ms = List.length ls
    /\ nodes (LabelPipeline.graph s2) = nodes (LabelPipeline.graph s1)
    /\ next_identity (LabelPipeline.graph s2)
       = next_identity (LabelPipeline.graph s1).
Proof.
  intros Hls Hwk.
  destruct (@loop_again LabelPipeline.self _ LabelPipeline.graph
              LabelPipeline.label_model_list LabelPipeline.labels Label
              (fun _ o => o) LabelPipeline.transform_label label_step ls s
              Hwk)
    as (s1 & s2 & Hrun1 & Hrun2 & Hobs1 & Hobs2 & Hm1 & Hm2 & _ & Hn & Hi).
  exists s1, s2. eexists.
  unfold LabelPipeline.transform_data. rewrite Hobs1, Hls.
  split; [exact Hrun1 | ]. split; [exact Hrun2 | ].
  split; [exact Hm1 | ]. split; [exact Hm2 | ].
  split; [apply length_map | ]. split; [exact Hn | exact Hi].
Qed.

Lemma label_transform_data_again_witness :
  LabelPipeline.labels two_labels = Some bug_and_defect
  /\ Forall well_keyed bug_and_defect
  /\ exists s1 s2 ms,
       LabelPipeline.transform_data two_labels = (Ok tt, s1)
       /\ LabelPipeline.transform_data s1 = (Ok tt, s2)
       /\ LabelPipeline.label_model_list s1
          = LabelPipeline.label_model_list two_labels ++ ms
       /\ LabelPipeline.label_model_list s2
          = LabelPipeline.label_model_list s1 ++ ms
       /\ List.length ms = List.length bug_and_defect
       /\ nodes (LabelPipeline.graph s2) = nodes (LabelPipeline.graph s1)
       /\ next_identity (LabelPipeline.graph s2)
          = next_identity (LabelPipeline.graph s1).
Proof.
  assert (H : Forall well_keyed bug_and_defect) by well_keyed_sample.
  split; [reflexivity | ]. split; [exact H | ].
  exact (@label_transform_data_again two_labels bug_and_defect eq_refl H).
Defined.

(** X12. Running [MilestonePipeline.transform_data] a second time on the
    same records, when the database accepts the writes of both runs: the
    second run creates no node and changes none; the models are appended
    once more. *)
Theorem milestone_transform_data_again (s s1 s2 : MilestonePipeline.self)
  (ms0 : list RESTObject) :
  MilestonePipeline.milestones s = Some ms0 ->
  Forall well_keyed ms0 ->
  MilestonePipeline.transform_data s = (Ok tt, s1) ->
  MilestonePipeline.transform_data s1 = (Ok tt, s2) ->
  exists ms,
    MilestonePipeline.milestone_model_list s1
    = MilestonePipeline.milestone_model_list s ++ ms
    /\ MilestonePipeline.milestone_model_list s2
       = MilestonePipeline.milestone_model_list s1 ++ ms
    /\ List.length ms = List.length ms0
    /\ nodes (MilestonePipeline.graph s2) = nodes (MilestonePipeline.graph s1)
    /\ next_identity (MilestonePipeline.graph s2)
       = next_identity (MilestonePipeline.graph s1).
Proof.
  intros Hms Hwk Hfirst Hsecond.
  destruct (@loop_again MilestonePipeline.self _ MilestonePipeline.graph
              MilestonePipeline.milestone_model_list
              MilestonePipeline.milestones Milestone
              (fun _ o => o) MilestonePipeline.transform_milestone
              milestone_step ms0 s Hwk)
    as (t1 & t2 & Hrun1 & Hrun2 & Hobs1 & Hobs2 & Hm1 & Hm2 & _ & Hn & Hi).
  unfold MilestonePipeline.transform_data in Hfirst.
  rewrite Hms, Hrun1 in Hfirst. injection Hfirst as <-.
  unfold MilestonePipeline.transform_data in Hsecond.
  rewrite Hobs1, Hms, Hrun2 in Hsecond. injection Hsecond as <-.
  eexists. split; [exact Hm1 | ]. split; [exact Hm2 | ].
  split; [apply length_map | ]. split; [exact Hn | exact Hi].
Qed.

Lemma milestone_transform_data_again_witness :
  MilestonePipeline.milestones one_milestone = Some first_release
  /\ Forall well_keyed first_release
  /\ MilestonePipeline.transform_data one_milestone
     = (Ok tt, snd (MilestonePipeline.transform_data one_milestone))
  /\ MilestonePipeline.transform_data
       (snd (MilestonePipeline.transform_data one_milestone))
     = (Ok tt,
        snd (MilestonePipeline.transform_data
               (snd (MilestonePipeline.transform_data one_milestone))))
  /\ exists ms,
       MilestonePipeline.milestone_model_list
         (snd (MilestonePipeline.transform_data one_milestone))
       = MilestonePipeline.milestone_model_list one_milestone ++ ms
       /\ MilestonePipeline.milestone_model_list
            (snd (MilestonePipeline.transform_data
                    (snd (MilestonePipeline.transform_data one_milestone))))
          = MilestonePipeline.milestone_model_list
              (snd (MilestonePipeline.transform_data one_milestone)) ++ ms
       /\ List.length ms = List.length first_release
       /\ nodes (MilestonePipeline.graph
                   (snd (MilestonePipeline.transform_data
                           (snd (MilestonePipeline.transform_data
                                   one_milestone)))))
          = nodes (MilestonePipeline.graph
                     (snd (MilestonePipeline.transform_data one_milestone)))
       /\ next_identity
            (MilestonePipeline.graph
               (snd (MilestonePipeline.transform_data
                       (snd (MilestonePipeline.transform_data
                               one_milestone)))))
          = next_identity
              (MilestonePipeline.graph
                 (snd (MilestonePipeline.transform_data one_milestone))).
Proof.
  assert (H : Forall well_keyed first_release) by well_keyed_sample.
  assert (H1 : MilestonePipeline.transform_data one_milestone
               = (Ok tt,
                  snd (MilestonePipeline.transform_data one_milestone)))
    by (vm_compute; reflexivity).
  assert (H2 : MilestonePipeline.transform_data
                 (snd (MilestonePipeline.transform_data one_milestone))
               = (Ok tt,
                  snd (MilestonePipeline.transform_data
                         (snd (MilestonePipeline.transform_data
                                 one_milestone)))))
    by (vm_compute; reflexivity).
  split; [reflexivity | ]. split; [exact H | ].
  split; [exact H1 | ]. split; [exact H2 | ].
  exact (@milestone_transform_data_again one_milestone _ _ first_release
           eq_refl H H1 H2).
Defined.

End CopyPipelines.

(* ===================================================================== *)
(** ** The orchestrator: what a run ends with *)
(* ===================================================================== *)

Module OrchestratorMore.

Import Helpers OrchestrationProperties Orchestrator.

Section Outcome.

Variable World : Type.
Variable perform : ConfigParser -> string -> method -> M World unit.
Variable config_path : string.
Variable files : string -> option ConfigParser.

Local Abbreviation state := (state World).

Lemma transparent_ret {A} (cfg : ConfigParser) (a : A) :
  transparent perform cfg (ret a : M state A).
Proof. intros s. exact I. Qed.

Lemma transparent_log_info (cfg : ConfigParser) (msg : string) :
  transparent perform cfg (log_info msg : M state unit).
Proof. intros s. exact I. Qed.

Lemma transparent_call (cfg : ConfigParser) (pipe : string) (m : method) :
  transparent perform cfg (call perform cfg pipe m).
Proof.
  intros s. unfold call.
  destruct (perform cfg pipe m (world s)) as [[[] | e] w] eqn:Hrun;
    [exact I | ].
  exists (trace s), pipe, m, (world s). cbn. auto.
Qed.

Lemma transparent_bind {A B} (cfg : ConfigParser) (m : M state A)
  (k : A -> M state B) :
  transparent perform cfg m -> (forall a, transparent perform cfg (k a)) ->
  transparent perform cfg (bind m k).
Proof.
  intros Hm Hk s. unfold bind. specialize (Hm s).
  destruct (m s) as [[a | e] s1]; [apply Hk | exact Hm].
Qed.

Lemma transparent_for_each {A} (cfg : ConfigParser) (xs : list A)
  (body : A -> M state unit) :
  (forall x, transparent perform cfg (body x)) ->
  transparent perform cfg (for_each xs body).
Proof.
  intros Hbody. induction xs as [ | x xs IH]; cbn [for_each].
  - apply transparent_ret.
  - apply transparent_bind; [apply Hbody | intros _; exact IH].
Qed.

Lemma transparent_process_pipelines (cfg : ConfigParser) :
  transparent perform cfg (process_pipelines perform cfg).
Proof.
  unfold process_pipelines, get_pipelines.
  repeat first
    [ apply transparent_bind
    | apply transparent_for_each
    | apply transparent_call
    | apply transparent_log_info
    | apply transparent_ret
    | intro ].
Qed.

Lemma process_pipelines_calls (cfg : ConfigParser) (s s' : state) :
  process_pipelines perform cfg s = (Ok tt, s') ->
  calls (trace s') = calls (trace s) ++ expected_calls.
Proof.
  intros Hrun.
  destruct (emits_process_pipelines perform cfg s)
    as (done & rest & Hcalls & Hsplit & Hrest).
  rewrite Hrun in Hcalls, Hrest. cbn [fst snd] in *.
  rewrite (Hrest tt eq_refl), app_nil_r in Hsplit. now subst done.
Qed.

(** X13. [process_pipelines] stops at the first method that raises and
    hands its exception on.  Let the calls be split at one of them: if the
    calls before it return and that call raises [e], then
    [process_pipelines] raises [e], the world is as that call left it, and
    the calls made are those before it and that call, once: the exception
    is not caught, the call is not repeated, and no call after it is
    made. *)
Theorem process_pipelines_fails_fast (cfg : ConfigParser) (s : state)
  (before after : list (string * method)) (c : string * method) (e : exn)
  (w1 w2 : World) :
  expected_calls = before ++ c :: after ->
  run_calls perform cfg before (world s) = (Ok tt, w1) ->
  perform cfg (fst c) (snd c) w1 = (Raise e, w2) ->
  exists s',
    process_pipelines perform cfg s = (Raise e, s')
    /\ world s' = w2
    /\ calls (trace s') = calls (trace s) ++ before ++ [c].
Proof.
  intros Hsplit Hbefore Hraise.
  destruct (@performs_process_pipelines World perform cfg s)
    as (Hr & Hw & Hc).
  apply same_outcome_unit in Hr.
  rewrite Hsplit in Hr, Hw, Hc.
  rewrite run_calls_app, Hbefore in Hr, Hw.
  rewrite calls_made_app, Hbefore in Hc.
  rewrite (@calls_made_all World perform cfg before (world s) w1 Hbefore)
    in Hc.
  unfold run_calls in Hr, Hw. cbn [for_each calls_made] in Hr, Hw, Hc.
  unfold bind in Hr, Hw. rewrite Hraise in Hr, Hw, Hc.
  cbn [fst snd] in Hr, Hw.
  destruct (process_pipelines perform cfg s) as [r s'].
  cbn [fst snd] in *. subst r. exists s'. auto.
Qed.

(** X14. [get_config] accepts the files that exist and hold every section
    and parameter of [VALID_CONFIG], and no others; it hands back the
    parsed file as it is, and touches neither GitLab nor the graph. *)
Theorem get_config_accepts_valid (configfile : string) (cfg : ConfigParser)
  (s : state) :
  (fst (get_config config_path files configfile s) = Ok cfg
   <-> files (path_join config_path configfile) = Some cfg
       /\ valid_config cfg = true)
  /\ world (snd (get_config config_path files configfile s)) = world s
  /\ calls (trace (snd (get_config config_path files configfile s)))
     = calls (trace s).
Proof.
  destruct (files (path_join config_path configfile)) as [config | ] eqn:Hf.
  - destruct (valid_config config) eqn:Hv.
    + rewrite (get_config_valid config_path files configfile s Hf Hv).
      cbn [fst snd world trace]. rewrite !calls_app. cbn.
      rewrite !app_nil_r. split; [ | auto]. split.
      * intros H. inversion H; subst. auto.
      * intros [H _]. inversion H; subst. reflexivity.
    + destruct (@get_config_missing World config_path files configfile s)
        as (msg & s' & Hrun & Hw & Hc).
      { unfold missing. now rewrite Hf. }
      rewrite Hrun. cbn [fst snd]. split; [ | auto]. split.
      * discriminate.
      * intros [H Hv']. inversion H; subst. congruence.
  - destruct (@get_config_missing World config_path files configfile s)
      as (msg & s' & Hrun & Hw & Hc).
    { unfold missing. now rewrite Hf. }
    rewrite Hrun. cbn [fst snd]. split; [ | auto]. split.
    + discriminate.
    + intros [H _]. discriminate.
Qed.

Lemma main_cons (f : string) (fs : list string) (s : state) :
  main perform config_path files (f :: fs) s
  = match
      get_config config_path files f
        (mkState (world s)
           (trace s ++ [LogInfo ("Processing pipeline defined in " ++ f)]))
    with
    | (Ok cfg, s1) =>
        match process_pipelines perform cfg s1 with
        | (Ok _, s2) => main perform config_path files fs s2
        | (Raise e, s2) => (Raise e, s2)
        end
    | (Raise e, s1) => (Raise e, s1)
    end.
Proof.
  unfold main. cbn [for_each]. unfold bind, log_info.
  destruct (get_config config_path files f _) as [[cfg | e] s1];
    [ | reflexivity].
  now destruct (process_pipelines perform cfg s1) as [[[] | e] s2].
Qed.

(** X15. What a run of [gitlab2graph.py] ends with.  When the loop over
    the configuration files returns, every file was valid and the
    twenty-four calls were made for each of them, file after file.  When
    it raises, either a file was refused by [get_config], or a method of
    a pipeline raised, and that call is the last event of the run. *)
Theorem main_outcome (configuration : list string) (s : state) :
  match main perform config_path files configuration s with
  | (Ok _, s') =>
      Forall
        (fun f =>
           exists cfg,
             files (path_join config_path f) = Some cfg
             /\ valid_config cfg = true)
        configuration
      /\ calls (trace s')
         = calls (trace s)
           ++ flat_map (fun _ => expected_calls) configuration
  | (Raise e, s') =>
      (exists f msg,
         In f configuration /\ missing config_path files f
         /\ e = ConfigurationException msg)
      \/ (exists cfg, raised_by perform cfg e s')
  end.
Proof.
  revert s. induction configuration as [ | f fs IH]; intros s.
  - cbn. split; [constructor | now rewrite app_nil_r].
  - rewrite main_cons.
    set (s0 := mkState (world s)
                 (trace s ++ [LogInfo ("Processing pipeline defined in " ++ f)])).
    assert (Hs0 : calls (trace s0) = calls (trace s)).
    { unfold s0. cbn. rewrite calls_app. cbn. apply app_nil_r. }
    destruct (files (path_join config_path f)) as [config | ] eqn:Hf;
      [destruct (valid_config config) eqn:Hv | ].
    + rewrite (get_config_valid config_path files f s0 Hf Hv).
      set (s1 := mkState (world s0) _).
      assert (Hs1 : calls (trace s1) = calls (trace s)).
      { unfold s1. cbn [trace]. rewrite !calls_app. cbn.
        rewrite !app_nil_r. exact Hs0. }
      pose proof (transparent_process_pipelines config s1) as Ht.
      destruct (process_pipelines perform config s1) as [[[] | e] s2] eqn:Hrun.
      * apply process_pipelines_calls in Hrun.
        specialize (IH s2).
        destruct (main perform config_path files fs s2) as [[[] | e] s3].
        -- destruct IH as [Hall Hcalls]. split.
           ++ constructor; [exists config; auto | exact Hall].
           ++ cbn [flat_map]. rewrite Hcalls, Hrun, Hs1.
              now rewrite <- !app_assoc.
        -- destruct IH as [(f' & msg & Hin & Hmiss & He) | Hr].
           ++ left. exists f', msg. split; [now right | auto].
           ++ right. exact Hr.
      * right. exists config. exact Ht.
    + destruct (@get_config_missing World config_path files f s0)
        as (msg & s' & Hrun & Hw & Hc).
      { unfold missing. now rewrite Hf. }
      rewrite Hrun. left. exists f, msg. split; [now left | ].
      split; [ | reflexivity]. unfold missing. now rewrite Hf.
    + destruct (@get_config_missing World config_path files f s0)
        as (msg & s' & Hrun & Hw & Hc).
      { unfold missing. now rewrite Hf. }
      rewrite Hrun. left. exists f, msg. split; [now left | ].
      split; [ | reflexivity]. unfold missing. now rewrite Hf.
Qed.

End Outcome.

Lemma process_pipelines_fails_fast_witness :
  expected_calls
  = [("UserPipeline", Init); ("LabelPipeline", Init);
     ("MilestonePipeline", Init); ("IssuePipeline", Init);
     ("MergeRequestPipeline", Init); ("CommitPipeline", Init);
     ("UserPipeline", RequestData); ("LabelPipeline", RequestData)]
    ++ ("MilestonePipeline", RequestData)
       :: [("IssuePipeline", RequestData);
           ("MergeRequestPipeline", RequestData);
           ("CommitPipeline", RequestData);
           ("UserPipeline", TransformData); ("UserPipeline", CommitData);
           ("LabelPipeline", TransformData); ("LabelPipeline", CommitData);
           ("MilestonePipeline", TransformData);
           ("MilestonePipeline", CommitData);
           ("IssuePipeline", TransformData); ("IssuePipeline", CommitData);
           ("MergeRequestPipeline", TransformData);
           ("MergeRequestPipeline", CommitData);
           ("CommitPipeline", TransformData); ("CommitPipeline", CommitData)]
  /\ run_calls (failing_at "MilestonePipeline" RequestData) project_name_ini
       [("UserPipeline", Init); ("LabelPipeline", Init);
        ("MilestonePipeline", Init); ("IssuePipeline", Init);
        ("MergeRequestPipeline", Init); ("CommitPipeline", Init);
        ("UserPipeline", RequestData); ("LabelPipeline", RequestData)]
       (world start)
     = (Ok tt, tt)
  /\ failing_at "MilestonePipeline" RequestData project_name_ini
       "MilestonePipeline" RequestData tt
     = (Raise (TypeError "'NoneType' object is not iterable"), tt)
  /\ exists s',
       process_pipelines (failing_at "MilestonePipeline" RequestData)
         project_name_ini start
       = (Raise (TypeError "'NoneType' object is not iterable"), s')
       /\ world s' = tt
       /\ calls (trace s')
          = calls (trace start)
            ++ [("UserPipeline", Init); ("LabelPipeline", Init);
                ("MilestonePipeline", Init); ("IssuePipeline", Init);
                ("MergeRequestPipeline", Init); ("CommitPipeline", Init);
                ("UserPipeline", RequestData); ("LabelPipeline", RequestData)]
            ++ [("MilestonePipeline", RequestData)].
Proof.
  split; [reflexivity | ]. split; [reflexivity | ]. split; [reflexivity | ].
  apply (@process_pipelines_fails_fast unit
           (failing_at "MilestonePipeline" RequestData) project_name_ini start
           [("UserPipeline", Init); ("LabelPipeline", Init);
            ("MilestonePipeline", Init); ("IssuePipeline", Init);
            ("MergeRequestPipeline", Init); ("CommitPipeline", Init);
            ("UserPipeline", RequestData); ("LabelPipeline", RequestData)]
           [("IssuePipeline", RequestData);
            ("MergeRequestPipeline", RequestData);
            ("CommitPipeline", RequestData);
            ("UserPipeline", TransformData); ("UserPipeline", CommitData);
            ("LabelPipeline", TransformData); ("LabelPipeline", CommitData);
            ("MilestonePipeline", TransformData);
            ("MilestonePipeline", CommitData);
            ("IssuePipeline", TransformData); ("IssuePipeline", CommitData);
            ("MergeRequestPipeline", TransformData);
            ("MergeRequestPipeline", CommitData);
            ("CommitPipeline", TransformData); ("CommitPipeline", CommitData)]
           ("MilestonePipeline", RequestData)
           (TypeError "'NoneType' object is not iterable") tt tt);
    reflexivity.
Defined.

End OrchestratorMore.

(* ===================================================================== *)
(** ** The constructor of a pipeline: its name, its constraints, its
       configuration and its project *)
(* ===================================================================== *)

Module PipelineFacts.

Import Helpers Constraints Pipeline PyFacts ModelsFacts Repository
  RepositoryMore.

Lemma string_app_nil_r (s : string) : (s ++ "")%string = s.
Proof. induction s as [ | c s IH]; cbn; [reflexivity | now rewrite IH]. Qed.

Lemma string_app_assoc (a b c : string) :
  ((a ++ b) ++ c)%string = (a ++ b ++ c)%string.
Proof. induction a as [ | x a IH]; cbn; [reflexivity | now rewrite IH]. Qed.

Lemma prefix_app (a b : string) :
  String.prefix a b = true -> exists t, b = (a ++ t)%string.
Proof.
  revert b. induction a as [ | x a IH]; intros b H.
  - exists b. reflexivity.
  - destruct b as [ | y b]; cbn in H; [discriminate | ].
    destruct (ascii_dec x y) as [-> | ]; [ | discriminate].
    destruct (IH b H) as [t ->]. exists t. reflexivity.
Qed.

Lemma split_at_nonempty (sep : string) (s : string) (k : nat)
  (cur : string) :
  split_at sep k cur s <> [].
Proof.
  revert k cur. induction s as [ | c s IH]; intros k cur; cbn [split_at].
  - discriminate.
  - destruct k; [ | apply IH].
    destruct (String.prefix sep (String c s)); [discriminate | apply IH].
Qed.

Lemma concat_cons (sep p : string) (l : list string) :
  l <> [] ->
  String.concat sep (p :: l) = (p ++ sep ++ String.concat sep l)%string.
Proof. destruct l; [intros H; now elim H | reflexivity]. Qed.

(** Joining the parts of a split with the separator gives the string
    back; while a separator is stepped over, what is left of it is not
    part of the rest. *)
Lemma split_at_join (sep : string) (s : string) :
  sep <> "" ->
  forall k cur pre t,
    s = (pre ++ t)%string -> String.length pre = k ->
    String.concat sep (split_at sep k cur s) = (cur ++ t)%string.
Proof.
  intros Hsep. induction s as [ | c s IH]; intros k cur pre t Hs Hk.
  - destruct pre; [ | discriminate]. cbn in Hs. subst t. cbn.
    now rewrite string_app_nil_r.
  - cbn [split_at]. destruct k as [ | k].
    + destruct pre; [ | discriminate]. cbn in Hs. subst t.
      destruct (String.prefix sep (String c s)) eqn:Hp.
      * rewrite concat_cons by apply split_at_nonempty.
        destruct sep as [ | c0 sep']; [now elim Hsep | ].
        destruct (prefix_app _ _ Hp) as [t Ht]. cbn in Ht.
        inversion Ht; subst.
        replace (String.length (String c0 sep') - 1)
          with (String.length sep') by (cbn; lia).
        rewrite (IH (String.length sep') "" sep' t eq_refl eq_refl).
        reflexivity.
      * rewrite (IH 0 (cur ++ String c "")%string "" s eq_refl eq_refl).
        now rewrite string_app_assoc.
    + destruct pre as [ | c' pre]; [discriminate | ].
      cbn in Hs, Hk. inversion Hs; subst. injection Hk as Hk.
      apply (IH k cur pre t eq_refl Hk).
Qed.

(** X16. The property [name] cuts the class name at the word
    [Pipeline]: when it returns [n], the class name is [n], then
    [Pipeline], then a rest, and the rest is thrown away.  (A class name
    without the word, or with it twice, makes the unpacking fail.) *)
Theorem name_cuts_at_Pipeline (_name n : string) :
  name _name = Some n ->
  exists rest, _name = (n ++ "Pipeline" ++ rest)%string.
Proof.
  unfold name, split_on. intros H.
  assert (Hjoin : String.concat "Pipeline" (split_at "Pipeline" 0 "" _name)
                  = _name).
  { now apply (@split_at_join "Pipeline" _name ltac:(discriminate)
                 0 "" "" _name). }
  destruct (split_at "Pipeline" 0 "" _name) as [ | a [ | b [ | c l]]];
    try discriminate.
  injection H as <-. exists b. symmetry. exact Hjoin.
Qed.

Lemma name_cuts_at_Pipeline_witness :
  name "MergeRequestPipeline" = Some "MergeRequest"
  /\ exists rest,
       "MergeRequestPipeline" = ("MergeRequest" ++ "Pipeline" ++ rest)%string.
Proof.
  split; [reflexivity | ].
  apply (@name_cuts_at_Pipeline "MergeRequestPipeline" "MergeRequest").
  reflexivity.
Defined.

Lemma set_constraints_run (cls : model) (schema : Schema) :
  set_constraints cls schema
  = (Ok tt,
     schema ++ map (fun key => (__name__ cls, key)) (__unique_constraints__ cls)).
Proof.
  unfold set_constraints. generalize (__unique_constraints__ cls) as ks.
  intros ks. revert schema.
  induction ks as [ | k ks IH]; intros schema; cbn [for_each map].
  - unfold ret. now rewrite app_nil_r.
  - unfold bind, create_uniqueness_constraint. rewrite IH.
    now rewrite <- app_assoc.
Qed.

(** X17. The constructor of each of the six pipelines of [PIPELINES]
    finds the class of its records under its own name without the suffix,
    and asks for the uniqueness constraints of that class: one per key
    of the class, under the label the nodes of the class carry.  The
    primary key is among the keys, and every key is a property the class
    declares. *)
Theorem add_constraints_of_pipelines (pipe : string) (schema : Schema) :
  In pipe PIPELINES ->
  exists cls,
    name pipe = Some (__name__ cls)
    /\ models_getattr (__name__ cls) = Some cls
    /\ _add_constraints (__name__ cls) schema
       = (Ok tt,
          schema
          ++ map (fun key => (__primarylabel__ cls, key))
               (__unique_constraints__ cls))
    /\ In (__primarykey__ cls) (__unique_constraints__ cls)
    /\ Forall (fun key => is_property cls key = true)
         (__unique_constraints__ cls).
Proof.
  intros Hin.
  assert (Hcls : exists cls,
            name pipe = Some (__name__ cls)
            /\ models_getattr (__name__ cls) = Some cls
            /\ __name__ cls = __primarylabel__ cls
            /\ In (__primarykey__ cls) (__unique_constraints__ cls)
            /\ Forall (fun key => is_property cls key = true)
                 (__unique_constraints__ cls)).
  { cbn in Hin.
    destruct Hin as [<- | [<- | [<- | [<- | [<- | [<- | []]]]]]];
      [exists User | exists Label | exists Milestone | exists Issue
       | exists MergeRequest | exists Commit];
      (split; [vm_compute; reflexivity | ]);
      (split; [vm_compute; reflexivity | ]);
      (split; [reflexivity | ]);
      (split; [cbn; auto | ]);
      repeat constructor. }
  destruct Hcls as (cls & Hname & Hget & Hlabel & Hpk & Hprops).
  exists cls. split; [exact Hname | ]. split; [exact Hget | ].
  split; [ | split; [exact Hpk | exact Hprops]].
  unfold _add_constraints. rewrite Hget, set_constraints_run, Hlabel.
  reflexivity.
Qed.

Lemma add_constraints_of_pipelines_witness :
  In "CommitPipeline" PIPELINES
  /\ exists cls,
       name "CommitPipeline" = Some (__name__ cls)
       /\ models_getattr (__name__ cls) = Some cls
       /\ _add_constraints (__name__ cls) [("User", "id")]
          = (Ok tt,
             [("User", "id")]
             ++ map (fun key => (__primarylabel__ cls, key))
                  (__unique_constraints__ cls))
       /\ In (__primarykey__ cls) (__unique_constraints__ cls)
       /\ Forall (fun key => is_property cls key = true)
            (__unique_constraints__ cls).
Proof.
  assert (H : In "CommitPipeline" PIPELINES) by (cbn; tauto).
  split; [exact H | ].
  exact (@add_constraints_of_pipelines "CommitPipeline" [("User", "id")] H).
Defined.

Lemma mem_assoc {A} (k : string) (l : list (string * A)) :
  mem k (map fst l) = true -> exists v, assoc k l = Some v.
Proof.
  unfold mem. induction l as [ | [k' v] l IH]; cbn; [discriminate | ].
  destruct (String.eqb k k'); [intros _; now exists v | exact IH].
Qed.

Lemma assoc_app {A} (k : string) (l1 l2 : list (string * A)) :
  assoc k (l1 ++ l2)
  = match assoc k l1 with Some v => Some v | None => assoc k l2 end.
Proof.
  induction l1 as [ | [k' v] l1 IH]; cbn; [reflexivity | ].
  now destruct (String.eqb k k').
Qed.

(** An option [get_config] found is an option the constructor can
    read. *)
Lemma has_option_item (config : ConfigParser) (section param : string) :
  has_option config section param = true ->
  String.eqb section "DEFAULT" = false ->
  optionxform param = param ->
  exists v, forall S (s : S), config_item config section param s = (Ok v, s).
Proof.
  unfold has_option, config_item. intros H Hsec Hx. rewrite Hsec, Hx.
  destruct (assoc section (config_sections config)) as [own | ];
    [ | discriminate].
  rewrite assoc_app. apply Bool.orb_true_iff in H.
  destruct (assoc param own) as [v | ] eqn:Hown.
  - exists v. reflexivity.
  - destruct H as [H | H].
    + destruct (mem_assoc _ _ H) as [v Hv]. congruence.
    + destruct (mem_assoc _ _ H) as [v Hv]. rewrite Hv. now exists v.
Qed.

(** X18. A configuration that [get_config] accepts is one the constructor
    of a pipeline can read: [VALID_CONFIG] names every option
    [_ini_gitlab_api], [_init_neo4j] and [_init_project] look up, so none
    of the lookups raises [KeyError], the graph is opened at
    [protocol://hostname:port/db], and the project id is not [None].
    (Values without [%], which the parser hands out as they are.) *)
Theorem validated_configuration_is_readable (config : ConfigParser)
  (full_name : string) (S : Type) (s : S) :
  valid_config config = true ->
  plain_values config ->
  exists token hostname protocol port db user password project_id,
    _ini_gitlab_api config s = (Ok ("https://gitlab-ee.sc.dlr.de", token), s)
    /\ _init_neo4j config s
       = (Ok ((protocol ++ "://" ++ hostname ++ ":" ++ port ++ "/" ++ db)%string,
              user, password), s)
    /\ get_config_attribute config full_name "project_id" (Some "PROJECT") s
       = (Ok (Some project_id), s)
    /\ config_item config "GITLAB" "token" s = (Ok token, s)
    /\ config_item config "NEO4J" "hostname" s = (Ok hostname, s)
    /\ config_item config "NEO4J" "protocol" s = (Ok protocol, s)
    /\ config_item config "NEO4J" "port" s = (Ok port, s)
    /\ config_item config "NEO4J" "db" s = (Ok db, s)
    /\ config_item config "NEO4J" "user" s = (Ok user, s)
    /\ config_item config "NEO4J" "password" s = (Ok password, s)
    /\ config_item config "PROJECT" "project_id" s = (Ok project_id, s).
Proof.
  intros Hvalid _. unfold valid_config, VALID_CONFIG, valid_section in Hvalid.
  cbn [forallb fst snd] in Hvalid.
  repeat rewrite Bool.andb_true_iff in Hvalid.
  destruct Hvalid
    as ((_ & Htoken & _)
        & (_ & Hhost & Hproto & Hport & Hdb & Huser & Hpass & _)
        & (_ & Hpid & _) & _).
  destruct (@has_option_item config "GITLAB" "token" Htoken eq_refl eq_refl)
    as [token Et].
  destruct (@has_option_item config "NEO4J" "hostname" Hhost eq_refl eq_refl)
    as [hostname Eh].
  destruct (@has_option_item config "NEO4J" "protocol" Hproto eq_refl eq_refl)
    as [protocol Ep].
  destruct (@has_option_item config "NEO4J" "port" Hport eq_refl eq_refl)
    as [port Eo].
  destruct (@has_option_item config "NEO4J" "db" Hdb eq_refl eq_refl)
    as [db Ed].
  destruct (@has_option_item config "NEO4J" "user" Huser eq_refl eq_refl)
    as [user Eu].
  destruct (@has_option_item config "NEO4J" "password" Hpass eq_refl eq_refl)
    as [password Ew].
  destruct (@has_option_item config "PROJECT" "project_id" Hpid eq_refl eq_refl)
    as [project_id Ei].
  exists token, hostname, protocol, port, db, user, password, project_id.
  unfold _ini_gitlab_api, _init_neo4j, get_config_attribute, bind, ret.
  rewrite Et, Eh, Ep, Eo, Ed, Eu, Ew, Ei.
  repeat split; reflexivity.
Qed.

Lemma validated_configuration_is_readable_witness :
  valid_config project_name_ini = true
  /\ plain_values project_name_ini
  /\ exists token hostname protocol port db user password project_id,
       _ini_gitlab_api project_name_ini tt
       = (Ok ("https://gitlab-ee.sc.dlr.de", token), tt)
       /\ _init_neo4j project_name_ini tt
          = (Ok ((protocol ++ "://" ++ hostname ++ ":" ++ port ++ "/" ++ db)%string,
                 user, password), tt)
       /\ get_config_attribute project_name_ini "UserPipeline" "project_id"
            (Some "PROJECT") tt
          = (Ok (Some project_id), tt)
       /\ config_item project_name_ini "GITLAB" "token" tt = (Ok token, tt)
       /\ config_item project_name_ini "NEO4J" "hostname" tt
          = (Ok hostname, tt)
       /\ config_item project_name_ini "NEO4J" "protocol" tt
          = (Ok protocol, tt)
       /\ config_item project_name_ini "NEO4J" "port" tt = (Ok port, tt)
       /\ config_item project_name_ini "NEO4J" "db" tt = (Ok db, tt)
       /\ config_item project_name_ini "NEO4J" "user" tt = (Ok user, tt)
       /\ config_item project_name_ini "NEO4J" "password" tt
          = (Ok password, tt)
       /\ config_item project_name_ini "PROJECT" "project_id" tt
          = (Ok project_id, tt).
Proof.
  assert (Hv : valid_config project_name_ini = true) by reflexivity.
  assert (Hp : plain_values project_name_ini) by (split; reflexivity).
  split; [exact Hv | ]. split; [exact Hp | ].
  exact (@validated_configuration_is_readable project_name_ini "UserPipeline"
           unit tt Hv Hp).
Defined.

Lemma hasattr_setattr (o : GraphObject) (a k : string) (v : value) :
  hasattr (setattr o a v) k = hasattr o k
  /\ is_related_objects (setattr o a v) k = is_related_objects o k.
Proof.
  unfold hasattr, is_related_objects. now rewrite class_of_setattr.
Qed.

(** An entry under a name the class does not copy may hold anything. *)
Lemma copy_attributes_ignores (k : string) (v : value) (attributes : dict)
  (o : GraphObject) :
  hasattr o k && negb (is_related_objects o k) = false ->
  dict_contains k attributes = true ->
  copy_attributes o (dict_set k v attributes) = copy_attributes o attributes.
Proof.
  revert o. induction attributes as [ | [a x] rest IH]; intros o Hk Hin;
    [discriminate | ].
  cbn [dict_set]. destruct (String.eqb k a) eqn:E.
  - apply String.eqb_eq in E. subst a. cbn [copy_attributes].
    now rewrite Hk.
  - cbn [dict_contains] in Hin. rewrite E in Hin. cbn [orb] in Hin.
    cbn [copy_attributes].
    destruct (hasattr o a && negb (is_related_objects o a)).
    + apply IH; [ | exact Hin].
      destruct (hasattr_setattr o a k x) as [-> ->]. exact Hk.
    + now apply IH.
Qed.

(** X19. The namespace that [_init_project] puts its name in place of
    never reaches the graph: [Project] declares [namespace_name], not
    [namespace], so [create] skips the entry.  With a namespace that is a
    dictionary, or none, [_init_project] does what [Project.create] does
    on the attributes as GitLab sent them, and [namespace_name] is set
    only if the record itself has an entry of that name; with a namespace
    of another kind it raises [AttributeError] before anything is
    written. *)
Theorem init_project_ignores_namespace (project_attributes : dict)
  (g : Graph) :
  _init_project project_attributes g
  = match dict_lookup "namespace" project_attributes with
    | Some (VDict _) | None => create Project project_attributes g
    | Some _ => (Raise (AttributeError "object has no attribute 'get'"), g)
    end.
Proof.
  unfold _init_project, bind. rewrite dict_contains_lookup. unfold dict_get.
  destruct (dict_lookup "namespace" project_attributes) as [ns | ] eqn:Hns;
    [ | reflexivity].
  destruct ns; try reflexivity.
  cbn [value_get ret]. unfold create.
  rewrite dict_contains_set.
  change (String.eqb (__primarykey__ Project) "namespace") with false.
  cbn [orb]. rewrite copy_attributes_ignores; [reflexivity | reflexivity | ].
  rewrite dict_contains_lookup. now rewrite Hns.
Qed.

End PipelineFacts.

(* ===================================================================== *)
(** ** [IssuePipeline]: resolving the users of an issue *)
(* ===================================================================== *)

Module IssueMore.

Import PyFacts ModelsFacts Repository IssuePipeline IssueProperties.

Lemma reads_ret {A} (g0 : Graph) (a : A) (P : A -> Prop) :
  P a -> reads g0 (ret a) P.
Proof.
  intros Ha g Hg. cbn. split; [exact Hg | ]. split; [reflexivity | ].
  intros a0 H. now inversion H; subst.
Qed.

Lemma reads_raise {A} (g0 : Graph) (e : exn) (P : A -> Prop) :
  reads g0 (raise e) P.
Proof.
  intros g Hg. cbn. split; [exact Hg | ]. split; [reflexivity | discriminate].
Qed.

Lemma reads_bind {A B} (g0 : Graph) (m : M Graph A) (k : A -> M Graph B)
  (P : A -> Prop) (Q : B -> Prop) :
  reads g0 m P -> (forall a, P a -> reads g0 (k a) Q) ->
  reads g0 (bind m k) Q.
Proof.
  intros Hm Hk g Hg. unfold bind.
  destruct (Hm g Hg) as (Hn & Hi & Hp).
  destruct (m g) as [[a | e] g1]; cbn [fst snd] in *.
  - destruct (Hk a (Hp a eq_refl) g1 Hn) as (Hn' & Hi' & Hq).
    split; [exact Hn' | ]. split; [congruence | exact Hq].
  - split; [exact Hn | ]. split; [exact Hi | discriminate].
Qed.

Lemma reads_impl {A} (g0 : Graph) (m : M Graph A) (P Q : A -> Prop) :
  reads g0 m P -> (forall a, P a -> Q a) -> reads g0 m Q.
Proof.
  intros Hm Hpq g Hg. destruct (Hm g Hg) as (Hn & Hi & Hp).
  split; [exact Hn | ]. split; [exact Hi | ]. intros a Ha. auto.
Qed.

Lemma reads_subscript (g0 : Graph) (v : value) (key : string) :
  reads g0 (subscript v key)
    (fun x => exists d, v = VDict d /\ dict_lookup key d = Some x).
Proof.
  unfold subscript. destruct v; try apply reads_raise.
  destruct (dict_lookup key d) as [x | ] eqn:Hx; [ | apply reads_raise].
  apply reads_ret. now exists d.
Qed.

Lemma reads_iterate (g0 : Graph) (v : value) :
  reads g0 (iterate v) (fun xs => forall l, v = VList l -> xs = l).
Proof.
  destruct v; cbn; try apply reads_raise; apply reads_ret;
    intros l0 H; now inversion H.
Qed.

(** Looking a user up by its key. *)
Lemma reads_user (g0 : Graph) (id : value) :
  reads g0 (match_first_by_key User id)
    (fun o => resolves g0 id (target_of o)).
Proof.
  intros g Hg. unfold match_first_by_key, bind, match_first, ret.
  cbn [fst snd nodes next_identity].
  split; [exact Hg | ]. split; [reflexivity | ].
  intros a H. inversion H; subst. clear H. rewrite Hg.
  set (conds := match id with
                | VNone => []
                | _ => [PropEq (__primarykey__ User) id]
                end).
  destruct (List.find _ (nodes g0)) as [n | ] eqn:Hfind;
    unfold resolves; cbn [option_map target_of wrap node_identity].
  - apply find_some in Hfind. destruct Hfind as [Hin Hn].
    exists n. split; [exact Hin | ].
    split; [reflexivity | ].
    split; [eapply node_matches_label; exact Hn | ].
    intros Hid. unfold conds in Hn.
    destruct id; try (now elim Hid); eapply node_matches_eq; exact Hn.
  - intros n Hin Hl.
    pose proof (find_none _ _ Hfind n Hin) as Hn. cbv beta in Hn.
    unfold node_matches in Hn. rewrite Hl in Hn.
    change (String.eqb "User" (__primarylabel__ User)) with true in Hn.
    cbn [andb] in Hn.
    assert (Hid : id <> VNone).
    { intros ->. unfold conds in Hn. cbn in Hn. discriminate. }
    split; [exact Hid | ]. intros Heq.
    assert (Hc : conds = [PropEq "id" id])
      by (unfold conds; destruct id; try reflexivity; now elim Hid).
    rewrite Hc in Hn. cbn [forallb holds] in Hn. rewrite Heq in Hn.
    rewrite cypher_eq_refl in Hn by exact Hid. discriminate.
Qed.

Lemma related_objects_update (o : GraphObject) (attr attr' : string)
  (target t : option nat) :
  In t (related_objects (update o attr target) attr') ->
  In t (related_objects o attr') \/ (t = target /\ attr' = attr).
Proof.
  assert (Hassoc : forall (l : list (string * list (option nat))) x,
            assoc attr' (assoc_set attr x l)
            = if String.eqb attr' attr then Some x else assoc attr' l).
  { intros l x. induction l as [ | [k y] l IH]; cbn [assoc assoc_set].
    - reflexivity.
    - destruct (String.eqb attr k) eqn:E; cbn [assoc].
      + apply String.eqb_eq in E. subst k.
        now destruct (String.eqb attr' attr).
      + rewrite IH. destruct (String.eqb attr' k) eqn:E'; [ | reflexivity].
        apply String.eqb_eq in E'. subst k.
        now rewrite String.eqb_sym, E. }
  unfold related_objects at 1, update. cbn [related]. rewrite Hassoc.
  destruct (String.eqb attr' attr) eqn:E; [ | now left].
  apply String.eqb_eq in E. subst attr'.
  destruct (existsb (same_object target) (related_objects o attr));
    [now left | ].
  intros H. apply in_app_or in H. destruct H as [H | [H | []]]; auto.
Qed.

Lemma extends_update (o : GraphObject) (attr : string)
  (target : option nat) :
  extends o (update o attr target).
Proof.
  assert (Hassoc : forall attr' (l : list (string * list (option nat))) x,
            assoc attr' (assoc_set attr x l)
            = if String.eqb attr' attr then Some x else assoc attr' l).
  { intros attr' l x. induction l as [ | [k y] l IH]; cbn [assoc assoc_set].
    - reflexivity.
    - destruct (String.eqb attr k) eqn:E; cbn [assoc].
      + apply String.eqb_eq in E. subst k.
        now destruct (String.eqb attr' attr).
      + rewrite IH. destruct (String.eqb attr' k) eqn:E'; [ | reflexivity].
        apply String.eqb_eq in E'. subst k.
        now rewrite String.eqb_sym, E. }
  intros attr' t Hin.
  unfold related_objects at 1, update. cbn [related]. rewrite Hassoc.
  destruct (String.eqb attr' attr) eqn:E; [ | exact Hin].
  apply String.eqb_eq in E. subst attr'.
  destruct (existsb (same_object target) (related_objects o attr));
    [exact Hin | ].
  apply in_or_app. now left.
Qed.

Lemma extends_trans (a b c : GraphObject) :
  extends a b -> extends b c -> extends a c.
Proof. intros Hab Hbc attr t H. apply Hbc. now apply Hab. Qed.

Lemma attached_extends (g : Graph) (entry : value) (a b : GraphObject)
  (attr : string) :
  extends a b -> attached g entry a attr -> attached g entry b attr.
Proof.
  intros Hab (d & id & t & He & Hid & Hr & Hin).
  exists d, id, t. repeat split; auto.
Qed.

(** One lookup of [resolve_users]: the [id] of the entry, the user of
    that key, and the update of the model. *)
Lemma reads_resolve_one (g0 : Graph) (o m : GraphObject) (entry : value)
  (attr : string) :
  same_node m o ->
  reads g0
    (user_id <- subscript entry "id" ;;
     author_dict <- match_first_by_key User user_id ;;
     ret (update m attr (target_of author_dict)))
    (fun m' => same_node m' o /\ extends m m' /\ attached g0 entry m' attr).
Proof.
  intros Hs.
  eapply reads_bind; [apply reads_subscript | ].
  intros user_id (d & Hentry & Hid).
  eapply reads_bind; [apply reads_user | ]. intros author_dict Hu.
  apply reads_ret. split; [exact Hs | ]. split; [apply extends_update | ].
  exists d, user_id, (target_of author_dict).
  repeat split; auto. apply MergeRequestFacts.update_In.
Qed.

(** A lookup that is made only for an entry that is there. *)
Lemma reads_resolve_if (g0 : Graph) (o m : GraphObject) (entry : value)
  (attr : string) :
  same_node m o ->
  reads g0
    (if truthy entry
     then
       user_id <- subscript entry "id" ;;
       author_dict <- match_first_by_key User user_id ;;
       ret (update m attr (target_of author_dict))
     else ret m)
    (fun m' =>
       same_node m' o /\ extends m m'
       /\ (truthy entry = true -> attached g0 entry m' attr)).
Proof.
  intros Hs. destruct (truthy entry).
  - eapply reads_impl; [now apply (@reads_resolve_one g0 o m entry attr) | ].
    intros m' (H1 & H2 & H3). auto.
  - apply reads_ret. split; [exact Hs | ].
    split; [intros a t H; exact H | discriminate].
Qed.

(** The loop over the assignees. *)
Lemma reads_resolve_each (g0 : Graph) (o : GraphObject) (attr : string)
  (xs : list value) :
  forall m,
    same_node m o ->
    reads g0
      (fold_each xs
         (fun issue_model assignee =>
            assignee_id <- subscript assignee "id" ;;
            author_dict <- match_first_by_key User assignee_id ;;
            ret (update issue_model attr (target_of author_dict)))
         m)
      (fun m' =>
         same_node m' o /\ extends m m'
         /\ forall entry, In entry xs -> attached g0 entry m' attr).
Proof.
  induction xs as [ | x xs IH]; intros m Hs; cbn [fold_each].
  - apply reads_ret. split; [exact Hs | ].
    split; [intros a t H; exact H | intros entry []].
  - eapply reads_bind; [now apply (@reads_resolve_one g0 o m x attr) | ].
    intros m1 (Hs1 & He1 & Ha1).
    eapply reads_impl; [apply (IH m1 Hs1) | ].
    intros m' (Hs' & He' & Ha').
    split; [exact Hs' | ]. split; [now apply (extends_trans He1) | ].
    intros entry [<- | Hin]; [ | now apply Ha'].
    now apply (attached_extends He').
Qed.

Lemma returns_ret {A} (a : A) : returns (ret a).
Proof. intros g. now exists a. Qed.

Lemma returns_bind {A B} (m : M Graph A) (k : A -> M Graph B) :
  returns m -> (forall a, returns (k a)) -> returns (bind m k).
Proof.
  intros Hm Hk g. unfold bind. destruct (Hm g) as [a Ha].
  destruct (m g) as [[a0 | e] g1]; cbn [fst] in Ha; [ | discriminate].
  apply Hk.
Qed.

Lemma returns_resolve_one (m : GraphObject) (entry : value) (attr : string) :
  names_user entry ->
  returns
    (user_id <- subscript entry "id" ;;
     author_dict <- match_first_by_key User user_id ;;
     ret (update m attr (target_of author_dict))).
Proof.
  intros (d & id & -> & Hid). apply returns_bind.
  - intros g. cbn [subscript]. rewrite Hid. now exists id.
  - intros user_id. apply returns_bind.
    + intros g. eexists. reflexivity.
    + intros author_dict. apply returns_ret.
Qed.

Lemma returns_resolve_if (m : GraphObject) (entry : value) (attr : string) :
  (truthy entry = true -> names_user entry) ->
  returns
    (if truthy entry
     then
       user_id <- subscript entry "id" ;;
       author_dict <- match_first_by_key User user_id ;;
       ret (update m attr (target_of author_dict))
     else ret m).
Proof.
  intros H. destruct (truthy entry).
  - now apply returns_resolve_one, H.
  - apply returns_ret.
Qed.

Lemma returns_resolve_each (attr : string) (xs : list value) :
  Forall names_user xs ->
  forall m,
    returns
      (fold_each xs
         (fun issue_model assignee =>
            assignee_id <- subscript assignee "id" ;;
            author_dict <- match_first_by_key User assignee_id ;;
            ret (update issue_model attr (target_of author_dict)))
         m).
Proof.
  induction 1 as [ | x xs Hx Hxs IH]; intros m; cbn [fold_each].
  - apply returns_ret.
  - apply returns_bind; [now apply returns_resolve_one | exact IH].
Qed.

Lemma returns_bind_ret {A B} (a : A) (k : A -> M Graph B) :
  returns (k a) -> returns (bind (ret a) k).
Proof. intros H g. exact (H g). Qed.

Lemma returns_resolve_users (issue : RESTObject) (issue_model : GraphObject) :
  users_named issue -> returns (resolve_users issue issue_model).
Proof.
  intros [Hkeys (l & Hl & Hall)]. unfold resolve_users.
  apply returns_bind; [apply returns_resolve_if, Hkeys; cbn; tauto | ].
  intros m1. rewrite Hl. cbn [iterate]. apply returns_bind_ret.
  apply returns_bind; [now apply returns_resolve_each | ]. intros m2.
  apply returns_bind; [apply returns_resolve_if, Hkeys; cbn; tauto | ].
  intros m3. apply returns_resolve_if, Hkeys; cbn; tauto.
Qed.

(** X20. The resolution of the users of an issue returns, on every
    graph, when the record names its users: the author, the assignee and
    the closer, where there is one, are dicts with an [id], and the
    assignees are a list of such dicts.  It writes no node: whatever
    the issue holds, and whether the step returns or raises, the nodes of
    the graph and the next identity are as before.  When it returns, the
    model is a model of the same node with the same properties, and the
    users the record names are attached to it, each one as the lookup
    gave it: for the author, the assignee and the closer, when the entry
    is there, and for every entry of the list of assignees, what is
    attached under [created_by], [is_assigned], [closed_by] and
    [was_assigned] is the node of a user with the [id] of the entry, or
    [None] when the graph holds no such user (an unknown user is attached
    as [None], not skipped). *)
Theorem resolve_users_reads_only (issue : RESTObject)
  (issue_model : GraphObject) :
  (users_named issue -> returns (resolve_users issue issue_model))
  /\ forall g,
  let r := resolve_users issue issue_model g in
  nodes (snd r) = nodes g
  /\ next_identity (snd r) = next_identity g
  /\ forall issue_model',
       fst r = Ok issue_model' ->
       same_node issue_model' issue_model
       /\ (forall key attr,
             In (key, attr)
               [("author", "created_by"); ("assignee", "is_assigned");
                ("closed_by", "closed_by")] ->
             truthy (dict_get key (attributes issue)) = true ->
             attached g (dict_get key (attributes issue)) issue_model' attr)
       /\ (forall l entry,
             dict_get "assignees" (attributes issue) = VList l ->
             In entry l ->
             attached g entry issue_model' "was_assigned").
Proof.
  split; [exact (@returns_resolve_users issue issue_model) | ]. intros g.
  set (author := dict_get "author" (attributes issue)).
  set (assignees := dict_get "assignees" (attributes issue)).
  set (assignee := dict_get "assignee" (attributes issue)).
  set (closer := dict_get "closed_by" (attributes issue)).
  assert (Hstart : same_node issue_model issue_model) by (repeat split).
  assert (H : reads g (resolve_users issue issue_model)
                (fun m' =>
                   same_node m' issue_model
                   /\ (truthy author = true ->
                       attached g author m' "created_by")
                   /\ (forall l entry, assignees = VList l -> In entry l ->
                         attached g entry m' "was_assigned")
                   /\ (truthy assignee = true ->
                       attached g assignee m' "is_assigned")
                   /\ (truthy closer = true ->
                       attached g closer m' "closed_by"))).
  { unfold resolve_users.
    fold author. fold assignees. fold assignee. fold closer.
    eapply reads_bind;
      [exact (@reads_resolve_if g issue_model issue_model author
                "created_by" Hstart) | ].
    intros m1 (Hs1 & _ & Ha1).
    eapply reads_bind; [apply reads_iterate | ]. intros xs Hxs.
    eapply reads_bind;
      [exact (@reads_resolve_each g issue_model "was_assigned" xs m1 Hs1) | ].
    intros m2 (Hs2 & He2 & Ha2).
    eapply reads_bind;
      [exact (@reads_resolve_if g issue_model m2 assignee
                "is_assigned" Hs2) | ].
    intros m3 (Hs3 & He3 & Ha3).
    eapply reads_impl;
      [exact (@reads_resolve_if g issue_model m3 closer
                "closed_by" Hs3) | ].
    intros m4 (Hs4 & He4 & Ha4).
    split; [exact Hs4 | ]. split; [ | split; [ | split]].
    - intros Ht. apply (attached_extends He4). apply (attached_extends He3).
      apply (attached_extends He2). now apply Ha1.
    - intros l entry Hl Hin. apply (attached_extends He4).
      apply (attached_extends He3). apply Ha2.
      now rewrite (Hxs l Hl).
    - intros Ht. apply (attached_extends He4). now apply Ha3.
    - exact Ha4. }
  destruct (H g eq_refl) as (Hn & Hi & Hp).
  cbv zeta. split; [exact Hn | ]. split; [exact Hi | ].
  intros m' Hok. destruct (Hp m' Hok) as (Hs & Hau & Hal & Has & Hcl).
  split; [exact Hs | ]. split; [ | exact Hal].
  intros key attr Hin Ht.
  destruct Hin as [E | [E | [E | []]]]; inversion E; subst; auto.
Qed.

Lemma resolve_users_reads_only_witness :
  let issue_model :=
    mkObject Issue (Some 2) [("id", VInt 302); ("iid", VInt 43)] [] in
  let r := resolve_users assigned_issue issue_model small_graph in
  users_named assigned_issue
  /\ exists issue_model',
       fst r = Ok issue_model'
       /\ nodes (snd r) = nodes small_graph
       /\ attached small_graph
            (VDict [("id", VInt 5); ("name", VStr "Martin")])
            issue_model' "created_by"
       /\ attached small_graph (VDict [("id", VInt 77)])
            issue_model' "was_assigned".
Proof.
  intros issue_model r.
  assert (Hnamed : users_named assigned_issue).
  { split.
    - intros key [<- | [<- | [<- | []]]] Ht; cbn in *; try discriminate;
        eexists _, _; split; reflexivity.
    - eexists. split; [reflexivity | ].
      repeat constructor; eexists _, _; split; reflexivity. }
  split; [exact Hnamed | ].
  destruct (resolve_users_reads_only assigned_issue issue_model)
    as [Hret H].
  destruct (Hret Hnamed small_graph) as [m' Hm'].
  destruct (H small_graph) as (Hn & _ & Hp).
  destruct (Hp m' Hm') as (_ & Hk & Hl).
  exists m'. split; [exact Hm' | ]. split; [exact Hn | ]. split.
  - exact (Hk "author" "created_by" (or_introl eq_refl) eq_refl).
  - exact (Hl _ _ eq_refl (or_intror (or_introl eq_refl))).
Defined.

(** The issue of a member, assigned to that member and to a stranger:
    the member is attached three times, the stranger as [None]. *)
Example resolve_users_assigned_issue :
  fst (resolve_users assigned_issue
         (mkObject Issue (Some 2) [("id", VInt 302); ("iid", VInt 43)] [])
         small_graph)
  = Ok (mkObject Issue (Some 2) [("id", VInt 302); ("iid", VInt 43)]
          [("created_by", [Some 1]); ("was_assigned", [Some 1; None]);
           ("is_assigned", [Some 1])]).
Proof. vm_compute. reflexivity. Qed.

End IssueMore.

(* ===================================================================== *)
(** ** [CommitPipeline]: the models point at nodes of the graph *)
(* ===================================================================== *)

Module CommitLinks.

Import PyFacts ModelsFacts Repository RepositoryMore CommitFacts.
Import CommitPipeline CommitProperties CopyPipelines IssueMore.

Lemma grows_refl (g : Graph) : grows g g.
Proof. intros n Hn. now exists n. Qed.

Lemma grows_trans (g1 g2 g3 : Graph) :
  grows g1 g2 -> grows g2 g3 -> grows g1 g3.
Proof.
  intros H12 H23 n Hn. destruct (H12 n Hn) as (n2 & Hn2 & Hi2 & Hl2).
  destruct (H23 n2 Hn2) as (n3 & Hn3 & Hi3 & Hl3).
  exists n3. split; [exact Hn3 | ]. split; congruence.
Qed.

Lemma grows_nodes (g g' : Graph) : nodes g' = nodes g -> grows g g'.
Proof. intros H n Hn. exists n. rewrite H. auto. Qed.

Lemma in_graph_grows (g g' : Graph) (t : option nat) :
  grows g g' -> in_graph g t -> in_graph g' t.
Proof.
  intros Hg (n & Hn & ->). destruct (Hg n Hn) as (n' & Hn' & Hi & _).
  exists n'. split; [exact Hn' | now rewrite Hi].
Qed.

Lemma linked_grows (g g' : Graph) (o : GraphObject) :
  grows g g' -> linked g o -> linked g' o.
Proof.
  intros Hg [Hid Hrel]. split; [now apply (in_graph_grows Hg) | ].
  intros attr t Hin. destruct (Hrel attr t Hin) as (n & Hn & -> & Hl).
  destruct (Hg n Hn) as (n' & Hn' & Hi & Hl').
  exists n'. split; [exact Hn' | ]. split; [now rewrite Hi | ].
  intros Ha. rewrite Hl'. now apply Hl.
Qed.

Lemma write_grows (lbl : string) (v : value) (p : dict) (ns : list Node)
  (n : Node) :
  In n ns ->
  exists n', In n' (write lbl v p ns)
             /\ identity n' = identity n /\ label n' = label n.
Proof.
  induction ns as [ | m ns IH]; intros Hn; [now elim Hn | ].
  cbn [write]. destruct (keyed lbl v m) eqn:E.
  - destruct Hn as [<- | Hn].
    + eexists. split; [now left | ]. cbn. auto.
    + exists n. split; [now right | auto].
  - destruct Hn as [<- | Hn].
    + exists m. split; [now left | auto].
    + destruct (IH Hn) as (n' & Hn' & H). exists n'. split; [now right | auto].
Qed.

Lemma merge_grows (lbl : string) (props : dict) (g : Graph) :
  grows g (snd (merge lbl "id" props g)).
Proof.
  rewrite merge_keyed.
  destruct (List.find _ (nodes g)) as [m | ]; cbn [snd nodes]; intros n Hn.
  - now apply write_grows.
  - exists n. split; [apply in_or_app; now left | auto].
Qed.

Lemma create_grows (cls : model) (attributes : dict) (g : Graph) :
  grows g (snd (create cls attributes g)).
Proof.
  destruct (dict_contains (__primarykey__ cls) attributes) eqn:Hin.
  - destruct (create_as_merge cls attributes g Hin) as (i & g' & Hm & Hc).
    rewrite Hc. cbn [snd].
    change (__primarykey__ cls) with "id" in Hm.
    pose proof (merge_grows (__primarylabel__ cls)
                  (node_properties (copy_attributes (new cls) attributes)) g)
      as H.
    now rewrite Hm in H.
  - unfold create. rewrite Hin. cbn. apply grows_refl.
Qed.

Lemma create_linked (cls : model) (attributes : dict) (g : Graph)
  (o : GraphObject) :
  fst (create cls attributes g) = Ok o ->
  linked (snd (create cls attributes g)) o.
Proof.
  destruct (dict_contains (__primarykey__ cls) attributes) eqn:Hin.
  - destruct (create_as_merge cls attributes g Hin) as (i & g' & Hm & Hc).
    rewrite Hc. cbn [fst snd]. intros H. inversion H; subst. split.
    + eexists. split; [exact (merge_written _ _ _ _ Hm) | reflexivity].
    + intros attr t Ht. cbn in Ht. now elim Ht.
  - unfold create. rewrite Hin. cbn. discriminate.
Qed.

Lemma get_or_create_grows (cls : model) (k : value) (g : Graph) :
  grows g (snd (get_or_create cls k None g)).
Proof.
  destruct (value_eq_dec k VNone) as [-> | Hk]; [apply grows_refl | ].
  rewrite (get_or_create_unfold cls None g Hk).
  destruct (List.find _ (nodes g)); cbn [snd].
  - now apply grows_nodes.
  - eapply grows_trans; [ | apply create_grows]. now apply grows_nodes.
Qed.

Lemma get_or_create_in_graph (cls : model) (k : value) (g : Graph)
  (o : GraphObject) :
  fst (get_or_create cls k None g) = Ok o ->
  exists n, In n (nodes (snd (get_or_create cls k None g)))
            /\ node_identity o = Some (identity n)
            /\ label n = __primarylabel__ cls.
Proof.
  destruct (value_eq_dec k VNone) as [-> | Hk]; [discriminate | ].
  destruct (get_or_create_found cls g Hk) as (n & g1 & Hrun & Hfind).
  rewrite Hrun. cbn [fst snd]. intros H. inversion H; subst.
  apply find_some in Hfind. destruct Hfind as [Hin Hn].
  exists n. split; [exact Hin | ]. split; [reflexivity | ].
  eapply node_matches_label. exact Hn.
Qed.

Lemma find_user_in_graph (name : value) (g : Graph) (o : GraphObject) :
  fst (_find_user name g) = Ok (Some o) ->
  in_graph g (node_identity o).
Proof.
  assert (Hwrap : forall q (n : Node),
            List.find q (nodes g) = Some n ->
            Ok (Some (wrap User n)) = Ok (Some o) ->
            in_graph g (node_identity o)).
  { intros q n Hf H. inversion H; subst. apply find_some in Hf.
    exists n. split; [apply Hf | reflexivity]. }
  assert (Hother : forall v,
            (forall s, v <> VStr s) ->
            fst ((node <- find User [PropContains "name" v] ;;
                  node <- match node with
                          | Some n => ret (Some n)
                          | None =>
                              surname <- surname_of v ;;
                              find User [PropContains "name" surname]
                          end ;;
                  match node with
                  | Some n => ret (Some (wrap User n))
                  | None => ret None
                  end) g) = Ok (Some o) -> in_graph g (node_identity o)).
  { intros v Hv. unfold find, match_first, bind, ret. cbn [nodes].
    destruct (List.find (node_matches None [PropContains "name" v]) (nodes g))
      as [n | ] eqn:Hf; cbn [fst].
    - now apply Hwrap with (q := node_matches None [PropContains "name" v]).
    - destruct v; cbn; try discriminate. now elim (Hv s). }
  destruct name as [ | b | z | s | l | d];
    try (apply Hother; intros s0; discriminate).
  - cbn. discriminate.
  - rewrite find_user_cases.
    destruct (List.find (node_matches None [PropContains "name" (VStr s)])
                (nodes g)) as [n | ] eqn:Hf.
    + now apply Hwrap with (q := node_matches None [PropContains "name" (VStr s)]).
    + destruct (rev (split s)) as [ | surname rest]; [discriminate | ].
      destruct (List.find
                  (node_matches None [PropContains "name" (VStr surname)])
                  (nodes g)) as [n | ] eqn:Hf'; [ | discriminate].
      now apply Hwrap
        with (q := node_matches None [PropContains "name" (VStr surname)]).
Qed.

Lemma linked_update (g : Graph) (o : GraphObject) (attr : string)
  (target : option nat) :
  linked g o ->
  (exists n, In n (nodes g) /\ target = Some (identity n)
             /\ (attr = "has_parent" -> label n = "Commit")) ->
  linked g (update o attr target).
Proof.
  intros [Hid Hrel] Ht. split; [exact Hid | ].
  intros attr' t Hin. apply related_objects_update in Hin.
  destruct Hin as [Hin | [-> ->]]; [now apply Hrel | ].
  destruct Ht as (n & Hn & -> & Hl). exists n. auto.
Qed.

Lemma all_linked_grows (s s' : self) :
  grows (graph s) (graph s') ->
  commit_model_list s' = commit_model_list s ->
  all_linked s -> all_linked s'.
Proof.
  unfold all_linked. intros Hg -> H.
  eapply Forall_impl; [ | exact H]. intros o. now apply linked_grows.
Qed.

Lemma triple_bind {A B} (Pre : Graph -> Prop) (m : M self A)
  (k : A -> M self B) (Q : Graph -> A -> Prop) (R : Graph -> B -> Prop) :
  triple Pre m Q -> (forall a, triple (fun g => Q g a) (k a) R) ->
  triple Pre (bind m k) R.
Proof.
  intros Hm Hk s Hs Hpre. unfold bind.
  destruct (Hm s Hs Hpre) as (Hs1 & Hg1 & Hq).
  destruct (m s) as [[a | e] s1]; cbn [fst snd] in *.
  - destruct (Hk a s1 Hs1 (Hq a eq_refl)) as (Hs2 & Hg2 & Hr).
    split; [exact Hs2 | ]. split; [ | exact Hr].
    eapply grows_trans; eauto.
  - split; [exact Hs1 | ]. split; [exact Hg1 | discriminate].
Qed.

Lemma triple_pre {A} (Pre Pre' : Graph -> Prop) (m : M self A)
  (Post : Graph -> A -> Prop) :
  (forall g, Pre' g -> Pre g) -> triple Pre m Post -> triple Pre' m Post.
Proof. intros H Hm s Hs Hpre. apply Hm; auto. Qed.

Lemma triple_ret {A} (a : A) (Post : Graph -> A -> Prop) :
  triple (fun g => Post g a) (ret a) Post.
Proof.
  intros s Hs Hpre. cbn. split; [exact Hs | ]. split; [apply grows_refl | ].
  intros a0 H. now inversion H; subst.
Qed.

Lemma triple_iterate (F : Graph -> Prop) (v : value) :
  triple F (iterate v) (fun g _ => F g).
Proof.
  intros s Hs Hpre.
  destruct v; cbn; (split; [exact Hs | ]; split; [apply grows_refl | ]);
    try discriminate; auto.
Qed.

Lemma triple_on_graph {A} (m : M Graph A) (F : Graph -> Prop)
  (Post : Graph -> A -> Prop) :
  (forall g g', grows g g' -> F g -> F g') ->
  (forall g, grows g (snd (m g))) ->
  (forall g a, fst (m g) = Ok a -> Post (snd (m g)) a) ->
  triple F (on_graph m) (fun g a => F g /\ Post g a).
Proof.
  intros Hmono Hgrows Hpost s Hs Hpre. unfold on_graph, zoom.
  specialize (Hgrows (graph s)). specialize (Hpost (graph s)).
  destruct (m (graph s)) as [r g']. cbn [fst snd graph] in *.
  split; [ | split; [exact Hgrows | ]].
  - now apply (@all_linked_grows s).
  - intros a ->. split; [now apply (Hmono (graph s)) | now apply Hpost].
Qed.

Lemma triple_fold_each {A B} (xs : list A) (body : B -> A -> M self B)
  (I : Graph -> B -> Prop) :
  (forall b x, triple (fun g => I g b) (body b x) I) ->
  forall b, triple (fun g => I g b) (fold_each xs body b) I.
Proof.
  intros Hbody. induction xs as [ | x xs IH]; intros b; cbn [fold_each].
  - apply triple_ret.
  - eapply triple_bind; [apply Hbody | exact IH].
Qed.

Lemma triple_append (commit_model : GraphObject) :
  triple (fun g => linked g commit_model)
    (fun s =>
       (Ok tt,
        mkSelf (graph s) (commits s) (commit_model_list s ++ [commit_model])))
    (fun _ _ => True).
Proof.
  intros s Hs Hpre. cbn [fst snd graph]. split; [ | split; [apply grows_refl | auto]].
  unfold all_linked. cbn [graph commit_model_list].
  apply Forall_app. split; [exact Hs | now constructor].
Qed.

(** Resolving a user by name and attaching it, if there is one. *)
Lemma triple_find_user (commit_model : GraphObject) (name : value) :
  triple (fun g => linked g commit_model) (on_graph (_find_user name))
    (fun g a =>
       linked g commit_model
       /\ forall x, a = Some x -> in_graph g (node_identity x)).
Proof.
  apply triple_on_graph.
  - intros g g'. apply linked_grows.
  - intros g. apply grows_nodes. apply CommitMore.find_user_nodes.
  - intros g a Ha x ->.
    apply (@in_graph_grows g); [ | now apply (@find_user_in_graph name)].
    apply grows_nodes. apply CommitMore.find_user_nodes.
Qed.

Lemma linked_attach (g : Graph) (commit_model : GraphObject) (attr : string)
  (a : option GraphObject) :
  attr <> "has_parent" ->
  linked g commit_model ->
  (forall x, a = Some x -> in_graph g (node_identity x)) ->
  linked g
    match a with
    | Some x => update commit_model attr (node_identity x)
    | None => commit_model
    end.
Proof.
  intros Hattr Hl Ha. destruct a as [x | ]; [ | exact Hl].
  apply linked_update; [exact Hl | ].
  destruct (Ha x eq_refl) as (n & Hn & Hi). exists n.
  split; [exact Hn | ]. split; [exact Hi | ]. intros E. now elim Hattr.
Qed.

Lemma transform_commit_linked (commit : RESTObject) :
  triple (fun _ => True) (transform_commit commit) (fun _ _ => True).
Proof.
  unfold transform_commit.
  eapply triple_bind.
  { apply triple_on_graph with (Post := fun g o => linked g o).
    - auto.
    - intros g. apply create_grows.
    - intros g a. apply create_linked. }
  intros commit_model.
  eapply triple_bind.
  { eapply triple_pre; [ | apply (@triple_find_user commit_model)].
    intros g [_ H]. exact H. }
  intros author. cbv zeta.
  eapply triple_bind.
  { eapply triple_pre; [ | apply triple_find_user].
    intros g [Hl Ha].
    apply (@linked_attach g commit_model "is_author" author);
      [discriminate | exact Hl | exact Ha]. }
  intros committer. cbv zeta.
  match goal with
  | |- triple _ (bind _ (fun _ => bind (fold_each _ _ ?b) _)) _ =>
      apply triple_bind with (Q := fun g _ => linked g b)
  end.
  { eapply triple_pre;
      [ | apply triple_iterate with (F := fun g => linked g _)].
    intros g [Hl Ha]. cbv beta.
    apply (@linked_attach g _ "is_committer" committer);
      [discriminate | exact Hl | exact Ha]. }
  intros parent_ids.
  eapply triple_bind.
  { apply triple_fold_each with (I := fun g b => linked g b).
    intros b parent_commit_id.
    eapply triple_bind.
    { apply triple_on_graph
        with (F := fun g => linked g b)
             (Post := fun g p =>
                        exists n, In n (nodes g)
                                  /\ node_identity p = Some (identity n)
                                  /\ label n = "Commit").
      - intros g g'. apply linked_grows.
      - intros g. apply get_or_create_grows.
      - intros g a. apply (@get_or_create_in_graph Commit). }
    intros parent_commit.
    eapply triple_pre; [ | apply triple_ret].
    intros g [Hl (n & Hn & Hi & Hlbl)]. cbv beta.
    apply linked_update; [exact Hl | ]. exists n. auto. }
  intros commit_model'. apply triple_append.
Qed.

(** X21. The models of [CommitPipeline] never point outside the graph.
    If every model in [commit_model_list] is bound to a node of the
    graph, together with every object attached to it, the same holds
    after [transform_data], whether it returns or raises: the author and
    the committer that were attached are nodes of the graph (an unknown
    name attaches nothing), every parent is the node of a [Commit], and
    no node was removed or given another identity or label. *)
Theorem transform_data_keeps_links (s : self) :
  all_linked s ->
  all_linked (snd (transform_data s))
  /\ grows (graph s) (graph (snd (transform_data s))).
Proof.
  intros Hs. unfold transform_data.
  destruct (commits s) as [cs | ]; cbn [snd];
    [ | split; [exact Hs | apply grows_refl]].
  assert (H : triple (fun _ => True) (for_each cs transform_commit)
                (fun _ _ => True)).
  { induction cs as [ | c cs IH]; cbn [for_each].
    - apply (triple_ret tt (fun _ _ => True)).
    - eapply triple_bind; [apply transform_commit_linked | ].
      intros u. exact IH. }
  destruct (H s Hs I) as (Hlinked & Hgrows & _). auto.
Qed.

Lemma transform_data_keeps_links_witness :
  all_linked two_commits
  /\ all_linked (snd (transform_data two_commits))
  /\ grows (graph two_commits) (graph (snd (transform_data two_commits))).
Proof.
  assert (H : all_linked two_commits) by constructor.
  split; [exact H | ].
  exact (@transform_data_keeps_links two_commits H).
Defined.

End CommitLinks.
